(** * The event fan-out broker of package [events]

    A shallow embedding of [EventManager] (events.go): the tagged stream
    event and its sequence accessor, the subscriber with its bounded
    outgoing queue and once-guarded cleanup, the broadcast loop with the
    slow-consumer eviction task, [AddEvent], [Subscribe] and the join
    coordinator that stitches two playbacks of the persisted log to the
    live queue.

    Go values are modelled as follows.
    - [int64] sequence numbers are [Z]; the code only compares them.
    - A pointer that may be nil is an [option]; the pointee is a record.
    - A buffered channel is a record of its queued values, its capacity and
      whether it was closed; closing it twice or sending on it once it is
      closed is a panic.
    - A [*Subscriber] is an address into a heap of subscriber records
      ([gmap nat Subscriber.t]); [em.subs] is a list of addresses.
    - Goroutines are sequential steps; a [select] whose outcome the Go
      runtime or the environment decides takes that decision as an
      argument. *)

From stdpp Require Import base option numbers list strings gmap sorting.
From Stdlib Require Import ZArith Lia.

Local Open Scope Z_scope.

(** ** Event model *)

(** [ErrorFrame] of events.go. *)
Module ErrorFrame.
Record t := Build { Error : string; Message : string }.
End ErrorFrame.

(** The lexicon types of package [comatproto] are declared outside this
    package. Each data-carrying body has the [Seq] field the broker reads;
    the other fields are payload the broker never inspects and are kept as
    one opaque string. *)
Module SyncSubscribeRepos_Commit.
Record t := Build { Seq : Z; Repo : string }.
End SyncSubscribeRepos_Commit.

Module SyncSubscribeRepos_Handle.
Record t := Build { Seq : Z; Did : string }.
End SyncSubscribeRepos_Handle.

Module SyncSubscribeRepos_Migrate.
Record t := Build { Seq : Z; Did : string }.
End SyncSubscribeRepos_Migrate.

Module SyncSubscribeRepos_Tombstone.
Record t := Build { Seq : Z; Did : string }.
End SyncSubscribeRepos_Tombstone.

Module SyncSubscribeRepos_Info.
Record t := Build { Name : string }.
End SyncSubscribeRepos_Info.

Module LabelSubscribeLabels_Labels.
Record t := Build { Seq : Z; Labels : list string }.
End LabelSubscribeLabels_Labels.

Module LabelSubscribeLabels_Info.
Record t := Build { Name : string }.
End LabelSubscribeLabels_Info.

(** [XRPCStreamEvent]: a struct of nullable pointers, one per variant, and
    the private routing fields. *)
Module XRPCStreamEvent.
Record t := Build {
  Error : option ErrorFrame.t;
  RepoCommit : option SyncSubscribeRepos_Commit.t;
  RepoHandle : option SyncSubscribeRepos_Handle.t;
  RepoInfo : option SyncSubscribeRepos_Info.t;
  RepoMigrate : option SyncSubscribeRepos_Migrate.t;
  RepoTombstone : option SyncSubscribeRepos_Tombstone.t;
  LabelLabels : option LabelSubscribeLabels_Labels.t;
  LabelInfo : option LabelSubscribeLabels_Info.t;
  PrivUid : N;
  PrivPdsId : N;
  PrivRelevantPds : list N
}.

(** The zero value [XRPCStreamEvent{}]. *)
Definition zero : t :=
  Build None None None None None None None None 0%N 0%N [].
End XRPCStreamEvent.

Abbreviation Event := XRPCStreamEvent.t.

(** Struct literals with one populated variant, as the producers write them. *)
Definition commitEvent (seq : Z) : Event :=
  XRPCStreamEvent.Build None (Some (SyncSubscribeRepos_Commit.Build seq ""))
    None None None None None None 0%N 0%N [].

Definition handleEvent (seq : Z) : Event :=
  XRPCStreamEvent.Build None None (Some (SyncSubscribeRepos_Handle.Build seq ""))
    None None None None None 0%N 0%N [].

Definition migrateEvent (seq : Z) : Event :=
  XRPCStreamEvent.Build None None None None
    (Some (SyncSubscribeRepos_Migrate.Build seq "")) None None None 0%N 0%N [].

Definition tombstoneEvent (seq : Z) : Event :=
  XRPCStreamEvent.Build None None None None None
    (Some (SyncSubscribeRepos_Tombstone.Build seq "")) None None 0%N 0%N [].

Definition infoEvent (name : string) : Event :=
  XRPCStreamEvent.Build None None None (Some (SyncSubscribeRepos_Info.Build name))
    None None None None 0%N 0%N [].

Definition labelsEvent (seq : Z) : Event :=
  XRPCStreamEvent.Build None None None None None None
    (Some (LabelSubscribeLabels_Labels.Build seq [])) None 0%N 0%N [].

Definition labelInfoEvent (name : string) : Event :=
  XRPCStreamEvent.Build None None None None None None None
    (Some (LabelSubscribeLabels_Info.Build name)) 0%N 0%N [].

Definition errorEvent (code msg : string) : Event :=
  XRPCStreamEvent.Build (Some (ErrorFrame.Build code msg))
    None None None None None None None 0%N 0%N [].

(** [sequenceForEvent]: the [switch] tries its cases from the top; the
    argument is a pointer, [None] is nil. *)
Definition sequenceForEvent (evt : option Event) : Z :=
  match evt with
  | None => -1
  | Some e =>
    match XRPCStreamEvent.RepoCommit e with
    | Some c => SyncSubscribeRepos_Commit.Seq c
    | None =>
    match XRPCStreamEvent.RepoHandle e with
    | Some h => SyncSubscribeRepos_Handle.Seq h
    | None =>
    match XRPCStreamEvent.RepoMigrate e with
    | Some m => SyncSubscribeRepos_Migrate.Seq m
    | None =>
    match XRPCStreamEvent.RepoTombstone e with
    | Some t => SyncSubscribeRepos_Tombstone.Seq t
    | None =>
    match XRPCStreamEvent.RepoInfo e with
    | Some _ => -1
    | None =>
    match XRPCStreamEvent.Error e with
    | Some _ => -1
    | None => -1
    end end end end end end
  end.

(** Modelled from the spec: the sequence the persistence layer assigned on
    append, which is the [Seq] field of whichever data-carrying variant is
    populated (the persistence implementations are outside this package);
    [None] for an event that carries no sequence. *)
Definition assignedSeq (e : Event) : option Z :=
  match XRPCStreamEvent.RepoCommit e with
  | Some c => Some (SyncSubscribeRepos_Commit.Seq c)
  | None =>
  match XRPCStreamEvent.RepoHandle e with
  | Some h => Some (SyncSubscribeRepos_Handle.Seq h)
  | None =>
  match XRPCStreamEvent.RepoMigrate e with
  | Some m => Some (SyncSubscribeRepos_Migrate.Seq m)
  | None =>
  match XRPCStreamEvent.RepoTombstone e with
  | Some t => Some (SyncSubscribeRepos_Tombstone.Seq t)
  | None =>
  match XRPCStreamEvent.LabelLabels e with
  | Some l => Some (LabelSubscribeLabels_Labels.Seq l)
  | None => None
  end end end end end.

(** ** Go runtime pieces *)

(** A computation either returns or panics. *)
Inductive Result (A : Type) : Type :=
  | Ok (a : A)
  | Panic (msg : string).
Arguments Ok {A} a.
Arguments Panic {A} msg.

Definition bind {A B : Type} (m : Result A) (k : A -> Result B) : Result B :=
  match m with
  | Ok a => k a
  | Panic msg => Panic msg
  end.

Notation "'let!' x ':=' m 'in' k" := (bind m (fun x => k))
  (at level 10, x name, m at level 100, k at level 200).

(** [n] calls of [f], one after the other. *)
Fixpoint repeatCall {S : Type} (f : S -> Result S) (n : nat) (s : S) : Result S :=
  match n with
  | O => Ok s
  | S k => let! s' := f s in repeatCall f k s'
  end.

(** [for _, x := range xs { body }] over a state. *)
Fixpoint forEach {A S : Type} (body : A -> S -> Result S) (xs : list A) (s : S)
  : Result S :=
  match xs with
  | [] => Ok s
  | x :: rest => let! s' := body x s in forEach body rest s'
  end.

(** Buffered channels. *)
Module Chan.
Record t (A : Type) := Build { buf : list A; cap : nat; closed : bool }.
Arguments Build {A} buf cap closed.
Arguments buf {A}.
Arguments cap {A}.
Arguments closed {A}.

(** [make(chan A, n)] *)
Definition make {A} (n : nat) : t A := Build [] n false.

(** [len(c)] *)
Definition len {A} (c : t A) : nat := length (buf c).

(** The channel has room for one more value. *)
Definition hasRoom {A} (c : t A) : bool := (len c <? cap c)%nat.

(** A send case of a [select] can proceed: there is room, or the channel
    is closed (and proceeding panics). *)
Definition sendReady {A} (c : t A) : bool := closed c || hasRoom c.

(** The value is queued. *)
Definition push {A} (x : A) (c : t A) : t A :=
  Build (buf c ++ [x]) (cap c) (closed c).

(** [close(c)] *)
Definition close {A} (c : t A) : Result (t A) :=
  if closed c then Panic "close of closed channel"
  else Ok (Build (buf c) (cap c) true).

(** The consumer takes [n] values off the front. *)
Definition consume {A} (n : nat) (c : t A) : t A :=
  Build (drop n (buf c)) (cap c) (closed c).

(** [<-c]: a queued value, the zero value once the channel is closed and
    empty, or nothing yet. *)
Inductive Recv (A : Type) : Type :=
  | Got (x : A) (c' : t A)
  | Drained
  | WouldBlock.
Arguments Got {A} x c'.
Arguments Drained {A}.
Arguments WouldBlock {A}.

Definition recv {A} (c : t A) : Recv A :=
  match buf c with
  | x :: rest => Got x (Build rest (cap c) (closed c))
  | [] => if closed c then Drained else WouldBlock
  end.
End Chan.

(** [time.Second], in nanoseconds as [time.Duration] counts. *)
Definition time_Second : Z := 1000000000.

(** The mutexes of the package. *)
Inductive Mutex : Type :=
  | subsLk
  | lk (sub : nat).

(** What a run leaves behind besides the data: logger calls, mutex
    operations, channel closings, timers and goroutines started, sends of
    the eviction task. *)
Inductive Effect : Type :=
  | Lock (m : Mutex)
  | Unlock (m : Mutex)
  | Warnw (msg : string) (ident : string)
  | Warnf (msg : string)
  | Errorf (msg : string)
  | After (d : Z)
  | SentTo (sub : nat) (evt : Event)
  | CloseDone (sub : nat)
  | CloseOutgoing (sub : nat)
  | GoEvict (torem : nat).

(** The errors of the package; any other error is a persistence error. *)
Inductive error : Type :=
  | ErrPlaybackShutdown
  | ErrCaughtUp
  | ErrOther (msg : string).

Definition errorString (e : error) : string :=
  match e with
  | ErrPlaybackShutdown => "playback shutting down"
  | ErrCaughtUp => "caught up"
  | ErrOther msg => msg
  end.

(** [errors.Is(err, target)] for the two sentinels. *)
Definition errors_Is (err target : error) : bool :=
  match err, target with
  | ErrPlaybackShutdown, ErrPlaybackShutdown => true
  | ErrCaughtUp, ErrCaughtUp => true
  | _, _ => false
  end.

(** ** Subscriber *)

Module Subscriber.
(** [cleanup] is the [sync.OnceFunc] closure built in [Subscribe];
    [cleanupFired] is the state of its once guard. The two counters are
    the children of the package's counter vectors for the label stored
    here. *)
Record t := Build {
  outgoing : Chan.t Event;
  filter : Event -> bool;
  done : bool;
  cleanupFired : bool;
  cleanedUp : bool;
  ident : string;
  enqueuedCounter : string;
  broadcastCounter : string
}.

Definition setOutgoing (c : Chan.t Event) (s : t) : t :=
  Build c (filter s) (done s) (cleanupFired s) (cleanedUp s) (ident s)
    (enqueuedCounter s) (broadcastCounter s).
Definition setDone (b : bool) (s : t) : t :=
  Build (outgoing s) (filter s) b (cleanupFired s) (cleanedUp s) (ident s)
    (enqueuedCounter s) (broadcastCounter s).
Definition setCleanupFired (b : bool) (s : t) : t :=
  Build (outgoing s) (filter s) (done s) b (cleanedUp s) (ident s)
    (enqueuedCounter s) (broadcastCounter s).
Definition setCleanedUp (b : bool) (s : t) : t :=
  Build (outgoing s) (filter s) (done s) (cleanupFired s) b (ident s)
    (enqueuedCounter s) (broadcastCounter s).
End Subscriber.

(** ** Persistence port *)

(** The [EventPersistence] interface, reduced to the two methods the broker
    calls on the paths below. [Persist] calls back into the broker through
    the broadcaster registered by [NewEventManager]; here it returns the
    events it hands to that callback, in order, next to its error.
    [Playback] threads the state its callback closes over. *)
Class EventPersistence (Ctx P : Type) := {
  Persist : Ctx -> Event -> P -> P * list Event * option error;
  Playback : forall {S : Type}, Ctx -> Z -> (Event -> S -> S * option error) ->
             P -> S -> S * option error
}.

(** ** Broker state *)

(** [EventManager] with everything its methods reach: the subscribers its
    pointers refer to, the two counter vectors of the package
    ([eventsEnqueued], [eventsBroadcast]) and the effects so far. *)
Module EventManager.
Record t (P : Type) := Build {
  subs : list nat;
  bufferSize : nat;
  persister : P;
  heap : gmap nat Subscriber.t;
  nextAddr : nat;
  eventsEnqueued : gmap string nat;
  eventsBroadcast : gmap string nat;
  trace : list Effect
}.
Arguments Build {P}.
Arguments subs {P}.
Arguments bufferSize {P}.
Arguments persister {P}.
Arguments heap {P}.
Arguments nextAddr {P}.
Arguments eventsEnqueued {P}.
Arguments eventsBroadcast {P}.
Arguments trace {P}.

Definition setSubs {P} (l : list nat) (em : t P) : t P :=
  Build l (bufferSize em) (persister em) (heap em) (nextAddr em)
    (eventsEnqueued em) (eventsBroadcast em) (trace em).
Definition setPersister {P} (p : P) (em : t P) : t P :=
  Build (subs em) (bufferSize em) p (heap em) (nextAddr em)
    (eventsEnqueued em) (eventsBroadcast em) (trace em).
Definition setHeap {P} (h : gmap nat Subscriber.t) (em : t P) : t P :=
  Build (subs em) (bufferSize em) (persister em) h (nextAddr em)
    (eventsEnqueued em) (eventsBroadcast em) (trace em).
Definition setNextAddr {P} (n : nat) (em : t P) : t P :=
  Build (subs em) (bufferSize em) (persister em) (heap em) n
    (eventsEnqueued em) (eventsBroadcast em) (trace em).
Definition setEventsEnqueued {P} (m : gmap string nat) (em : t P) : t P :=
  Build (subs em) (bufferSize em) (persister em) (heap em) (nextAddr em)
    m (eventsBroadcast em) (trace em).
Definition setEventsBroadcast {P} (m : gmap string nat) (em : t P) : t P :=
  Build (subs em) (bufferSize em) (persister em) (heap em) (nextAddr em)
    (eventsEnqueued em) m (trace em).
Definition emit {P} (fx : list Effect) (em : t P) : t P :=
  Build (subs em) (bufferSize em) (persister em) (heap em) (nextAddr em)
    (eventsEnqueued em) (eventsBroadcast em) (trace em ++ fx).
End EventManager.

(** ** Broker *)

(** [EvtKindErrorFrame], [EvtKindMessage]. *)
Definition EvtKindErrorFrame : Z := -1.
Definition EvtKindMessage : Z := 1.

(** [c.Inc()] on the child of a counter vector for [label]. *)
Definition Inc (label : string) (vec : gmap string nat) : gmap string nat :=
  <[label := S (default 0%nat (vec !! label))]> vec.

(** The value of that child. *)
Definition counterValue (label : string) (vec : gmap string nat) : nat :=
  default 0%nat (vec !! label).

(** The outcome of the [select] in [broadcastEvent]. *)
Inductive SelectOutcome : Type :=
  | Pushed
  | DoneObserved
  | QueueFull
  | SendOnClosed.

(** The receive-only channel [Subscribe] returns: the subscriber's own
    queue, or the merged channel of its join coordinator. *)
Inductive RecvChan : Type :=
  | OutgoingOf (sub : nat)
  | MergedOut (sub : nat).

(** The cancel function [Subscribe] returns is [sub.cleanup]. *)
Inductive CancelFunc : Type :=
  | CleanupOf (sub : nat).

(** Where the goroutine of [Subscribe] stands. *)
Inductive JoinPC : Type :=
  | Cold
  | Attach
  | AwaitFirst
  | Hot
  | Live
  | Exited.

(** The goroutine of [Subscribe]: the variables its closures capture and
    the merged channel [out], kept as the values sent on it so far (the
    consumer reads them in this order) and whether it was closed. *)
Module Join.
Record t (Ctx : Type) := Build {
  ctx : Ctx;
  sub : nat;
  since : Z;
  lastSeq : Z;
  first : option Event;
  out : list Event;
  outClosed : bool;
  pc : JoinPC
}.
Arguments Build {Ctx}.
Arguments ctx {Ctx}.
Arguments sub {Ctx}.
Arguments since {Ctx}.
Arguments lastSeq {Ctx}.
Arguments first {Ctx}.
Arguments out {Ctx}.
Arguments outClosed {Ctx}.
Arguments pc {Ctx}.

Definition setLastSeq {Ctx} (z : Z) (j : t Ctx) : t Ctx :=
  Build (ctx j) (sub j) (since j) z (first j) (out j) (outClosed j) (pc j).
Definition setFirst {Ctx} (e : option Event) (j : t Ctx) : t Ctx :=
  Build (ctx j) (sub j) (since j) (lastSeq j) e (out j) (outClosed j) (pc j).
(** [out <- e] *)
Definition send {Ctx} (e : Event) (j : t Ctx) : t Ctx :=
  Build (ctx j) (sub j) (since j) (lastSeq j) (first j) (out j ++ [e])
    (outClosed j) (pc j).
(** The values [es] sent one after the other. *)
Definition sendAll {Ctx} (es : list Event) (j : t Ctx) : t Ctx :=
  Build (ctx j) (sub j) (since j) (lastSeq j) (first j) (out j ++ es)
    (outClosed j) (pc j).
(** [close(out)] *)
Definition closeOut {Ctx} (j : t Ctx) : t Ctx :=
  Build (ctx j) (sub j) (since j) (lastSeq j) (first j) (out j) true (pc j).
Definition goto {Ctx} (p : JoinPC) (j : t Ctx) : t Ctx :=
  Build (ctx j) (sub j) (since j) (lastSeq j) (first j) (out j)
    (outClosed j) p.
End Join.

Section Broker.
Context {Ctx P : Type} `{!EventPersistence Ctx P}.

(** When a [select] finds its send case and its [done] case both ready the
    Go runtime picks one of them; [pickDone sub evt] says whether it picks
    the [done] case for this subscriber and event. *)
Variable pickDone : nat -> Event -> bool.

(** [otel.Tracer("events").Start(ctx, name)]: the derived context. *)
Variable tracerStart : string -> Ctx -> Ctx.

Definition deref (a : nat) (em : EventManager.t P) : Result Subscriber.t :=
  match EventManager.heap em !! a with
  | Some s => Ok s
  | None => Panic "invalid memory address or nil pointer dereference"
  end.

Definition store (a : nat) (s : Subscriber.t) (em : EventManager.t P)
  : EventManager.t P :=
  EventManager.setHeap (<[a := s]> (EventManager.heap em)) em.

(** [NewEventManager]: the persister is handed [em.broadcastEvent], which
    [Persist] of the class stands for by returning the events. *)
Definition NewEventManager (persister : P) : EventManager.t P :=
  EventManager.Build [] (Z.to_nat (Z.shiftl 32 10)) persister ∅ 0%nat ∅ ∅ [].

Definition addSubscriber (sub : nat) (em : EventManager.t P) : EventManager.t P :=
  let em := EventManager.emit [Lock subsLk] em in
  let em := EventManager.setSubs (EventManager.subs em ++ [sub]) em in
  EventManager.emit [Unlock subsLk] em.

(** The first [i] with [em.subs[i] == sub] is overwritten by the last
    element and the slice is cut by one. *)
Definition rmSubscriber (sub : nat) (em : EventManager.t P) : EventManager.t P :=
  let em := EventManager.emit [Lock subsLk] em in
  let l := EventManager.subs em in
  let em :=
    match list_find (λ s, s = sub) l with
    | Some (i, _) =>
      match l !! (length l - 1)%nat with
      | Some x => EventManager.setSubs (take (length l - 1) (<[i := x]> l)) em
      | None => em
      end
    | None => em
    end in
  EventManager.emit [Unlock subsLk] em.

(** The closure [sub.cleanup]: [sync.OnceFunc] runs the body on the first
    call only. *)
Definition cleanup (a : nat) (em : EventManager.t P) : Result (EventManager.t P) :=
  let! s := deref a em in
  if Subscriber.cleanupFired s then Ok em
  else
    let em := store a (Subscriber.setCleanupFired true s) em in
    let em := EventManager.emit [Lock (lk a)] em in
    let! s := deref a em in
    let! s := (if Subscriber.done s then Panic "close of closed channel"
               else Ok (Subscriber.setDone true s)) in
    let em := EventManager.emit [CloseDone a] (store a s em) in
    let em := rmSubscriber a em in
    let! s := deref a em in
    let! c := Chan.close (Subscriber.outgoing s) in
    let em := EventManager.emit [CloseOutgoing a]
                (store a (Subscriber.setOutgoing c s) em) in
    let! s := deref a em in
    let em := store a (Subscriber.setCleanedUp true s) em in
    Ok (EventManager.emit [Unlock (lk a)] em).

(** The timeout of the error-frame send. *)
Definition evictionTimeout : Z := time_Second * 5.

(** The frame sent to a consumer that is dropped. *)
Definition consumerTooSlow : Event :=
  XRPCStreamEvent.Build (Some (ErrorFrame.Build "ConsumerTooSlow" ""))
    None None None None None None None 0%N 0%N [].

(** The goroutine [broadcastEvent] starts on overflow. The consumer takes
    [drained] values off the queue before the timer fires; the send wins
    the [select] when that leaves room. *)
Definition evict (drained : nat) (torem : nat) (em : EventManager.t P)
  : Result (EventManager.t P) :=
  let em := EventManager.emit [Lock (lk torem)] em in
  let! s := deref torem em in
  let! em :=
    (if negb (Subscriber.cleanedUp s) then
       let em := EventManager.emit [After evictionTimeout] em in
       let c := Chan.consume drained (Subscriber.outgoing s) in
       if Chan.closed c then Panic "send on closed channel"
       else if Chan.hasRoom c then
         Ok (EventManager.emit [SentTo torem consumerTooSlow]
               (store torem (Subscriber.setOutgoing (Chan.push consumerTooSlow c) s) em))
       else
         Ok (EventManager.emit
               [Warnw "failed to send error frame to backed up consumer"
                  (Subscriber.ident s)]
               (store torem (Subscriber.setOutgoing c s) em))
     else Ok em) in
  let em := EventManager.emit [Unlock (lk torem)] em in
  cleanup torem em.

(** The non-blocking [select] of [broadcastEvent]. *)
Definition broadcastSelect (a : nat) (s : Subscriber.t) (evt : Event)
  : SelectOutcome :=
  let c := Subscriber.outgoing s in
  if Chan.sendReady c && negb (Subscriber.done s && pickDone a evt) then
    if Chan.closed c then SendOnClosed else Pushed
  else if Subscriber.done s then DoneObserved
  else QueueFull.

(** The body of the loop of [broadcastEvent] for the subscriber at [a]. *)
Definition broadcastOne (evt : Event) (a : nat) (em : EventManager.t P)
  : Result (EventManager.t P) :=
  let! s := deref a em in
  if Subscriber.filter s evt then
    let em := EventManager.setEventsEnqueued
                (Inc (Subscriber.enqueuedCounter s) (EventManager.eventsEnqueued em)) em in
    let! em :=
      match broadcastSelect a s evt with
      | Pushed =>
        Ok (store a (Subscriber.setOutgoing
                       (Chan.push evt (Subscriber.outgoing s)) s) em)
      | DoneObserved => Ok em
      | QueueFull =>
        Ok (EventManager.emit
              [Warnw "dropping slow consumer due to event overflow" (Subscriber.ident s);
               GoEvict a] em)
      | SendOnClosed => Panic "send on closed channel"
      end in
    Ok (EventManager.setEventsBroadcast
          (Inc (Subscriber.broadcastCounter s) (EventManager.eventsBroadcast em)) em)
  else Ok em.

Definition broadcastEvent (evt : Event) (em : EventManager.t P)
  : Result (EventManager.t P) :=
  let em := EventManager.emit [Lock subsLk] em in
  let! em := forEach (broadcastOne evt) (EventManager.subs em) em in
  Ok (EventManager.emit [Unlock subsLk] em).

Definition persistAndSendEvent (ctx : Ctx) (evt : Event) (em : EventManager.t P)
  : Result (EventManager.t P) :=
  let '(p, handed, err) := Persist ctx evt (EventManager.persister em) in
  let em := EventManager.setPersister p em in
  let! em := forEach broadcastEvent handed em in
  match err with
  | Some e =>
    Ok (EventManager.emit
          [Errorf ("failed to persist outbound event: " ++ errorString e)] em)
  | None => Ok em
  end.

Definition AddEvent (ctx : Ctx) (ev : Event) (em : EventManager.t P)
  : Result (option error * EventManager.t P) :=
  let ctx := tracerStart "AddEvent" ctx in
  let! em := persistAndSendEvent ctx ev em in
  Ok (None, em).
(** The callback of the first [Playback] (cold replay). [doneClosed] is
    whether [done] is closed while the playback runs. *)
Definition coldVisit (doneClosed : bool) (e : Event) (j : Join.t Ctx)
  : Join.t Ctx * option error :=
  if doneClosed && pickDone (Join.sub j) e then (j, Some ErrPlaybackShutdown)
  else
    let j := Join.send e j in
    let seq := sequenceForEvent (Some e) in
    ((if 0 <? seq then Join.setLastSeq seq j else j), None).

(** The callback of the second [Playback] (hot replay). *)
Definition hotVisit (doneClosed : bool) (e : Event) (j : Join.t Ctx)
  : Join.t Ctx * option error :=
  let seq := sequenceForEvent (Some e) in
  if sequenceForEvent (Join.first j) <? seq then (j, Some ErrCaughtUp)
  else if doneClosed && pickDone (Join.sub j) e then (j, Some ErrPlaybackShutdown)
  else (Join.send e j, None).

(** One step of the goroutine of [Subscribe]: a whole playback, the
    registration, the receive of [first], or one turn of the final loop.
    A receive that has nothing to take leaves everything as it is. *)
Definition joinStep (j : Join.t Ctx) (em : EventManager.t P)
  : Result (Join.t Ctx * EventManager.t P) :=
  let! s := deref (Join.sub j) em in
  match Join.pc j with
  | Cold =>
    let j := Join.setLastSeq (Join.since j) j in
    let '(j, err) := Playback (Join.ctx j) (Join.since j)
                       (coldVisit (Subscriber.done s)) (EventManager.persister em) j in
    match err with
    | Some err =>
      let line := if errors_Is err ErrPlaybackShutdown
                  then Warnf ("events playback: " ++ errorString err)
                  else Errorf ("events playback: " ++ errorString err) in
      Ok (Join.goto Exited (Join.closeOut j), EventManager.emit [line] em)
    | None => Ok (Join.goto Attach j, em)
    end
  | Attach => Ok (Join.goto AwaitFirst j, addSubscriber (Join.sub j) em)
  | AwaitFirst =>
    match Chan.recv (Subscriber.outgoing s) with
    | Chan.Got e c =>
      Ok (Join.goto Hot (Join.setFirst (Some e) j),
          store (Join.sub j) (Subscriber.setOutgoing c s) em)
    | Chan.Drained => Ok (Join.goto Hot (Join.setFirst None j), em)
    | Chan.WouldBlock => Ok (j, em)
    end
  | Hot =>
    let '(j, err) := Playback (Join.ctx j) (Join.lastSeq j)
                       (hotVisit (Subscriber.done s)) (EventManager.persister em) j in
    match err with
    | Some err =>
      if negb (errors_Is err ErrCaughtUp) then
        Ok (Join.goto Exited (Join.closeOut j),
            rmSubscriber (Join.sub j)
              (EventManager.emit [Errorf ("events playback: " ++ errorString err)] em))
      else Ok (Join.goto Live j, em)
    | None => Ok (Join.goto Live j, em)
    end
  | Live =>
    match Chan.recv (Subscriber.outgoing s) with
    | Chan.Got evt c =>
      let em := store (Join.sub j) (Subscriber.setOutgoing c s) em in
      if Subscriber.done s && pickDone (Join.sub j) evt then
        Ok (Join.goto Exited j, rmSubscriber (Join.sub j) em)
      else Ok (Join.send evt j, em)
    | Chan.Drained => Ok (Join.goto Exited j, em)
    | Chan.WouldBlock => Ok (j, em)
    end
  | Exited => Ok (j, em)
  end.

(** What [Subscribe] returns, and the goroutine it started if any. *)
Record Subscribed := {
  channel : option RecvChan;
  cancel : option CancelFunc;
  err : option error;
  task : option (Join.t Ctx)
}.

(** [Subscribe]: [filter] and [since] may be nil. The new subscriber is
    allocated at the next free address. *)
Definition Subscribe (ctx : Ctx) (ident : string)
    (filter : option (Event -> bool)) (since : option Z)
    (em : EventManager.t P) : Subscribed * EventManager.t P :=
  let filter := match filter with
                | None => fun _ : Event => true
                | Some f => f
                end in
  let a := EventManager.nextAddr em in
  let sub := Subscriber.Build (Chan.make (EventManager.bufferSize em)) filter
               false false false ident ident ident in
  let em := EventManager.setNextAddr (S a) (store a sub em) in
  match since with
  | None =>
    let em := addSubscriber a em in
    (Build_Subscribed (Some (OutgoingOf a)) (Some (CleanupOf a)) None None, em)
  | Some since =>
    (Build_Subscribed (Some (MergedOut a)) (Some (CleanupOf a)) None
       (Some (Join.Build ctx a since since None [] false Cold)), em)
  end.
End Broker.

(** ** A persistence layer *)

(** Modelled from the spec: the persistence contract of the data model
    (the implementations of [EventPersistence] are outside this package).
    The log is the list of appended events in append order. [Playback]
    "invokes visit(evt) for every persisted event with seq > sinceSeq in
    sequence order; stops when visit returns a terminal sentinel or when
    the log is exhausted". *)
Fixpoint playbackLog {S : Type} (since : Z) (visit : Event -> S -> S * option error)
    (log : list Event) (s : S) : S * option error :=
  match log with
  | [] => (s, None)
  | e :: rest =>
    match assignedSeq e with
    | Some q =>
      if since <? q then
        match visit e s with
        | (s', Some err) => (s', Some err)
        | (s', None) => playbackLog since visit rest s'
        end
      else playbackLog since visit rest s
    | None => playbackLog since visit rest s
    end
  end.

(** Modelled from the spec: one persistence layer that meets the contract,
    the synchronous one. [Persist] appends the event, which arrives with
    its [Seq] assigned, and hands it to the broadcast callback in the same
    step, as a persister does that appends and broadcasts under one lock:
    the callback is invoked "exactly once per successfully appended event,
    after durability, in monotonic sequence order", and no event is in the
    log before its broadcast was made. Its appends never fail. The contract
    admits more than this: a persister whose append fails
    ([failingPersistence]) and a persister that broadcasts an appended
    event later ([batchingPersistence]). What is proved over this instance
    and needs the append and the broadcast to be one step says so. *)
#[export] Instance logPersistence {Ctx : Type} : EventPersistence Ctx (list Event) := {
  Persist _ e log := (log ++ [e], [e], None);
  Playback S _ since visit log s := playbackLog since visit log s
}.

(** ** Schedules *)

(** The sequence number the broker reads off an event. *)
Definition seqOf (e : Event) : Z := sequenceForEvent (Some e).
Arguments seqOf : simpl never.

(** One of the four repository variants is populated. *)
Definition isRepoEvent (e : Event) : bool :=
  match XRPCStreamEvent.RepoCommit e, XRPCStreamEvent.RepoHandle e,
        XRPCStreamEvent.RepoMigrate e, XRPCStreamEvent.RepoTombstone e with
  | None, None, None, None => false
  | _, _, _, _ => true
  end.

(** A log of repository events whose sequences are above [prev] and
    strictly increasing (gaps allowed). *)
Fixpoint increasing (prev : Z) (log : list Event) : bool :=
  match log with
  | [] => true
  | e :: rest => isRepoEvent e && (prev <? seqOf e) && increasing (seqOf e) rest
  end.

(** The subscriber at [b] is allocated and its queue is not closed. *)
Definition openAt {P} (em : EventManager.t P) (b : nat) : bool :=
  match EventManager.heap em !! b with
  | Some s => negb (Chan.closed (Subscriber.outgoing s))
  | None => false
  end.

(** Every registered subscriber has an open queue: no broadcast panics. *)
Definition subscribersOpen {P} (em : EventManager.t P) : bool :=
  forallb (openAt em) (EventManager.subs em).

(** Moreover the registered subscribers were allocated below the allocation
    pointer. *)
Definition wellFormed {P} (em : EventManager.t P) : bool :=
  subscribersOpen em &&
  forallb (fun b => (b <? EventManager.nextAddr em)%nat) (EventManager.subs em).

(** The subscriber record once its cleanup ran: [done] and the queue are
    closed, what was queued is still there to be read. *)
Definition cleanedSubscriber (s : Subscriber.t) : Subscriber.t :=
  Subscriber.Build
    (Chan.Build (Chan.buf (Subscriber.outgoing s)) (Chan.cap (Subscriber.outgoing s)) true)
    (Subscriber.filter s) true true true (Subscriber.ident s)
    (Subscriber.enqueuedCounter s) (Subscriber.broadcastCounter s).

(** The subscriber record after one value was received from its queue,
    [rest] being what stays queued. *)
Definition popped (s : Subscriber.t) (rest : list Event) : Subscriber.t :=
  Subscriber.setOutgoing
    (Chan.Build rest (Chan.cap (Subscriber.outgoing s))
       (Chan.closed (Subscriber.outgoing s))) s.

(** The broker fields a broadcast leaves alone. *)
Definition sameShape {P} (em em' : EventManager.t P) : Prop :=
  EventManager.subs em' = EventManager.subs em /\
  EventManager.bufferSize em' = EventManager.bufferSize em /\
  EventManager.persister em' = EventManager.persister em /\
  EventManager.nextAddr em' = EventManager.nextAddr em.

(** The subscriber record after the loop body of [broadcastEvent] ran for
    it. *)
Definition afterBroadcast (pickDone : nat -> Event -> bool) (a : nat) (evt : Event)
    (s : Subscriber.t) : Subscriber.t :=
  if Subscriber.filter s evt then
    match broadcastSelect pickDone a s evt with
    | Pushed => Subscriber.setOutgoing (Chan.push evt (Subscriber.outgoing s)) s
    | _ => s
    end
  else s.

(** What happens while the goroutine of [Subscribe] runs: a producer calls
    [AddEvent], the goroutine takes its next step, or the goroutine runs on
    until it blocks on its live queue. *)
Inductive Step : Type :=
  | Submit (e : Event)
  | Tick
  | Drain.

Definition submitted (steps : list Step) : list Event :=
  omap (fun st => match st with Submit e => Some e | _ => None end) steps.

(** How many values are queued for the subscriber at [a]. *)
Definition queueLength {P} (a : nat) (em : EventManager.t P) : nat :=
  match EventManager.heap em !! a with
  | Some s => Chan.len (Subscriber.outgoing s)
  | None => O
  end.

(** The producers never run more than a queue's capacity ahead of the
    goroutine: with at most [c] values queued now, every [AddEvent] of the
    schedule finds fewer than [cap] appended since the goroutine last ran
    until it blocked. *)
Fixpoint burstsFit (cap c : nat) (steps : list Step) : bool :=
  match steps with
  | [] => true
  | Submit _ :: rest => (c <? cap)%nat && burstsFit cap (S c) rest
  | Tick :: rest => burstsFit cap c rest
  | Drain :: rest => burstsFit cap O rest
  end.

Section Schedule.
Context {Ctx : Type}.
Variable pickDone : nat -> Event -> bool.
Variable tracerStart : string -> Ctx -> Ctx.
Variable ctx : Ctx.

(** [n] steps of the goroutine. *)
Fixpoint joinSteps (n : nat) (w : Join.t Ctx * EventManager.t (list Event))
  : Result (Join.t Ctx * EventManager.t (list Event)) :=
  match n with
  | O => Ok w
  | S k => let! w' := joinStep pickDone w.1 w.2 in joinSteps k w'
  end.

(** The goroutine runs until it blocks on its queue: two steps take it
    from its start to the receive of [first], and from there every step but
    the hot replay takes a value off the queue. *)
Definition joinDrain (w : Join.t Ctx * EventManager.t (list Event))
  : Result (Join.t Ctx * EventManager.t (list Event)) :=
  joinSteps (queueLength (Join.sub w.1) w.2 + 2) w.

Definition step (st : Step) (w : Join.t Ctx * EventManager.t (list Event))
  : Result (Join.t Ctx * EventManager.t (list Event)) :=
  match st with
  | Submit e =>
    let! r := AddEvent pickDone tracerStart ctx e w.2 in
    Ok (w.1, r.2)
  | Tick => joinStep pickDone w.1 w.2
  | Drain => joinDrain w
  end.

Definition exec (steps : list Step) (w : Join.t Ctx * EventManager.t (list Event))
  : Result (Join.t Ctx * EventManager.t (list Event)) :=
  forEach step steps w.
End Schedule.

(** The filter a subscriber ends up with: the given one, or the predicate
    that accepts everything when [Subscribe] is given nil. *)
Definition filterOrAll (filter : option (Event -> bool)) : Event -> bool :=
  match filter with
  | Some f => f
  | None => fun _ => true
  end.

(** The queue of the subscriber at [a] is empty (or [a] is not allocated). *)
Definition queueEmpty {P} (a : nat) (em : EventManager.t P) : bool :=
  match EventManager.heap em !! a with
  | Some s => match Chan.buf (Subscriber.outgoing s) with [] => true | _ => false end
  | None => true
  end.

(** ** The invariant of the join coordinator *)

Section JoinInvariant.
Context {Ctx : Type}.

(** The cursor [since], the filter and the address of the subscriber, and
    how long the log was when [Subscribe] was called. *)
Variable since : Z.
Variable f : Event -> bool.
Variable a : nat.
Variable base : nat.

(** [z] is a cursor the cold replay of the log [L1] can end on: the
    sequence of an event it forwarded, or [since] itself, and no event of
    [L1] lies above it. *)
Definition coldCursor (L1 : list Event) (z : Z) : Prop :=
  since <= z /\
  (forall e, e ∈ L1 -> seqOf e <= z) /\
  (z = since \/ exists e, e ∈ L1 /\ seqOf e = z).

(** The subscriber is registered, once, at the end of the list. *)
Definition attached (subs : list nat) : Prop :=
  exists others, subs = others ++ [a] /\ a ∉ others.

(** What holds at each point of the goroutine, for the list [subs] of the
    broker, the log [L] and the subscriber's [queue]. [L1] is the log the
    cold replay saw. *)
Definition phaseInv (j : Join.t Ctx) (subs : list nat) (L queue : list Event)
  : Prop :=
  match Join.pc j with
  | Cold => Join.out j = [] /\ (a ∉ subs) /\ queue = []
  | Attach =>
    (a ∉ subs) /\ queue = [] /\
    exists L1 L2, L = L1 ++ L2 /\ (base <= length L1)%nat /\
      Join.out j = filter (λ e, since < seqOf e) L1 /\
      coldCursor L1 (Join.lastSeq j)
  | AwaitFirst =>
    attached subs /\
    exists L1 L2 L3, L = L1 ++ L2 ++ L3 /\ (base <= length L1)%nat /\
      Join.out j = filter (λ e, since < seqOf e) L1 /\
      coldCursor L1 (Join.lastSeq j) /\
      queue = filter (λ e, f e = true) L3
  | Hot =>
    attached subs /\
    exists L1 M e post, L = L1 ++ M ++ e :: post /\ (base <= length L1)%nat /\
      Join.first j = Some e /\
      Join.out j = filter (λ e, since < seqOf e) L1 /\
      coldCursor L1 (Join.lastSeq j) /\
      queue = filter (λ e, f e = true) post
  | Live =>
    attached subs /\
    exists Lp e Ls, L = Lp ++ e :: Ls /\ (base <= length Lp)%nat /\
      Join.first j = Some e /\
      Join.out j ++ queue =
        filter (λ e, since < seqOf e) (Lp ++ [e]) ++ filter (λ e, f e = true) Ls
  | Exited => False
  end.

(** How many steps of the goroutine it takes at most until the queue is
    empty. *)
Definition stepsToBlock (j : Join.t Ctx) (queue : list Event) : nat :=
  match Join.pc j with
  | AwaitFirst => match queue with [] => O | _ => S (length queue) end
  | Hot => S (length queue)
  | Live => length queue
  | _ => O
  end.

Definition toBlock (j : Join.t Ctx) (em : EventManager.t (list Event)) : nat :=
  match EventManager.heap em !! a with
  | Some s => stepsToBlock j (Chan.buf (Subscriber.outgoing s))
  | None => O
  end.

(** The invariant of a run in which nobody cancels: the subscriber's
    record is as [Subscribe] made it except for its queue, the queue holds
    at most [c] values, the log has not shrunk, and the phase invariant
    holds. *)
Definition JoinInv (cap c : nat) (j : Join.t Ctx) (em : EventManager.t (list Event))
  : Prop :=
  Join.sub j = a /\ Join.since j = since /\
  subscribersOpen em = true /\
  exists s, EventManager.heap em !! a = Some s /\
    Subscriber.filter s = f /\ Subscriber.done s = false /\
    Chan.closed (Subscriber.outgoing s) = false /\
    Chan.cap (Subscriber.outgoing s) = cap /\
    (base <= length (EventManager.persister em))%nat /\
    (length (Chan.buf (Subscriber.outgoing s)) <= c)%nat /\
    phaseInv j (EventManager.subs em) (EventManager.persister em)
      (Chan.buf (Subscriber.outgoing s)).
End JoinInvariant.

(** ** Concrete states used below *)

(** The runtime never picks the [done] case over a ready send. *)
Definition neverDone (a : nat) (e : Event) : bool := false.

(** A tracer that hands the context back. *)
Definition sameCtx (name : string) (c : unit) : unit := c.

(** A subscriber that accepts everything, with [queued] in a queue of
    capacity [n]. *)
Definition plainSubscriber (ident : string) (n : nat) (queued : list Event)
  : Subscriber.t :=
  Subscriber.Build (Chan.Build queued n false) (fun _ => true)
    false false false ident ident ident.

(** A broker whose only subscriber, at address 0, has a full queue of
    capacity one. *)
Definition fullBroker : EventManager.t (list Event) :=
  EventManager.Build [0%nat] 1 [commitEvent 1]
    {[ 0%nat := plainSubscriber "slow" 1 [commitEvent 1] ]} 1 ∅ ∅ [].

(** A broker over a log that holds commits 1 and 2, without subscribers,
    as [NewEventManager] makes it but with queues of 8. *)
Definition seededBroker : EventManager.t (list Event) :=
  EventManager.Build [] 8 [commitEvent 1; commitEvent 2] ∅ 0%nat ∅ ∅ [].

(** What a run from [Subscribe] on [seededBroker] with cursor [since] sent
    on the merged channel, as sequence numbers, whether it stands in its
    final loop with an empty queue, and the sequences of the log above the
    cursor. *)
Definition runSummary (flt : option (Event -> bool)) (since : Z) (steps : list Step)
  : option (list Z * bool * list Z) :=
  let r := Subscribe tt "c1" flt (Some since) seededBroker in
  match task r.1 with
  | Some j0 =>
    match exec neverDone sameCtx tt steps (j0, r.2) with
    | Ok (j, em) =>
      Some (seqOf <$> Join.out j,
            match Join.pc j with Live => queueEmpty 0 em | _ => false end,
            seqOf <$> filter (λ e, since < seqOf e) (EventManager.persister em))
    | Panic _ => None
    end
  | None => None
  end.

(** A filter that lets only commits through. *)
Definition onlyCommits (e : Event) : bool :=
  match XRPCStreamEvent.RepoCommit e with
  | Some _ => true
  | None => false
  end.

(** A handoff with traffic: commit 3 is appended between the cold replay
    and the registration, commit 4 and handle 5 after the registration; once
    the goroutine is in its final loop a burst of eight commits fills the
    queue, is drained, and two more events follow. *)
Definition handoff : list Step :=
  [Tick; Submit (commitEvent 3); Tick; Submit (commitEvent 4);
   Submit (handleEvent 5); Tick; Tick; Drain]
  ++ map (fun z => Submit (commitEvent z)) [6; 7; 8; 9; 10; 11; 12; 13]
  ++ [Drain; Submit (commitEvent 14); Submit (handleEvent 15); Drain].

(** The same handoff up to the receive of [first], which is commit 4. *)
Definition handoffToFirst : list Step :=
  [Tick; Submit (commitEvent 3); Tick; Submit (commitEvent 4);
   Submit (handleEvent 5); Tick].


(** Live traffic for a subscriber whose cursor is ahead of the log. *)
Definition aheadTraffic : list Step :=
  [Tick; Tick; Submit (commitEvent 3); Tick; Tick; Submit (commitEvent 4); Tick].

(** A handoff in which the first live event is an info frame: commit 3 is
    appended between the cold replay and the registration, then the info
    frame and commit 4 are broadcast. *)
Definition infoFirst : list Step :=
  [Tick; Submit (commitEvent 3); Tick; Submit (infoEvent "OutdatedCursor");
   Submit (commitEvent 4); Tick; Tick; Tick].

(** The goroutine about to start its hot replay from cursor 2 with an info
    frame as [first]. *)
Definition hotAfterInfo : Join.t unit :=
  Join.Build tt 0 0 2 (Some (infoEvent "OutdatedCursor"))
    [commitEvent 1; commitEvent 2] false Hot.

(** The goroutine about to start its hot replay from cursor 2 with commit 4
    as [first]: where [handoffToFirst] leaves it. *)
Definition hotAfterCommit : Join.t unit :=
  Join.Build tt 0 0 2 (Some (commitEvent 4)) [commitEvent 1; commitEvent 2] false Hot.

(** A run from [Subscribe] on [seededBroker] with cursor [since] and no
    filter, in two parts: [first], the program point and what was sent
    after the steps [before], and what was sent after the steps [after]
    that follow. *)
Definition seamRun (since : Z) (before after : list Step)
  : option (option Event * JoinPC * list Event * list Event) :=
  let r := Subscribe tt "c1" None (Some since) seededBroker in
  match task r.1 with
  | Some j0 =>
    match exec neverDone sameCtx tt before (j0, r.2) with
    | Ok (j1, em1) =>
      match exec neverDone sameCtx tt after (j1, em1) with
      | Ok (j2, _) => Some (Join.first j1, Join.pc j1, Join.out j1, Join.out j2)
      | Panic _ => None
      end
    | Panic _ => None
    end
  | None => None
  end.

(** A join with cursor 0 on a stream of label batches: the log holds
    batches 1 and 2, batch 3 arrives once the subscriber is registered. The
    result is the assigned sequences of what was sent on the merged
    channel. *)
Definition labelRun : option (list (option Z)) :=
  let em0 : EventManager.t (list Event) :=
    EventManager.Build [] 8 [labelsEvent 1; labelsEvent 2] ∅ 0%nat ∅ ∅ [] in
  let r := Subscribe tt "labels" None (Some 0) em0 in
  match task r.1 with
  | Some j0 =>
    match exec neverDone sameCtx tt [Tick; Tick; Submit (labelsEvent 3); Tick; Tick]
            (j0, r.2) with
    | Ok (j, _) => Some (assignedSeq <$> Join.out j)
    | Panic _ => None
    end
  | None => None
  end.

(** A persistence layer whose [Persist] always fails and hands nothing to
    the broadcaster. *)
Definition failingPersistence : EventPersistence unit unit := {|
  Persist := fun _ _ p => (p, [], Some (ErrOther "disk full"));
  Playback := fun S _ _ _ _ s => (s, None)
|}.

(** A broker over it with one idle subscriber. *)
Definition idleBroker : EventManager.t unit :=
  EventManager.Build [0%nat] 4 tt {[ 0%nat := plainSubscriber "idle" 4 [] ]} 1 ∅ ∅ [].

(** ** Invariants of the broker *)

(** No queue holds more than its capacity. *)
Definition queuesBounded {P} (em : EventManager.t P) : Prop :=
  map_Forall (fun (_ : nat) s =>
                (Chan.len (Subscriber.outgoing s) <= Chan.cap (Subscriber.outgoing s))%nat)
    (EventManager.heap em).

(** Every subscriber has its two counters under the same label, as
    [Subscribe] makes them. *)
Definition labelsAgree {P} (em : EventManager.t P) : Prop :=
  map_Forall (fun (_ : nat) s =>
                Subscriber.enqueuedCounter s = Subscriber.broadcastCounter s)
    (EventManager.heap em).

(** A broker with two subscribers: the one at address 0 has a full queue of
    capacity one, the one at address 1 an empty queue of capacity four. *)
Definition mixedBroker : EventManager.t (list Event) :=
  EventManager.Build [0%nat; 1%nat] 4 [commitEvent 1]
    (<[ 1%nat := plainSubscriber "fast" 4 [] ]>
       {[ 0%nat := plainSubscriber "slow" 1 [commitEvent 1] ]}) 2 ∅ ∅ [].

(** [mixedBroker] after the broadcast of commit 2. *)
Definition mixedAfter : EventManager.t (list Event) :=
  match broadcastEvent neverDone (commitEvent 2) mixedBroker with
  | Ok em' => em'
  | Panic _ => mixedBroker
  end.

(** ** The goroutine in a changing broker *)

Section Interference.
Context {Ctx P : Type} `{!EventPersistence Ctx P}.
Variable pickDone : nat -> Event -> bool.

(** The goroutine of [Subscribe] takes one step in each of the broker
    states [ems], in order: between two of its steps the rest of the
    program may have changed the broker in any way. What the goroutine
    itself does to the broker is dropped with it. *)
Fixpoint joinAgainst (ems : list (EventManager.t P)) (j : Join.t Ctx)
  : Result (Join.t Ctx) :=
  match ems with
  | [] => Ok j
  | em :: rest => let! w := joinStep pickDone j em in joinAgainst rest w.1
  end.
End Interference.

(** No event of the log lies above the cursor: a playback from [since]
    visits nothing. *)
Definition nothingAbove (since : Z) (log : list Event) : bool :=
  forallb (fun e => match assignedSeq e with
                    | Some q => q <=? since
                    | None => true
                    end) log.

(** The runtime picks the [done] case whenever it is ready. *)
Definition alwaysDone (a : nat) (e : Event) : bool := true.

(** The value a computation returned, [d] if it panicked. *)
Definition resultOr {A : Type} (d : A) (r : Result A) : A :=
  match r with
  | Ok a => a
  | Panic _ => d
  end.

(** A goroutine in its final loop for the subscriber at address 1, with
    commit 1 sent so far. *)
Definition liveJoin : Join.t unit :=
  Join.Build tt 1 0 1 (Some (commitEvent 1)) [commitEvent 1] false Live.

(** [mixedBroker] with commits 2 and 3 queued for the subscriber at 1, and
    the same after that subscriber's cleanup. *)
Definition mixedQueued : EventManager.t (list Event) :=
  EventManager.Build [0%nat; 1%nat] 4 [commitEvent 1]
    (<[ 1%nat := plainSubscriber "fast" 4 [commitEvent 2; commitEvent 3] ]>
       {[ 0%nat := plainSubscriber "slow" 1 [commitEvent 1] ]}) 2 ∅ ∅ [].

Definition mixedCancelled : EventManager.t (list Event) :=
  resultOr mixedQueued (cleanup 1 mixedQueued).

(** A goroutine about to start its cold replay from cursor 0 for the
    subscriber at address 0 of [cancelledBroker], whose [done] is closed. *)
Definition coldJoin : Join.t unit :=
  Join.Build tt 0 0 0 None [] false Cold.

Definition cancelledBroker : EventManager.t (list Event) :=
  EventManager.Build [] 4 [commitEvent 1; commitEvent 2]
    {[ 0%nat := cleanedSubscriber (plainSubscriber "gone" 4 []) ]} 1 ∅ ∅ [].

(** A goroutine about to start its hot replay from cursor 0 with commit 2
    as [first], for the subscriber at address 0 of [cancelledHot], which was
    cancelled after its registration was due. *)
Definition hotJoin : Join.t unit :=
  Join.Build tt 0 0 0 (Some (commitEvent 2)) [] false Hot.

Definition cancelledHot : EventManager.t (list Event) :=
  EventManager.Build [0%nat] 4 [commitEvent 1; commitEvent 2]
    {[ 0%nat := cleanedSubscriber (plainSubscriber "gone" 4 []) ]} 1 ∅ ∅ [].

(** ** Package identity: direct DID resolution *)

Module identity.

(** [syntax.DID] is a string type; [did.String()] is the string itself. *)
Definition DID : Type := string.

Module DocVerificationMethod.
Record t := Build {
  ID : string;
  Type_ : string;
  Controller : string;
  PublicKeyMultibase : string
}.
End DocVerificationMethod.

Module DocService.
Record t := Build {
  ID : string;
  Type_ : string;
  ServiceEndpoint : string
}.
End DocService.

Module DIDDocument.
Record t := Build {
  DID_ : DID;
  AlsoKnownAs : list string;
  VerificationMethod : list DocVerificationMethod.t;
  Service : list DocService.t
}.
End DIDDocument.

(** The two sentinel errors of the package. *)
Inductive Sentinel : Type :=
  | ErrDIDNotFound
  | ErrDIDResolutionFailed.

Definition sentinel_eqb (a b : Sentinel) : bool :=
  match a, b with
  | ErrDIDNotFound, ErrDIDNotFound => true
  | ErrDIDResolutionFailed, ErrDIDResolutionFailed => true
  | _, _ => false
  end.

(** An argument of [fmt.Errorf]: under [%s], under [%d], or an error under
    [%w], which the new error wraps. *)
Inductive FmtArg (E : Type) : Type :=
  | ArgS (s : string)
  | ArgD (n : Z)
  | ArgW (e : E).
Arguments ArgS {E} s.
Arguments ArgD {E} n.
Arguments ArgW {E} e.

(** [*net.DNSError], as far as the resolver looks at it. *)
Record DNSError := { IsNotFound : bool }.

(** [http.StatusOK], [http.StatusNotFound]. *)
Definition StatusOK : Z := 200.
Definition StatusNotFound : Z := 404.

Section Errors.
(** The errors that come from outside the package: the HTTP client, the
    JSON decoder, the limiters. *)
Context {ExtErr : Type}.

(** An error value: a sentinel, an error from outside, or the result of
    [fmt.Errorf] with its format and arguments. *)
#[warnings="-register-all"] Inductive GoErr : Type :=
  | Sentinel_ (s : Sentinel)
  | External (e : ExtErr)
  | Errorf (format : string) (args : list (FmtArg GoErr)).

(** Whether an error from outside has the sentinel in its chain. *)
Variable extIs : ExtErr -> Sentinel -> bool.

(** [errors.Is(err, target)] for a sentinel target: the error is the
    target, or one of the errors it wraps is, depth first. *)
Fixpoint Is (err : GoErr) (target : Sentinel) : bool :=
  match err with
  | Sentinel_ s => sentinel_eqb s target
  | External e => extIs e target
  | Errorf _ args =>
    existsb (fun a => match a with
                      | ArgW e => Is e target
                      | _ => false
                      end) args
  end.
End Errors.
Arguments GoErr ExtErr : clear implicits.

(** What a resolution does besides returning: calls of the limiters, the
    HTTP request, the debug line of [ResolveDID]. *)
Inductive Effect (ExtErr : Type) : Type :=
  | CallLimitFunc (hostname : string)
  | LimiterWait
  | HttpGet (url : string)
  | SlogDebug (msg : string) (did : DID) (err : option (GoErr ExtErr)) (duration_ms : Z).
Arguments CallLimitFunc {ExtErr} hostname.
Arguments LimiterWait {ExtErr}.
Arguments HttpGet {ExtErr} url.
Arguments SlogDebug {ExtErr} msg did err duration_ms.

(** What [http.Get] returns: an error, or a response with its status code
    and body. *)
Inductive HttpResult (Body ExtErr : Type) : Type :=
  | GetErr (e : ExtErr)
  | GetResp (StatusCode : Z) (body : Body).
Arguments GetErr {Body ExtErr} e.
Arguments GetResp {Body ExtErr} StatusCode body.

(** The fields of [BaseDirectory] the resolver reads; the two limiters may
    be nil. *)
Record BaseDirectory (Ctx Limiter ExtErr : Type) := {
  PLCURL : string;
  PLCLimiter : option Limiter;
  DIDWebLimitFunc : option (Ctx -> string -> option ExtErr)
}.
Arguments PLCURL {Ctx Limiter ExtErr}.
Arguments PLCLimiter {Ctx Limiter ExtErr}.
Arguments DIDWebLimitFunc {Ctx Limiter ExtErr}.

(** The pair a resolution returns, a document pointer and an error, and
    its effects in order. *)
Record Outcome (ExtErr : Type) := {
  doc : option DIDDocument.t;
  err : option (GoErr ExtErr);
  effects : list (Effect ExtErr)
}.
Arguments Build_Outcome {ExtErr}.
Arguments doc {ExtErr}.
Arguments err {ExtErr}.
Arguments effects {ExtErr}.

Section Resolver.
Context {Ctx Limiter Handle Body ExtErr : Type}.

(** The methods of [syntax.DID] and [syntax.Handle], [syntax.ParseHandle]
    and the constant [DefaultPLCURL] are defined outside this file. *)
Variable Method : DID -> string.
Variable Identifier : DID -> string.
Variable ParseHandle : string -> option Handle.
Variable AllowedTLD : Handle -> bool.
Variable DefaultPLCURL : string.

(** The network and the libraries: the answer of [http.Get] for a URL,
    [errors.As] into a [*net.DNSError], the JSON decoder on a body,
    [Wait] of the rate limiter, the milliseconds [time.Since] measures. *)
Variable httpGet : string -> HttpResult Body ExtErr.
Variable asDNSError : ExtErr -> option DNSError.
Variable decode : Body -> DIDDocument.t + ExtErr.
Variable Wait : Limiter -> Ctx -> option ExtErr.
Variable elapsedMs : Z.

(** [return nil, e] after the effects [fx]. *)
Definition fail (fx : list (Effect ExtErr)) (e : GoErr ExtErr) : Outcome ExtErr :=
  Build_Outcome None (Some e) fx.

(** [ResolveDIDWeb]: the guards on the DID, the limit function if there is
    one, then one request for the well-known document. *)
Definition ResolveDIDWeb (d : BaseDirectory Ctx Limiter ExtErr) (ctx : Ctx) (did : DID)
  : Outcome ExtErr :=
  if negb (String.eqb (Method did) "web") then
    fail [] (Errorf "expected a did:web, got: %s" [ArgS did])
  else
    let hostname := Identifier did in
    match ParseHandle hostname with
    | None => fail [] (Errorf "did:web identifier not a simple hostname: %s" [ArgS hostname])
    | Some handle =>
      if negb (AllowedTLD handle) then
        fail [] (Errorf "did:web hostname has disallowed TLD: %s" [ArgS hostname])
      else
        let '(limited, fx) :=
          match DIDWebLimitFunc d with
          | Some f => (f ctx hostname, [CallLimitFunc hostname])
          | None => (None, [])
          end in
        match limited with
        | Some e =>
          fail fx (Errorf "did:web limit func returned an error for (%s): %w"
                     [ArgS hostname; ArgW (External e)])
        | None =>
          let url := "https://" +:+ hostname +:+ "/.well-known/did.json" in
          let fx := fx ++ [HttpGet url] in
          match httpGet url with
          | GetErr e =>
            match asDNSError e with
            | Some dnsErr =>
              if IsNotFound dnsErr then
                fail fx (Errorf "%w: DNS NXDOMAIN" [ArgW (Sentinel_ ErrDIDNotFound)])
              else
                fail fx (Errorf "%w: did:web HTTP well-known fetch: %w"
                           [ArgW (Sentinel_ ErrDIDResolutionFailed); ArgW (External e)])
            | None =>
              fail fx (Errorf "%w: did:web HTTP well-known fetch: %w"
                         [ArgW (Sentinel_ ErrDIDResolutionFailed); ArgW (External e)])
            end
          | GetResp StatusCode body =>
            if StatusCode =? StatusNotFound then
              fail fx (Errorf "%w: did:web HTTP status 404" [ArgW (Sentinel_ ErrDIDNotFound)])
            else if negb (StatusCode =? StatusOK) then
              fail fx (Errorf "%w: did:web HTTP status %d"
                         [ArgW (Sentinel_ ErrDIDResolutionFailed); ArgD StatusCode])
            else
              match decode body with
              | inr e =>
                fail fx (Errorf "%w: JSON DID document parse: %w"
                           [ArgW (Sentinel_ ErrDIDResolutionFailed); ArgW (External e)])
              | inl doc => Build_Outcome (Some doc) None fx
              end
          end
        end
    end.

(** [ResolveDIDPLC]: the guard on the method, the limiter if there is one,
    then one request to the PLC directory. *)
Definition ResolveDIDPLC (d : BaseDirectory Ctx Limiter ExtErr) (ctx : Ctx) (did : DID)
  : Outcome ExtErr :=
  if negb (String.eqb (Method did) "plc") then
    fail [] (Errorf "expected a did:plc, got: %s" [ArgS did])
  else
    let plcURL := PLCURL d in
    let plcURL := if String.eqb plcURL "" then DefaultPLCURL else plcURL in
    let '(limited, fx) :=
      match PLCLimiter d with
      | Some l => (Wait l ctx, [LimiterWait])
      | None => (None, [])
      end in
    match limited with
    | Some e =>
      fail fx (Errorf "failed to wait for PLC limiter: %w" [ArgW (External e)])
    | None =>
      let url := plcURL +:+ "/" +:+ did in
      let fx := fx ++ [HttpGet url] in
      match httpGet url with
      | GetErr e =>
        fail fx (Errorf "%w: PLC directory lookup: %w"
                   [ArgW (Sentinel_ ErrDIDResolutionFailed); ArgW (External e)])
      | GetResp StatusCode body =>
        if StatusCode =? StatusNotFound then
          fail fx (Errorf "%w: PLC directory 404" [ArgW (Sentinel_ ErrDIDNotFound)])
        else if negb (StatusCode =? StatusOK) then
          fail fx (Errorf "%w: PLC directory status %d"
                     [ArgW (Sentinel_ ErrDIDResolutionFailed); ArgD StatusCode])
        else
          match decode body with
          | inr e =>
            fail fx (Errorf "%w: JSON DID document parse: %w"
                       [ArgW (Sentinel_ ErrDIDResolutionFailed); ArgW (External e)])
          | inl doc => Build_Outcome (Some doc) None fx
          end
      end
    end.

(** [ResolveDID]: the [switch] on the method; the two resolvers' results
    are logged and handed on. *)
Definition ResolveDID (d : BaseDirectory Ctx Limiter ExtErr) (ctx : Ctx) (did : DID)
  : Outcome ExtErr :=
  if String.eqb (Method did) "web" then
    let o := ResolveDIDWeb d ctx did in
    Build_Outcome (doc o) (err o)
      (effects o ++ [SlogDebug "resolve DID" did (err o) elapsedMs])
  else if String.eqb (Method did) "plc" then
    let o := ResolveDIDPLC d ctx did in
    Build_Outcome (doc o) (err o)
      (effects o ++ [SlogDebug "resolve DID" did (err o) elapsedMs])
  else
    fail [] (Errorf "DID method not supported: %s" [ArgS (Method did)]).
(** The guards of [ResolveDIDWeb] pass and its limit function, if any,
    lets the request through. *)
Definition webAllowed (d : BaseDirectory Ctx Limiter ExtErr) (ctx : Ctx) (did : DID)
  : Prop :=
  Method did = "web" /\
  (exists h, ParseHandle (Identifier did) = Some h /\ AllowedTLD h = true) /\
  (forall f, DIDWebLimitFunc d = Some f -> f ctx (Identifier did) = None).

(** The guard of [ResolveDIDPLC] passes and its limiter, if any, lets the
    request through. *)
Definition plcAllowed (d : BaseDirectory Ctx Limiter ExtErr) (ctx : Ctx) (did : DID)
  : Prop :=
  Method did = "plc" /\
  (forall l, PLCLimiter d = Some l -> Wait l ctx = None).

(** The URL [ResolveDIDWeb] requests and the URL [ResolveDIDPLC] requests. *)
Definition webURL (did : DID) : string :=
  "https://" +:+ Identifier did +:+ "/.well-known/did.json".

Definition plcURL (d : BaseDirectory Ctx Limiter ExtErr) (did : DID) : string :=
  (if String.eqb (PLCURL d) "" then DefaultPLCURL else PLCURL d) +:+ "/" +:+ did.
End Resolver.

(** The URLs requested over HTTP among the effects. *)
Definition requested {ExtErr : Type} (fx : list (Effect ExtErr)) : list string :=
  omap (fun x => match x with HttpGet url => Some url | _ => None end) fx.
End identity.

(** An environment for examples: DIDs of the form [did:web:host] and
    [did:plc:id], every hostname a handle with an allowed TLD, and a network
    in which only [https://example.com/.well-known/did.json] exists. *)
Definition exampleMethod (did : string) : string :=
  if String.prefix "did:web:" did then "web"
  else if String.prefix "did:plc:" did then "plc"
  else "".

Definition exampleIdentifier (did : string) : string :=
  String.substring 8 (String.length did - 8) did.

Definition exampleDoc : identity.DIDDocument.t :=
  identity.DIDDocument.Build "did:web:example.com" [] [] [].

Definition exampleGet (url : string) : identity.HttpResult string string :=
  if String.eqb url "https://example.com/.well-known/did.json"
  then identity.GetResp 200 "doc"
  else if String.eqb url "https://gone.example/.well-known/did.json"
  then identity.GetErr "no such host"
  else identity.GetResp 404 "".

Definition exampleDNS (e : string) : option identity.DNSError :=
  if String.eqb e "no such host" then Some (identity.Build_DNSError true) else None.

Definition exampleDecode (body : string) : identity.DIDDocument.t + string :=
  if String.eqb body "doc" then inl exampleDoc else inr "unexpected end of JSON input".

Definition exampleDirectory : identity.BaseDirectory unit unit string :=
  identity.Build_BaseDirectory unit unit string "" None None.

(** [ResolveDID] in that environment. *)
Definition exampleResolve (did : string) : identity.Outcome string :=
  identity.ResolveDID exampleMethod exampleIdentifier (fun h => Some h) (fun _ => true)
    "https://plc.directory" exampleGet exampleDNS exampleDecode (fun _ _ => None) 3
    exampleDirectory tt did.

(** ** A persistence layer that broadcasts later *)

(** What such a persister holds: [log] is what is durable, which is what
    [Playback] reads; [pending] are the appended events whose broadcast is
    still to come. *)
Module Batched.
Record t := Build { log : list Event; pending : list Event }.
End Batched.

(** Modelled from the spec: a persistence layer that meets the contract
    with the broadcast decoupled from the append (the implementations of
    [EventPersistence] are outside this package). [Persist] makes the event
    durable at once and, as soon as [batch] events are pending, hands all
    of them to the broadcast callback in append order: the callback is
    invoked once per appended event, "after durability, in monotonic
    sequence order". *)
Definition batchingPersistence {Ctx : Type} (batch : nat)
  : EventPersistence Ctx Batched.t := {|
  Persist := fun _ e p =>
    let log := Batched.log p ++ [e] in
    let pending := Batched.pending p ++ [e] in
    if (batch <=? length pending)%nat
    then (Batched.Build log [], pending, None)
    else (Batched.Build log pending, [], None);
  Playback := fun S _ since visit p s => playbackLog since visit (Batched.log p) s
|}.

(** A broker over it, as [NewEventManager] makes it but with queues of 8. *)
Definition batchedBroker : EventManager.t Batched.t :=
  EventManager.Build [] 8 (Batched.Build [] []) ∅ 0%nat ∅ ∅ [].

(** A join with cursor 0 over a persister that broadcasts in batches of
    three. Commits 1 and 2 are appended, their broadcast pending;
    [Subscribe] is called and the goroutine makes its cold replay and
    registers the subscriber; commit 3 is appended, on which the persister
    broadcasts 1, 2 and 3; the goroutine then takes [n] steps. *)
Definition batchedRun (n : nat) : Result (Join.t unit * EventManager.t Batched.t) :=
  let add e em :=
    let! r := @AddEvent unit Batched.t (batchingPersistence 3) neverDone sameCtx tt e em in
    Ok r.2 in
  let tick w := @joinStep unit Batched.t (batchingPersistence 3) neverDone w.1 w.2 in
  let! em := add (commitEvent 1) batchedBroker in
  let! em := add (commitEvent 2) em in
  let r := Subscribe tt "c1" None (Some 0) em in
  match task r.1 with
  | None => Panic "no goroutine"
  | Some j0 =>
    let! w := tick (j0, r.2) in
    let! w := tick w in
    let! em := add (commitEvent 3) w.2 in
    Nat.iter n (fun r => let! w := r in tick w) (Ok (w.1, em))
  end.

(** ** The phases of the goroutine *)


(** The events of the log with a sequence above [lo] and not above [hi],
    in log order. *)
Definition replayedUpTo (lo hi : Z) (log : list Event) : list Event :=
  filter (λ e, lo < seqOf e <= hi) log.

(** The broker when [hotAfterCommit] starts its hot replay: commits 1 to 4
    and handle 5 are in the log, commit 4 was taken off the queue as
    [first], handle 5 is queued. *)
Definition hotBroker : EventManager.t (list Event) :=
  EventManager.Build [0%nat] 8
    [commitEvent 1; commitEvent 2; commitEvent 3; commitEvent 4; handleEvent 5]
    {[ 0%nat := plainSubscriber "c1" 8 [handleEvent 5] ]} 1 ∅ ∅ [].

(** The goroutine about to start its hot replay from cursor 4, which is
    ahead of the log, with commit 3 as [first]. *)
Definition hotAhead : Join.t unit :=
  Join.Build tt 0 4 4 (Some (commitEvent 3)) [] false Hot.

(** ** Proof tactics *)

(** Close a conjunction whose parts are hypotheses or hold by computation. *)
Ltac close_conj := repeat first [assumption | reflexivity | split].

(** Unfold the setters of the goroutine's record and compute. *)
Ltac join_simpl :=
  unfold Join.setLastSeq, Join.setFirst, Join.send, Join.sendAll, Join.closeOut,
    Join.goto; cbn.

(** ** The sequence accessor *)

Lemma sequenceForEvent_nil : sequenceForEvent None = -1.
Proof. reflexivity. Qed.

Lemma sequenceForEvent_commit (e : Event) (c : SyncSubscribeRepos_Commit.t) :
  XRPCStreamEvent.RepoCommit e = Some c ->
  sequenceForEvent (Some e) = SyncSubscribeRepos_Commit.Seq c.
Proof. intros H. unfold sequenceForEvent. now rewrite H. Qed.

Lemma sequenceForEvent_handle (e : Event) (h : SyncSubscribeRepos_Handle.t) :
  XRPCStreamEvent.RepoCommit e = None ->
  XRPCStreamEvent.RepoHandle e = Some h ->
  sequenceForEvent (Some e) = SyncSubscribeRepos_Handle.Seq h.
Proof. intros H1 H2. unfold sequenceForEvent. now rewrite H1, H2. Qed.

Lemma sequenceForEvent_migrate (e : Event) (m : SyncSubscribeRepos_Migrate.t) :
  XRPCStreamEvent.RepoCommit e = None ->
  XRPCStreamEvent.RepoHandle e = None ->
  XRPCStreamEvent.RepoMigrate e = Some m ->
  sequenceForEvent (Some e) = SyncSubscribeRepos_Migrate.Seq m.
Proof. intros H1 H2 H3. unfold sequenceForEvent. now rewrite H1, H2, H3. Qed.

Lemma sequenceForEvent_tombstone (e : Event) (t : SyncSubscribeRepos_Tombstone.t) :
  XRPCStreamEvent.RepoCommit e = None ->
  XRPCStreamEvent.RepoHandle e = None ->
  XRPCStreamEvent.RepoMigrate e = None ->
  XRPCStreamEvent.RepoTombstone e = Some t ->
  sequenceForEvent (Some e) = SyncSubscribeRepos_Tombstone.Seq t.
Proof. intros H1 H2 H3 H4. unfold sequenceForEvent. now rewrite H1, H2, H3, H4. Qed.

(** Without a repository variant the accessor answers -1, whatever else
    the event holds. *)
Lemma sequenceForEvent_other (e : Event) :
  isRepoEvent e = false -> sequenceForEvent (Some e) = -1.
Proof.
  unfold isRepoEvent, sequenceForEvent.
  destruct (XRPCStreamEvent.RepoCommit e), (XRPCStreamEvent.RepoHandle e),
    (XRPCStreamEvent.RepoMigrate e), (XRPCStreamEvent.RepoTombstone e);
    try discriminate.
  intros _. now destruct (XRPCStreamEvent.RepoInfo e), (XRPCStreamEvent.Error e).
Qed.

(** On a repository event the accessor reads the sequence the persistence
    layer assigned. *)
Lemma assignedSeq_repo (e : Event) :
  isRepoEvent e = true -> assignedSeq e = Some (seqOf e).
Proof.
  unfold isRepoEvent, assignedSeq, seqOf, sequenceForEvent.
  destruct (XRPCStreamEvent.RepoCommit e), (XRPCStreamEvent.RepoHandle e),
    (XRPCStreamEvent.RepoMigrate e), (XRPCStreamEvent.RepoTombstone e);
    try discriminate; reflexivity.
Qed.

(** C8, at the input where the code departs from the claim: a label batch
    that was assigned sequence 5 reads as -1, because the [switch] of
    [sequenceForEvent] has no case for [LabelLabels] and falls to its
    default. The four repository variants do read their [Seq], and the info
    and error frames and the nil event read -1. *)
Theorem sequenceForEvent_label_batch :
  assignedSeq (labelsEvent 5) = Some 5 /\
  sequenceForEvent (Some (labelsEvent 5)) = -1 /\
  sequenceForEvent (Some (commitEvent 5)) = 5 /\
  sequenceForEvent (Some (handleEvent 5)) = 5 /\
  sequenceForEvent (Some (migrateEvent 5)) = 5 /\
  sequenceForEvent (Some (tombstoneEvent 5)) = 5 /\
  sequenceForEvent (Some (infoEvent "OutdatedCursor")) = -1 /\
  sequenceForEvent (Some (errorEvent "ConsumerTooSlow" "")) = -1 /\
  sequenceForEvent None = -1.
Proof. repeat split. Qed.

(** ** Subscribe *)

Section SubscribeFacts.
Context {Ctx P : Type} `{!EventPersistence Ctx P}.

(** C10: [Subscribe] returns a channel and a cancel function that are not
    nil and a nil error, for every context, identity, filter and cursor;
    the subscriber it allocates carries the given filter, or the predicate
    that accepts every event when the filter is nil. *)
Theorem Subscribe_never_fails (ctx : Ctx) (ident : string)
    (filter : option (Event -> bool)) (since : option Z) (em : EventManager.t P) :
  let r := Subscribe ctx ident filter since em in
  is_Some (channel r.1) /\ is_Some (cancel r.1) /\ err r.1 = None /\
  exists s, EventManager.heap r.2 !! EventManager.nextAddr em = Some s /\
            cancel r.1 = Some (CleanupOf (EventManager.nextAddr em)) /\
            Subscriber.ident s = ident /\
            Subscriber.filter s = match filter with
                                  | Some f => f
                                  | None => fun _ => true
                                  end.
Proof.
  unfold Subscribe. destruct since as [z|]; cbn.
  - repeat split; eauto. eexists. rewrite lookup_insert_eq. eauto.
  - repeat split; eauto. eexists. rewrite lookup_insert_eq. eauto.
Qed.
End SubscribeFacts.

(** ** Broadcast *)

Lemma forEach_app {A S : Type} (body : A -> S -> Result S) (xs ys : list A) (s : S) :
  forEach body (xs ++ ys) s = (let! s' := forEach body xs s in forEach body ys s').
Proof.
  revert s. induction xs as [|x xs IH]; intros s; cbn; [reflexivity|].
  destruct (body x s); cbn; [apply IH | reflexivity].
Qed.

Lemma forallb_pointwise {A : Type} (f g : A -> bool) (l : list A) :
  (forall x, f x = g x) -> forallb f l = forallb g l.
Proof. intros H. induction l as [|x l IH]; cbn; [reflexivity|]. now rewrite H, IH. Qed.

Lemma sameShape_refl {P} (em : EventManager.t P) : sameShape em em.
Proof. now repeat split. Qed.

Lemma sameShape_trans {P} (em1 em2 em3 : EventManager.t P) :
  sameShape em1 em2 -> sameShape em2 em3 -> sameShape em1 em3.
Proof. unfold sameShape. intros (?&?&?&?) (?&?&?&?). repeat split; congruence. Qed.

Lemma openAt_Some {P} (em : EventManager.t P) (b : nat) :
  openAt em b = true <->
  exists s, EventManager.heap em !! b = Some s /\ Chan.closed (Subscriber.outgoing s) = false.
Proof.
  unfold openAt. destruct (EventManager.heap em !! b) as [s|]; split.
  - intros H. exists s. split; [reflexivity|]. now destruct (Chan.closed _).
  - intros (s' & [= <-] & ->). reflexivity.
  - discriminate.
  - intros (s' & [=] & _).
Qed.

Section BroadcastFacts.
Context {P : Type}.
Variable pickDone : nat -> Event -> bool.

Lemma broadcastSelect_open (a : nat) (s : Subscriber.t) (evt : Event) :
  Chan.closed (Subscriber.outgoing s) = false ->
  broadcastSelect pickDone a s evt <> SendOnClosed.
Proof.
  intros Hc. unfold broadcastSelect. rewrite Hc.
  destruct (_ && _); [discriminate|]. destruct (Subscriber.done s); discriminate.
Qed.

Lemma afterBroadcast_closed (a : nat) (s : Subscriber.t) (evt : Event) :
  Chan.closed (Subscriber.outgoing (afterBroadcast pickDone a evt s)) =
  Chan.closed (Subscriber.outgoing s).
Proof.
  unfold afterBroadcast. destruct (Subscriber.filter s evt); [|reflexivity].
  now destruct (broadcastSelect pickDone a s evt).
Qed.

(** The loop body on a subscriber whose [select] does not panic: only
    that subscriber's record, the counters and the effects change. *)
Lemma broadcastOne_ok (evt : Event) (b : nat) (s : Subscriber.t) (em : EventManager.t P) :
  EventManager.heap em !! b = Some s ->
  broadcastSelect pickDone b s evt <> SendOnClosed ->
  exists em', broadcastOne pickDone evt b em = Ok em' /\ sameShape em em' /\
    EventManager.heap em' = <[b := afterBroadcast pickDone b evt s]> (EventManager.heap em).
Proof.
  intros Hs Hsel. unfold broadcastOne, deref, afterBroadcast. rewrite Hs. cbn.
  destruct (Subscriber.filter s evt).
  - destruct (broadcastSelect pickDone b s evt); try congruence; cbn;
      eexists; (split; [reflexivity|]); (split; [now repeat split|]); cbn;
      try reflexivity; now rewrite insert_id.
  - eexists. split; [reflexivity|]. split; [apply sameShape_refl|].
    now rewrite insert_id.
Qed.

Lemma openAt_insert (em em' : EventManager.t P) (b c : nat) (s s' : Subscriber.t) :
  EventManager.heap em !! b = Some s ->
  EventManager.heap em' = <[b := s']> (EventManager.heap em) ->
  Chan.closed (Subscriber.outgoing s') = Chan.closed (Subscriber.outgoing s) ->
  openAt em' c = openAt em c.
Proof.
  intros Hs Hh Hc. unfold openAt. rewrite Hh.
  destruct (decide (b = c)) as [->|Hne].
  - rewrite lookup_insert_eq, Hs. now rewrite Hc.
  - now rewrite lookup_insert_ne.
Qed.

(** The whole loop over subscribers with open queues returns; queues stay
    open and subscribers outside the list are untouched. *)
Lemma broadcastLoop_ok (evt : Event) (l : list nat) (em : EventManager.t P) :
  forallb (openAt em) l = true ->
  exists em', forEach (broadcastOne pickDone evt) l em = Ok em' /\ sameShape em em' /\
    (forall c, openAt em' c = openAt em c) /\
    (forall c, c ∉ l -> EventManager.heap em' !! c = EventManager.heap em !! c).
Proof.
  revert em. induction l as [|b l IH]; intros em Hall; cbn in *.
  - exists em. repeat split; auto.
  - apply andb_true_iff in Hall as [Hb Hl].
    apply openAt_Some in Hb as (s & Hs & Hc).
    destruct (broadcastOne_ok evt b s em Hs (broadcastSelect_open b s evt Hc))
      as (em1 & -> & Hsh1 & Hh1). cbn.
    assert (Hopen : forall c, openAt em1 c = openAt em c).
    { intros c. eapply openAt_insert; eauto. apply afterBroadcast_closed. }
    destruct (IH em1) as (em' & -> & Hsh & Ho & Hf).
    { rewrite (forallb_pointwise _ (openAt em)); [exact Hl | exact Hopen]. }
    exists em'. split; [reflexivity|]. split; [eapply sameShape_trans; eauto|].
    split.
    + intros c. now rewrite Ho.
    + intros c Hc'. apply not_elem_of_cons in Hc' as [Hne Hnl].
      rewrite Hf by assumption. rewrite Hh1. now rewrite lookup_insert_ne.
Qed.

Lemma sameShape_emit (fx : list Effect) (em : EventManager.t P) :
  sameShape em (EventManager.emit fx em).
Proof. now repeat split. Qed.

Lemma broadcastEvent_ok (evt : Event) (em : EventManager.t P) :
  subscribersOpen em = true ->
  exists em', broadcastEvent pickDone evt em = Ok em' /\ sameShape em em' /\
    (forall c, openAt em' c = openAt em c) /\
    (forall c, c ∉ EventManager.subs em ->
       EventManager.heap em' !! c = EventManager.heap em !! c).
Proof.
  intros Hopen. unfold broadcastEvent.
  destruct (broadcastLoop_ok evt (EventManager.subs em)
              (EventManager.emit [Lock subsLk] em) Hopen)
    as (em1 & H1 & Hsh & Ho & Hf).
  cbn in H1 |- *. rewrite H1. cbn.
  eexists. split; [reflexivity|]. split; [|split].
  - eapply sameShape_trans; [exact Hsh|]. apply sameShape_emit.
  - intros c. apply Ho.
  - intros c Hc. now apply Hf.
Qed.

Lemma subscribersOpen_shape (em em' : EventManager.t P) :
  sameShape em em' -> (forall c, openAt em' c = openAt em c) ->
  subscribersOpen em = true -> subscribersOpen em' = true.
Proof.
  intros (Hs & _) Ho. unfold subscribersOpen. rewrite Hs.
  intros H. rewrite (forallb_pointwise _ (openAt em)); [exact H | exact Ho].
Qed.

Lemma broadcastAll_ok (evs : list Event) (em : EventManager.t P) :
  subscribersOpen em = true ->
  exists em', forEach (broadcastEvent pickDone) evs em = Ok em' /\ sameShape em em' /\
    (forall c, openAt em' c = openAt em c).
Proof.
  revert em. induction evs as [|e evs IH]; intros em Hopen; cbn.
  - exists em. split; [reflexivity|]. split; [apply sameShape_refl|auto].
  - destruct (broadcastEvent_ok e em Hopen) as (em1 & -> & Hsh1 & Ho1 & _). cbn.
    destruct (IH em1) as (em' & -> & Hsh & Ho).
    { eapply subscribersOpen_shape; eauto. }
    exists em'. split; [reflexivity|]. split; [eapply sameShape_trans; eauto|].
    intros c. now rewrite Ho.
Qed.

(** C9, as the code has it: for a subscriber whose filter matches, the
    loop body increments [enqueuedCounter] and [broadcastCounter] by one
    each in every outcome of the [select] that returns (pushed, [done]
    observed, queue full); [broadcastCounter.Inc()] stands after the
    [select], outside its cases. A subscriber whose filter does not match
    leaves both counters alone. *)
Theorem broadcastOne_counters (evt : Event) (b : nat) (s : Subscriber.t)
    (em : EventManager.t P) :
  EventManager.heap em !! b = Some s ->
  broadcastSelect pickDone b s evt <> SendOnClosed ->
  exists em', broadcastOne pickDone evt b em = Ok em' /\
    EventManager.eventsEnqueued em' =
      (if Subscriber.filter s evt
       then Inc (Subscriber.enqueuedCounter s) (EventManager.eventsEnqueued em)
       else EventManager.eventsEnqueued em) /\
    EventManager.eventsBroadcast em' =
      (if Subscriber.filter s evt
       then Inc (Subscriber.broadcastCounter s) (EventManager.eventsBroadcast em)
       else EventManager.eventsBroadcast em).
Proof.
  intros Hs Hsel. unfold broadcastOne, deref. rewrite Hs. cbn.
  destruct (Subscriber.filter s evt); [|eauto].
  destruct (broadcastSelect pickDone b s evt); try congruence; cbn; eauto.
Qed.
End BroadcastFacts.

Lemma broadcastOne_counters_witness :
  exists em', broadcastOne neverDone (commitEvent 2) 0 fullBroker = Ok em' /\
    EventManager.eventsEnqueued em' = Inc "slow" ∅ /\
    EventManager.eventsBroadcast em' = Inc "slow" ∅.
Proof.
  apply (broadcastOne_counters neverDone (commitEvent 2) 0
           (plainSubscriber "slow" 1 [commitEvent 1]) fullBroker).
  - reflexivity.
  - vm_compute. discriminate.
Defined.

(** C9, where the claim fails: the only subscriber's queue is full, the
    [select] takes its default case and nothing is queued, and the
    broadcast counter of the subscriber still goes from 0 to 1. *)
Lemma broadcastCounter_counts_overflow :
  broadcastSelect neverDone 0 (plainSubscriber "slow" 1 [commitEvent 1]) (commitEvent 2)
    = QueueFull /\
  counterValue "slow" (EventManager.eventsBroadcast fullBroker) = 0%nat /\
  match broadcastOne neverDone (commitEvent 2) 0 fullBroker with
  | Ok em' =>
    counterValue "slow" (EventManager.eventsBroadcast em') = 1%nat /\
    EventManager.heap em' !! 0%nat = Some (plainSubscriber "slow" 1 [commitEvent 1])
  | Panic _ => False
  end.
Proof. vm_compute. repeat split. Qed.

(** ** AddEvent *)

Section AddEventFacts.
Context {Ctx P : Type} `{!EventPersistence Ctx P}.
Variable pickDone : nat -> Event -> bool.
Variable tracerStart : string -> Ctx -> Ctx.

(** C5: whatever [Persist] answers, [AddEvent] returns nil. When [Persist]
    returns an error the last thing the call does is log it at error
    level; the error is not handed to the producer. The subscribers'
    queues are open, so that the broadcasts [Persist] triggers return. *)
Theorem AddEvent_returns_nil (ctx : Ctx) (ev : Event) (em : EventManager.t P) :
  subscribersOpen em = true ->
  exists em', AddEvent pickDone tracerStart ctx ev em = Ok (None, em') /\
    match (Persist (tracerStart "AddEvent" ctx) ev (EventManager.persister em)).2 with
    | Some e =>
      last (EventManager.trace em') =
        Some (Errorf ("failed to persist outbound event: " ++ errorString e))
    | None => True
    end.
Proof.
  intros Hopen. unfold AddEvent, persistAndSendEvent.
  destruct (Persist (tracerStart "AddEvent" ctx) ev (EventManager.persister em))
    as [[p handed] e].
  destruct (broadcastAll_ok pickDone handed (EventManager.setPersister p em) Hopen)
    as (em1 & -> & _ & _). cbn.
  destruct e as [e|]; cbn.
  - eexists. split; [reflexivity|]. cbn. apply last_snoc.
  - eexists. split; [reflexivity|]. exact I.
Qed.
End AddEventFacts.

Lemma AddEvent_returns_nil_witness :
  exists em', @AddEvent unit unit failingPersistence neverDone sameCtx tt
                (commitEvent 1) idleBroker = Ok (None, em') /\
    last (EventManager.trace em') =
      Some (Errorf "failed to persist outbound event: disk full").
Proof.
  apply (@AddEvent_returns_nil unit unit failingPersistence neverDone sameCtx tt
           (commitEvent 1) idleBroker).
  reflexivity.
Defined.

(** ** Cleanup *)

Section CleanupFacts.
Context {P : Type}.

Lemma rmSubscriber_heap (a : nat) (em : EventManager.t P) :
  EventManager.heap (rmSubscriber a em) = EventManager.heap em.
Proof.
  unfold rmSubscriber. cbn.
  destruct (list_find _ _) as [[i x]|]; [|reflexivity].
  now destruct (_ !! _).
Qed.

Lemma rmSubscriber_trace (a : nat) (em : EventManager.t P) :
  EventManager.trace (rmSubscriber a em) =
  EventManager.trace em ++ [Lock subsLk; Unlock subsLk].
Proof.
  unfold rmSubscriber. cbn.
  destruct (list_find _ _) as [[i x]|]; [destruct (_ !! _)|]; cbn;
    now rewrite <- app_assoc.
Qed.

(** After [rmSubscriber] the subscriber is not in the list, provided it
    was there at most once. *)
Lemma rmSubscriber_removes (a : nat) (em : EventManager.t P) :
  NoDup (EventManager.subs em) -> a ∉ EventManager.subs (rmSubscriber a em).
Proof.
  intros Hnd. unfold rmSubscriber. cbn.
  set (l := EventManager.subs em) in *.
  destruct (list_find (λ s, s = a) l) as [[i x]|] eqn:Hf.
  - apply list_find_Some in Hf as (Hi & -> & _).
    pose proof (lookup_lt_Some _ _ _ Hi) as Hlt.
    destruct (l !! (length l - 1)%nat) as [y|] eqn:Hlast; cbn.
    + intros Hin. apply list_elem_of_lookup in Hin as [j Hj].
      apply lookup_take_Some in Hj as [Hj Hjlt].
      destruct (decide (i = j)) as [<-|Hne].
      * rewrite list_lookup_insert_eq in Hj by assumption.
        injection Hj as ->.
        pose proof (NoDup_lookup _ _ _ _ Hnd Hi Hlast). lia.
      * rewrite list_lookup_insert_ne in Hj by assumption.
        pose proof (NoDup_lookup _ _ _ _ Hnd Hi Hj). congruence.
    + apply lookup_ge_None in Hlast. lia.
  - apply list_find_None in Hf. cbn. intros Hin.
    rewrite Forall_forall in Hf. now apply (Hf a).
Qed.

Lemma rmSubscriber_subs_ext (a : nat) (em em' : EventManager.t P) :
  EventManager.subs em = EventManager.subs em' ->
  EventManager.subs (rmSubscriber a em) = EventManager.subs (rmSubscriber a em').
Proof.
  destruct em as [l ? ? ? ? ? ? ?], em' as [l' ? ? ? ? ? ? ?].
  unfold rmSubscriber. cbn. intros ->.
  destruct (list_find _ _) as [[i x]|]; [|reflexivity].
  now destruct (l' !! _).
Qed.

Local Arguments rmSubscriber : simpl never.

(** The first call of a subscriber's cleanup. *)
Lemma cleanup_first (a : nat) (s : Subscriber.t) (em : EventManager.t P) :
  EventManager.heap em !! a = Some s ->
  Subscriber.cleanupFired s = false ->
  Subscriber.done s = false ->
  Chan.closed (Subscriber.outgoing s) = false ->
  exists em1, cleanup a em = Ok em1 /\
    EventManager.heap em1 = <[a := cleanedSubscriber s]> (EventManager.heap em) /\
    EventManager.subs em1 = EventManager.subs (rmSubscriber a em) /\
    EventManager.trace em1 =
      EventManager.trace em ++
        [Lock (lk a); CloseDone a; Lock subsLk; Unlock subsLk; CloseOutgoing a;
         Unlock (lk a)].
Proof.
  intros Hs Hfired Hdone Hclosed.
  unfold cleanup, deref. rewrite Hs. cbn. rewrite Hfired. cbn.
  rewrite lookup_insert_eq. cbn. rewrite Hdone. cbn.
  rewrite rmSubscriber_heap. cbn. rewrite lookup_insert_eq. cbn.
  unfold Chan.close. cbn. rewrite Hclosed. cbn.
  rewrite ?rmSubscriber_heap. cbn. rewrite lookup_insert_eq. cbn.
  eexists. split; [reflexivity|]. cbn. split; [|split].
  - rewrite ?rmSubscriber_heap. cbn. now rewrite !insert_insert_eq.
  - now apply rmSubscriber_subs_ext.
  - rewrite rmSubscriber_trace. cbn. now rewrite <- !app_assoc.
Qed.

(** A later call finds the once guard fired and does nothing. *)
Lemma cleanup_again (a : nat) (s : Subscriber.t) (em : EventManager.t P) (n : nat) :
  EventManager.heap em !! a = Some s ->
  Subscriber.cleanupFired s = true ->
  repeatCall (cleanup a) n em = Ok em.
Proof.
  intros Hs Hfired. induction n as [|n IH]; cbn; [reflexivity|].
  unfold cleanup at 1, deref. rewrite Hs. cbn. rewrite Hfired. cbn. exact IH.
Qed.

(** C7: the cancel function is [sub.cleanup]. Its first call closes
    [done], takes the subscriber out of the broker's list, closes the
    outgoing queue and sets [cleanedUp]; any number of calls, one or many,
    ends in this same state without a panic, so each channel is closed
    exactly once. What was queued can still be read. *)
Theorem cleanup_idempotent (a : nat) (s : Subscriber.t) (em : EventManager.t P) :
  EventManager.heap em !! a = Some s ->
  Subscriber.cleanupFired s = false ->
  Subscriber.done s = false ->
  Chan.closed (Subscriber.outgoing s) = false ->
  NoDup (EventManager.subs em) ->
  exists em1, cleanup a em = Ok em1 /\
    (forall n, repeatCall (cleanup a) (S n) em = Ok em1) /\
    (a ∉ EventManager.subs em1) /\
    EventManager.heap em1 !! a = Some (cleanedSubscriber s) /\
    EventManager.trace em1 =
      EventManager.trace em ++
        [Lock (lk a); CloseDone a; Lock subsLk; Unlock subsLk; CloseOutgoing a;
         Unlock (lk a)].
Proof.
  intros Hs Hfired Hdone Hclosed Hnd.
  destruct (cleanup_first a s em Hs Hfired Hdone Hclosed)
    as (em1 & Hc & Hheap & Hsubs & Htrace).
  assert (Ha : EventManager.heap em1 !! a = Some (cleanedSubscriber s)).
  { rewrite Hheap. apply lookup_insert_eq. }
  exists em1. split; [exact Hc|]. split; [|split; [|split]].
  - intros n. cbn. rewrite Hc. cbn.
    now apply (cleanup_again a (cleanedSubscriber s)).
  - rewrite Hsubs. now apply rmSubscriber_removes.
  - exact Ha.
  - exact Htrace.
Qed.
End CleanupFacts.

Lemma cleanup_idempotent_witness :
  exists em1 : EventManager.t unit, cleanup 0 idleBroker = Ok em1 /\
    (forall n, repeatCall (cleanup 0) (S n) idleBroker = Ok em1) /\
    (0%nat ∉ EventManager.subs em1) /\
    EventManager.heap em1 !! 0%nat = Some (cleanedSubscriber (plainSubscriber "idle" 4 [])) /\
    EventManager.trace em1 =
      [Lock (lk 0); CloseDone 0; Lock subsLk; Unlock subsLk; CloseOutgoing 0;
       Unlock (lk 0)].
Proof.
  apply (cleanup_idempotent 0 (plainSubscriber "idle" 4 []) idleBroker);
    try reflexivity.
  apply NoDup_singleton.
Defined.

(** ** Slow-consumer eviction *)

Section EvictFacts.
Context {P : Type}.
Variable pickDone : nat -> Event -> bool.

(** C6: when the [select] of a filtered broadcast takes its default case
    (queue full) the broker starts the eviction task for that subscriber.
    The task takes the subscriber's lock; only if [cleanedUp] is not set
    it starts a timer of five seconds and tries to send the frame
    [Error{Error: "ConsumerTooSlow"}], which is queued if the consumer
    makes room in time and otherwise logged as not sent; it releases the
    lock and then calls the subscriber's cleanup in every case. *)
Theorem evict_error_frame_then_cleanup (evt : Event) (drained a : nat)
    (s : Subscriber.t) (em : EventManager.t P) :
  EventManager.heap em !! a = Some s ->
  (Subscriber.cleanedUp s = false -> Chan.closed (Subscriber.outgoing s) = false) ->
  (Subscriber.filter s evt = true -> broadcastSelect pickDone a s evt = QueueFull ->
   exists em', broadcastOne pickDone evt a em = Ok em' /\
     EventManager.heap em' = EventManager.heap em /\
     EventManager.trace em' =
       EventManager.trace em ++
         [Warnw "dropping slow consumer due to event overflow" (Subscriber.ident s);
          GoEvict a]) /\
  evictionTimeout = 5 * 1000000000 /\
  XRPCStreamEvent.Error consumerTooSlow = Some (ErrorFrame.Build "ConsumerTooSlow" "") /\
  exists em1, evict drained a em = cleanup a em1 /\
    EventManager.subs em1 = EventManager.subs em /\
    let c := Chan.consume drained (Subscriber.outgoing s) in
    if Subscriber.cleanedUp s then
      EventManager.heap em1 = EventManager.heap em /\
      EventManager.trace em1 = EventManager.trace em ++ [Lock (lk a); Unlock (lk a)]
    else if Chan.hasRoom c then
      EventManager.heap em1 =
        <[a := Subscriber.setOutgoing (Chan.push consumerTooSlow c) s]>
          (EventManager.heap em) /\
      EventManager.trace em1 =
        EventManager.trace em ++
          [Lock (lk a); After (time_Second * 5); SentTo a consumerTooSlow;
           Unlock (lk a)]
    else
      EventManager.heap em1 =
        <[a := Subscriber.setOutgoing c s]> (EventManager.heap em) /\
      EventManager.trace em1 =
        EventManager.trace em ++
          [Lock (lk a); After (time_Second * 5);
           Warnw "failed to send error frame to backed up consumer" (Subscriber.ident s);
           Unlock (lk a)].
Proof.
  intros Hs Hinv. split; [|split; [reflexivity|split; [reflexivity|]]].
  - intros Hf Hsel. unfold broadcastOne, deref. rewrite Hs. cbn.
    rewrite Hf, Hsel. cbn. eexists. split; [reflexivity|]. cbn. now split.
  - unfold evict, deref. cbn [EventManager.heap EventManager.emit]. rewrite Hs.
    cbn [bind]. destruct (Subscriber.cleanedUp s) eqn:Hcu; cbn [negb].
    + eexists. split; [reflexivity|]. cbn.
      split; [reflexivity|]. split; [reflexivity|]. now rewrite <- app_assoc.
    + change (Chan.closed (Chan.consume drained (Subscriber.outgoing s)))
        with (Chan.closed (Subscriber.outgoing s)).
      rewrite (Hinv eq_refl).
      destruct (Chan.hasRoom (Chan.consume drained (Subscriber.outgoing s)))
        eqn:Hroom; cbn [bind].
      * eexists. split; [reflexivity|]. cbn.
        split; [reflexivity|]. split; [reflexivity|]. now rewrite <- !app_assoc.
      * eexists. split; [reflexivity|]. cbn.
        split; [reflexivity|]. split; [reflexivity|]. now rewrite <- !app_assoc.
Qed.
End EvictFacts.

Lemma evict_error_frame_then_cleanup_witness :
  (exists em', broadcastOne neverDone (commitEvent 2) 0 fullBroker = Ok em' /\
     EventManager.heap em' = EventManager.heap fullBroker /\
     EventManager.trace em' =
       [Warnw "dropping slow consumer due to event overflow" "slow"; GoEvict 0]) /\
  (exists em1, evict 1 0 fullBroker = cleanup 0 em1 /\
     EventManager.heap em1 !! 0%nat =
       Some (plainSubscriber "slow" 1 [consumerTooSlow]) /\
     EventManager.trace em1 =
       [Lock (lk 0); After 5000000000; SentTo 0 consumerTooSlow; Unlock (lk 0)]).
Proof.
  destruct (evict_error_frame_then_cleanup neverDone (commitEvent 2) 1 0
              (plainSubscriber "slow" 1 [commitEvent 1]) fullBroker)
    as (Hgo & _ & _ & em1 & Hev & _ & Hheap & Htrace).
  - reflexivity.
  - reflexivity.
  - split.
    + apply Hgo; reflexivity.
    + exists em1. split; [exact Hev|]. split; [|exact Htrace].
      rewrite Hheap. reflexivity.
Defined.

(** ** Logs with increasing sequences *)

Lemma increasing_weaken (lo lo' : Z) (L : list Event) :
  lo' <= lo -> increasing lo L = true -> increasing lo' L = true.
Proof.
  destruct L as [|e L]; cbn; [reflexivity|].
  intros Hle H. apply andb_true_iff in H as [H H3].
  apply andb_true_iff in H as [H1 H2]. apply Z.ltb_lt in H2.
  rewrite H1, H3. cbn. rewrite andb_true_r. apply Z.ltb_lt. lia.
Qed.

Lemma increasing_elem (lo : Z) (L : list Event) (e : Event) :
  increasing lo L = true -> e ∈ L -> isRepoEvent e = true /\ lo < seqOf e.
Proof.
  revert lo. induction L as [|x L IH]; intros lo H Hin.
  - now apply elem_of_nil in Hin.
  - cbn in H. apply andb_true_iff in H as [H H3].
    apply andb_true_iff in H as [H1 H2]. apply Z.ltb_lt in H2.
    apply elem_of_cons in Hin as [->|Hin]; [now split|].
    destruct (IH _ H3 Hin) as [Hr Hlt]. split; [exact Hr | lia].
Qed.

Lemma increasing_app (lo : Z) (X Y : list Event) :
  increasing lo (X ++ Y) = true ->
  increasing lo X = true /\ increasing lo Y = true /\
  forall x y, x ∈ X -> y ∈ Y -> seqOf x < seqOf y.
Proof.
  revert lo. induction X as [|x X IH]; intros lo H; cbn [increasing app] in *.
  - repeat split; [exact H|]. intros x y Hx. now apply elem_of_nil in Hx.
  - apply andb_true_iff in H as [H H3].
    apply andb_true_iff in H as [H1 H2].
    destruct (IH _ H3) as (HX & HY & Hcross).
    rewrite H1, H2, HX. split; [reflexivity|]. apply Z.ltb_lt in H2. split.
    + apply (increasing_weaken (seqOf x)); [lia | exact HY].
    + intros x' y Hx' Hy. apply elem_of_cons in Hx' as [->|Hx'].
      * now apply (increasing_elem _ Y).
      * now apply Hcross.
Qed.

Lemma filter_ext_elem {A : Type} (Q R : A -> Prop)
    {dQ : forall x, Decision (Q x)} {dR : forall x, Decision (R x)} (l : list A) :
  (forall x, x ∈ l -> Q x <-> R x) -> filter Q l = filter R l.
Proof.
  induction l as [|x l IH]; intros H; [reflexivity|].
  rewrite !filter_cons. rewrite IH.
  - destruct (decide (Q x)) as [q|nq], (decide (R x)) as [r|nr]; try reflexivity.
    + exfalso. apply nr, (H x); [left | exact q].
    + exfalso. apply nq, (H x); [left | exact r].
  - intros y Hy. apply H. now right.
Qed.

Lemma filter_none {A : Type} (Q : A -> Prop) {dQ : forall x, Decision (Q x)} (l : list A) :
  (forall x, x ∈ l -> ~ Q x) -> filter Q l = [].
Proof.
  induction l as [|x l IH]; intros H; [reflexivity|].
  rewrite filter_cons_False by (apply H; left).
  apply IH. intros y Hy. apply H. now right.
Qed.


(** A filtered list that starts with [x]: [x] is the first element the
    filter accepts. *)
Lemma filter_head {A : Type} (Q : A -> Prop) {dQ : forall x, Decision (Q x)}
    (l : list A) (x : A) (k : list A) :
  filter Q l = x :: k ->
  exists pre post, l = pre ++ x :: post /\ filter Q pre = [] /\ Q x /\ k = filter Q post.
Proof.
  induction l as [|y l IH]; intros H; [discriminate|].
  rewrite filter_cons in H. destruct (decide (Q y)) as [q|nq].
  - injection H as Hy Hk. subst y k. exists [], l. now repeat split.
  - destruct (IH H) as (pre & post & -> & Hpre & Hx & Hk).
    exists (y :: pre), post. repeat split; try assumption.
    now rewrite filter_cons_False.
Qed.

(** ** The two playbacks over a log *)


Section PlaybackFacts.
Context {Ctx : Type}.
Variable pickDone : nat -> Event -> bool.

(** Cold replay, nobody cancelling: every event above [since] is
    forwarded, and the cursor ends on the last of them. *)
Lemma cold_playback (since : Z) (L : list Event) :
  forall (lo : Z) (j : Join.t Ctx),
  increasing lo L = true -> 0 <= lo ->
  Join.lastSeq j <= Z.max since lo -> since <= Join.lastSeq j ->
  exists z,
    playbackLog since (coldVisit pickDone false) L j =
      (Join.setLastSeq z (Join.sendAll (filter (λ e, since < seqOf e) L) j), None) /\
    Join.lastSeq j <= z /\
    (forall e, e ∈ L -> seqOf e <= z) /\
    (z = Join.lastSeq j \/ exists e, e ∈ L /\ seqOf e = z).
Proof.
  induction L as [|e L IH]; intros lo j Hinc Hlo Hlast Hsince.
  - exists (Join.lastSeq j). cbn [playbackLog]. split.
    + rewrite filter_nil. destruct j. join_simpl. now rewrite app_nil_r.
    + split; [lia|]. split; [|now left].
      intros e He. now apply elem_of_nil in He.
  - cbn [increasing] in Hinc. apply andb_true_iff in Hinc as [H H3].
    apply andb_true_iff in H as [H1 H2]. apply Z.ltb_lt in H2.
    cbn [playbackLog]. rewrite (assignedSeq_repo e H1).
    destruct (since <? seqOf e) eqn:Hcmp.
    + apply Z.ltb_lt in Hcmp.
      unfold coldVisit at 1. cbn [andb].
      fold (seqOf e).
      assert (Hpos : (0 <? seqOf e) = true) by (apply Z.ltb_lt; lia).
      rewrite Hpos.
      destruct (IH (seqOf e) (Join.setLastSeq (seqOf e) (Join.send e j)))
        as (z & Hrun & Hmono & Hall & Hwit);
        [exact H3 | lia | join_simpl; lia | join_simpl; lia |].
      exists z. cbn in Hmono. split.
      * rewrite Hrun. rewrite filter_cons_True by exact Hcmp.
        destruct j. join_simpl. now rewrite <- app_assoc.
      * split; [lia|]. split.
        -- intros x Hx. apply elem_of_cons in Hx as [->|Hx]; [lia | now apply Hall].
        -- right. destruct Hwit as [->|(x & Hx & Hz)].
           ++ exists e. split; [left | reflexivity].
           ++ exists x. split; [now right | exact Hz].
    + apply Z.ltb_ge in Hcmp.
      destruct (IH (seqOf e) j) as (z & Hrun & Hmono & Hall & Hwit);
        [exact H3 | lia | lia | lia |].
      exists z. split.
      * rewrite Hrun. now rewrite filter_cons_False by lia.
      * split; [lia|]. split.
        -- intros x Hx. apply elem_of_cons in Hx as [->|Hx]; [lia | now apply Hall].
        -- destruct Hwit as [->|(x & Hx & Hz)]; [now left|].
           right. exists x. split; [now right | exact Hz].
Qed.

(** Hot replay past the bound: the first event it visits stops it with
    the caught-up sentinel; nothing is forwarded. *)
Lemma hot_playback_above (lo : Z) (Y : list Event) (j : Join.t Ctx) :
  (forall y, y ∈ Y -> isRepoEvent y = true /\ sequenceForEvent (Join.first j) < seqOf y) ->
  exists err, playbackLog lo (hotVisit pickDone false) Y j = (j, err) /\
    (err = None \/ err = Some ErrCaughtUp).
Proof.
  induction Y as [|y Y IH]; intros H; cbn [playbackLog].
  - exists None. split; [reflexivity | now left].
  - destruct (H y) as [Hr Hlt]; [left|].
    rewrite (assignedSeq_repo y Hr).
    destruct (lo <? seqOf y).
    + unfold hotVisit. fold (seqOf y).
      apply Z.ltb_lt in Hlt. rewrite Hlt.
      exists (Some ErrCaughtUp). split; [reflexivity | now right].
    + apply IH. intros y' Hy'. apply H. now right.
Qed.

(** Hot replay, nobody cancelling, over a log whose part [X] is not above
    the sequence of [first] and whose part [Y] is: the events of [X] above
    the cursor are forwarded, and the replay ends with the log or with
    the caught-up sentinel. *)
Lemma hot_playback (lo : Z) (X Y : list Event) :
  forall j : Join.t Ctx,
  (forall x, x ∈ X -> isRepoEvent x = true /\ seqOf x <= sequenceForEvent (Join.first j)) ->
  (forall y, y ∈ Y -> isRepoEvent y = true /\ sequenceForEvent (Join.first j) < seqOf y) ->
  exists err,
    playbackLog lo (hotVisit pickDone false) (X ++ Y) j =
      (Join.sendAll (filter (λ e, lo < seqOf e) X) j, err) /\
    (err = None \/ err = Some ErrCaughtUp).
Proof.
  induction X as [|x X IH]; intros j HX HY.
  - cbn [app]. rewrite filter_nil.
    replace (Join.sendAll [] j) with j
      by (destruct j; join_simpl; now rewrite app_nil_r).
    now apply hot_playback_above.
  - destruct (HX x) as [Hr Hle]; [left|].
    cbn [app playbackLog]. rewrite (assignedSeq_repo x Hr).
    destruct (lo <? seqOf x) eqn:Hcmp.
    + apply Z.ltb_lt in Hcmp.
      unfold hotVisit at 1. fold (seqOf x).
      assert (Hnot : (sequenceForEvent (Join.first j) <? seqOf x) = false)
        by (apply Z.ltb_ge; lia).
      rewrite Hnot. cbn [andb].
      destruct (IH (Join.send x j)) as (err & Hrun & Herr).
      * intros x' Hx'. cbn. apply HX. now right.
      * intros y Hy. cbn. now apply HY.
      * exists err. split; [|exact Herr]. rewrite Hrun.
        rewrite filter_cons_True by exact Hcmp.
        destruct j. join_simpl. now rewrite <- app_assoc.
    + apply Z.ltb_ge in Hcmp.
      destruct (IH j) as (err & Hrun & Herr).
      * intros x' Hx'. apply HX. now right.
      * exact HY.
      * exists err. split; [|exact Herr]. rewrite Hrun.
        now rewrite filter_cons_False by lia.
Qed.
End PlaybackFacts.

(** What the two replays forward, put together: the cold replay of [L1]
    from [since] followed by the hot replay, from the cursor the cold
    replay ended on, of the log up to the first live event [x] is every
    event above [since] up to [x], each once. *)
Lemma replays_cover (since z : Z) (L1 M : list Event) (x : Event) :
  increasing 0 (L1 ++ M ++ [x]) = true ->
  coldCursor since L1 z ->
  filter (λ e, since < seqOf e) L1 ++ filter (λ e, z < seqOf e) (L1 ++ M ++ [x]) =
  filter (λ e, since < seqOf e) (L1 ++ M ++ [x]).
Proof.
  intros Hinc (Hle & Hall & Hwit).
  apply increasing_app in Hinc as (_ & _ & Hcross).
  rewrite !(filter_app _ L1).
  rewrite (filter_none (λ e, z < seqOf e) L1).
  - cbn [app]. f_equal. apply filter_ext_elem. intros e He. split; [lia|].
    intros Hs. destruct Hwit as [->|(e' & He' & <-)]; [exact Hs|].
    now apply Hcross.
  - intros e He. specialize (Hall e He). lia.
Qed.

(** ** The join coordinator, step by step *)

Lemma submitted_submit (e : Event) (steps : list Step) :
  submitted (Submit e :: steps) = e :: submitted steps.
Proof. reflexivity. Qed.

Lemma submitted_tick (steps : list Step) : submitted (Tick :: steps) = submitted steps.
Proof. reflexivity. Qed.

Lemma submitted_drain (steps : list Step) : submitted (Drain :: steps) = submitted steps.
Proof. reflexivity. Qed.

Section JoinFacts.
Context {Ctx : Type}.
Variable pickDone : nat -> Event -> bool.
Variable tracerStart : string -> Ctx -> Ctx.
Variable ctx : Ctx.
Variable since : Z.
Variable f : Event -> bool.
Variable a : nat.
Variable base : nat.
Variable cap : nat.

(** With [done] open and room in the queue the [select] pushes. *)
Lemma afterBroadcast_room (s : Subscriber.t) (e : Event) :
  Subscriber.done s = false ->
  Chan.closed (Subscriber.outgoing s) = false ->
  Chan.hasRoom (Subscriber.outgoing s) = true ->
  afterBroadcast pickDone a e s =
    if Subscriber.filter s e
    then Subscriber.setOutgoing (Chan.push e (Subscriber.outgoing s)) s
    else s.
Proof.
  intros Hd Hc Hr. unfold afterBroadcast, broadcastSelect, Chan.sendReady.
  rewrite Hd, Hc, Hr. cbn. reflexivity.
Qed.

Lemma subscribersOpen_attached (em : EventManager.t (list Event)) (others : list nat) :
  EventManager.subs em = others ++ [a] ->
  subscribersOpen em = true ->
  forallb (openAt em) others = true.
Proof.
  unfold subscribersOpen. intros ->. rewrite forallb_app.
  intros H. now apply andb_true_iff in H as [H _].
Qed.

(** One broadcast, seen from the subscriber at [a]. *)
Lemma broadcastEvent_at (e : Event) (em : EventManager.t (list Event)) (s : Subscriber.t) :
  subscribersOpen em = true ->
  EventManager.heap em !! a = Some s ->
  Chan.closed (Subscriber.outgoing s) = false ->
  exists em', broadcastEvent pickDone e em = Ok em' /\ sameShape em em' /\
    (forall c, openAt em' c = openAt em c) /\
    (a ∉ EventManager.subs em -> EventManager.heap em' !! a = Some s) /\
    (attached a (EventManager.subs em) ->
     EventManager.heap em' !! a = Some (afterBroadcast pickDone a e s)).
Proof.
  intros Hopen Hs Hc.
  destruct (broadcastEvent_ok pickDone e em Hopen) as (em' & Hrun & Hsh & Ho & Hf).
  exists em'. split; [exact Hrun|]. split; [exact Hsh|]. split; [exact Ho|]. split.
  - intros Hn. now rewrite Hf.
  - intros (others & Hsubs & Hn).
    unfold broadcastEvent in Hrun. cbn [EventManager.subs EventManager.emit] in Hrun.
    rewrite Hsubs, forEach_app in Hrun.
    destruct (broadcastLoop_ok pickDone e others (EventManager.emit [Lock subsLk] em))
      as (em1 & H1 & _ & _ & Hf1).
    { now apply (subscribersOpen_attached em). }
    rewrite H1 in Hrun. cbn [bind forEach] in Hrun.
    assert (Hs1 : EventManager.heap em1 !! a = Some s).
    { rewrite Hf1 by exact Hn. exact Hs. }
    destruct (broadcastOne_ok pickDone e a s em1 Hs1
                (broadcastSelect_open pickDone a s e Hc)) as (em2 & H2 & _ & Hh2).
    rewrite H2 in Hrun. cbn [bind] in Hrun. injection Hrun as <-.
    cbn [EventManager.heap EventManager.emit]. rewrite Hh2. apply lookup_insert_eq.
Qed.

(** A new event in the log and, if the subscriber is registered, in its
    queue when the filter accepts it. *)
Lemma phaseInv_submit (e : Event) (j : Join.t Ctx) (subs : list nat)
    (L q : list Event) :
  phaseInv since f a base j subs L q ->
  ((a ∉ subs) /\ phaseInv since f a base j subs (L ++ [e]) q) \/
  (attached a subs /\
   phaseInv since f a base j subs (L ++ [e]) (q ++ filter (λ x, f x = true) [e])).
Proof.
  unfold phaseInv. destruct (Join.pc j).
  - intros (Ho & Hn & Hq). left. close_conj.
  - intros (Hn & Hq & L1 & L2 & -> & Hb & Ho & Hcur). left.
    split; [exact Hn|]. split; [exact Hn|]. split; [exact Hq|].
    exists L1, (L2 ++ [e]). rewrite <- app_assoc. close_conj.
  - intros (Hat & L1 & L2 & L3 & -> & Hb & Ho & Hcur & ->). right.
    split; [exact Hat|]. split; [exact Hat|].
    exists L1, L2, (L3 ++ [e]). rewrite <- !app_assoc, filter_app. close_conj.
  - intros (Hat & L1 & M & x & post & -> & Hb & Hfirst & Ho & Hcur & ->). right.
    split; [exact Hat|]. split; [exact Hat|].
    exists L1, M, x, (post ++ [e]). rewrite <- !app_assoc, filter_app. cbn.
    close_conj.
  - intros (Hat & Lp & x & Ls & -> & Hb & Hfirst & Ho). right.
    split; [exact Hat|]. split; [exact Hat|].
    exists Lp, x, (Ls ++ [e]).
    split; [now rewrite <- app_assoc|]. split; [exact Hb|]. split; [exact Hfirst|].
    rewrite (filter_app _ Ls [e]). rewrite !app_assoc. now rewrite Ho.
  - intros [].
Qed.
Lemma hasRoom_below (s : Subscriber.t) (c : nat) :
  Chan.cap (Subscriber.outgoing s) = cap ->
  (length (Chan.buf (Subscriber.outgoing s)) <= c)%nat ->
  (c < cap)%nat ->
  Chan.hasRoom (Subscriber.outgoing s) = true.
Proof.
  intros Hcap Hlen Hroom. unfold Chan.hasRoom, Chan.len. rewrite Hcap.
  apply Nat.ltb_lt. lia.
Qed.

Lemma JoinInv_intro (c : nat) (j : Join.t Ctx) (em : EventManager.t (list Event))
    (s : Subscriber.t) :
  Join.sub j = a -> Join.since j = since -> subscribersOpen em = true ->
  EventManager.heap em !! a = Some s ->
  Subscriber.filter s = f -> Subscriber.done s = false ->
  Chan.closed (Subscriber.outgoing s) = false ->
  Chan.cap (Subscriber.outgoing s) = cap ->
  (base <= length (EventManager.persister em))%nat ->
  (length (Chan.buf (Subscriber.outgoing s)) <= c)%nat ->
  phaseInv since f a base j (EventManager.subs em) (EventManager.persister em)
    (Chan.buf (Subscriber.outgoing s)) ->
  JoinInv since f a base cap c j em.
Proof. intros. unfold JoinInv. split; [|split; [|split]]; eauto 14. Qed.

(** The bound on the queue can be loosened, and tightened to the length of
    the queue. *)
Lemma JoinInv_bound (c c' : nat) (j : Join.t Ctx) (em : EventManager.t (list Event)) :
  JoinInv since f a base cap c j em ->
  (queueLength a em <= c')%nat ->
  JoinInv since f a base cap c' j em.
Proof.
  intros (Hsub & Hsince & Hopen & s & Hs & Hf & Hd & Hc & Hcap & Hb & Hlen & Hph) Hq.
  unfold queueLength in Hq. rewrite Hs in Hq.
  now apply (JoinInv_intro c' j em s).
Qed.

(** A producer's [AddEvent] while the goroutine runs. *)
Lemma submit_step (e : Event) (c : nat) (j : Join.t Ctx)
    (em : EventManager.t (list Event)) :
  JoinInv since f a base cap c j em ->
  (c < cap)%nat ->
  exists em', AddEvent pickDone tracerStart ctx e em = Ok (None, em') /\
    JoinInv since f a base cap (S c) j em' /\
    EventManager.persister em' = EventManager.persister em ++ [e].
Proof.
  intros (Hsub & Hsince & Hopen & s & Hs & Hf & Hd & Hc & Hcap & Hb & Hlen & Hph) Hroom.
  unfold AddEvent, persistAndSendEvent. cbn [Persist logPersistence].
  set (em2 := EventManager.setPersister (EventManager.persister em ++ [e]) em).
  destruct (broadcastEvent_at e em2 s Hopen Hs Hc)
    as (em' & Hrun & (Hsubs & Hbuf & Hper & Hnext) & Ho & Hout & Hin).
  cbn [forEach]. rewrite Hrun. cbn [bind].
  exists em'. split; [reflexivity|]. split; [|exact Hper].
  assert (Hopen' : subscribersOpen em' = true).
  { apply (subscribersOpen_shape em2); [now repeat split | exact Ho | exact Hopen]. }
  assert (Hb' : (base <= length (EventManager.persister em'))%nat).
  { rewrite Hper. cbn. rewrite length_app. lia. }
  destruct (phaseInv_submit e j _ _ _ Hph) as [[Hn Hph'] | [Hat Hph']].
  - apply (JoinInv_intro (S c) j em' s); try assumption.
    + now apply Hout.
    + lia.
    + rewrite Hsubs, Hper. exact Hph'.
  - rewrite (afterBroadcast_room s e Hd Hc (hasRoom_below s c Hcap Hlen Hroom)) in Hin.
    rewrite Hf in Hin. destruct (f e) eqn:Hfe.
    + rewrite filter_cons_True, filter_nil in Hph' by exact Hfe.
      apply (JoinInv_intro (S c) j em'
               (Subscriber.setOutgoing (Chan.push e (Subscriber.outgoing s)) s));
        try assumption.
      * now apply Hin.
      * cbn. rewrite length_app. cbn. lia.
      * rewrite Hsubs, Hper. exact Hph'.
    + rewrite filter_cons_False, filter_nil, app_nil_r in Hph' by congruence.
      apply (JoinInv_intro (S c) j em' s); try assumption.
      * now apply Hin.
      * lia.
      * rewrite Hsubs, Hper. exact Hph'.
Qed.

Lemma openAt_store (em : EventManager.t (list Event)) (s s' : Subscriber.t) (c : nat) :
  EventManager.heap em !! a = Some s ->
  Chan.closed (Subscriber.outgoing s') = Chan.closed (Subscriber.outgoing s) ->
  openAt (store a s' em) c = openAt em c.
Proof.
  intros Hs Hc. eapply openAt_insert; [exact Hs | reflexivity | exact Hc].
Qed.

Lemma subscribersOpen_popped (em : EventManager.t (list Event)) (s : Subscriber.t)
    (rest : list Event) :
  EventManager.heap em !! a = Some s ->
  subscribersOpen em = true ->
  subscribersOpen (store a (popped s rest) em) = true.
Proof.
  intros Hs Hopen. unfold subscribersOpen in *.
  cbn [EventManager.subs store EventManager.setHeap].
  rewrite (forallb_pointwise _ (openAt em)); [exact Hopen|].
  intros c. apply (openAt_store em s); [exact Hs | reflexivity].
Qed.

(** The hot replay as a step: with [first] in the log, everything above
    the cursor up to and including the event that carries the sequence of
    [first] is forwarded, and the goroutine goes on to its final loop,
    whether the replay ended with the caught-up sentinel or with the log. *)
Lemma hot_step_run (j : Join.t Ctx) (em : EventManager.t (list Event))
    (s : Subscriber.t) (L1 M : list Event) (x : Event) (post : list Event) :
  EventManager.heap em !! Join.sub j = Some s ->
  Subscriber.done s = false ->
  Join.pc j = Hot ->
  EventManager.persister em = L1 ++ M ++ x :: post ->
  increasing 0 (EventManager.persister em) = true ->
  Join.first j = Some x ->
  joinStep pickDone j em =
    Ok (Join.goto Live
          (Join.sendAll (filter (λ e, Join.lastSeq j < seqOf e) (L1 ++ M ++ [x])) j),
        em).
Proof.
  intros Hs Hd Hpc HL Hinc Hfirst.
  assert (HL' : EventManager.persister em = (L1 ++ M ++ [x]) ++ post).
  { rewrite HL. now rewrite <- !app_assoc. }
  rewrite HL' in Hinc. destruct (increasing_app _ _ _ Hinc) as (HincX & _ & Hcross).
  assert (HxX : x ∈ L1 ++ M ++ [x]) by (rewrite !elem_of_app; right; right; left).
  destruct (hot_playback pickDone (Join.lastSeq j) (L1 ++ M ++ [x]) post j)
    as (err & Hrun & Herr).
  { intros e He. split; [now apply (increasing_elem 0 (L1 ++ M ++ [x]))|].
    rewrite Hfirst. fold (seqOf x). rewrite app_assoc in He, HincX.
    apply elem_of_app in He as [He|He].
    - apply increasing_app in HincX as (_ & _ & Hc').
      enough (seqOf e < seqOf x) by lia. apply Hc'; [exact He | left].
    - apply list_elem_of_singleton in He as ->. lia. }
  { intros y Hy. split.
    - apply (increasing_elem 0 ((L1 ++ M ++ [x]) ++ post)); [exact Hinc|].
      rewrite elem_of_app. now right.
    - rewrite Hfirst. fold (seqOf x). now apply Hcross. }
  unfold joinStep, deref. rewrite Hs, Hpc. cbn [bind Playback logPersistence].
  rewrite Hd, HL', Hrun.
  now destruct Herr as [->| ->].
Qed.

(** One pass of the final loop with a value queued and nobody cancelling:
    the value is sent on [out]. *)
Lemma live_step_run (j : Join.t Ctx) (em : EventManager.t (list Event))
    (s : Subscriber.t) (x : Event) (rest : list Event) :
  EventManager.heap em !! Join.sub j = Some s ->
  Subscriber.done s = false ->
  Join.pc j = Live ->
  Chan.buf (Subscriber.outgoing s) = x :: rest ->
  joinStep pickDone j em =
    Ok (Join.send x j, store (Join.sub j) (popped s rest) em).
Proof.
  intros Hs Hd Hpc Hbuf. unfold joinStep, deref. rewrite Hs, Hpc. cbn [bind].
  unfold Chan.recv. rewrite Hbuf, Hd. reflexivity.
Qed.

(** A step of the goroutine: the invariant is kept, and the goroutine is
    one step closer to an empty queue unless the queue is empty. *)
Lemma tick_step (c : nat) (j : Join.t Ctx) (em : EventManager.t (list Event)) :
  JoinInv since f a base cap c j em ->
  increasing 0 (EventManager.persister em) = true ->
  exists j' em', joinStep pickDone j em = Ok (j', em') /\
    JoinInv since f a base cap c j' em' /\
    EventManager.persister em' = EventManager.persister em /\
    (toBlock a j' em' <= toBlock a j em - 1)%nat.
Proof.
  intros Hinv Hinc.
  pose proof Hinv
    as (Hsub & Hsince & Hopen & s & Hs & Hf & Hd & Hc & Hcap & Hbase & Hlen & Hph).
  unfold joinStep, deref. rewrite Hsub, Hs. cbn [bind].
  unfold phaseInv in Hph. destruct (Join.pc j) eqn:Hpc.
  - (* cold replay *)
    destruct Hph as (Ho & Hn & Hq).
    destruct (cold_playback pickDone since (EventManager.persister em) 0
                (Join.setLastSeq since j) Hinc) as (z & Hrun & Hmono & Hall & Hwit);
      [lia | join_simpl; lia | join_simpl; lia |].
    cbn [Playback logPersistence]. rewrite Hsince, Hd.
    change (Join.since (Join.setLastSeq since j)) with (Join.since j).
    rewrite Hsince, Hrun.
    eexists _, em. split; [reflexivity|]. split; [|split; [reflexivity|]].
    + apply (JoinInv_intro c _ em s); try assumption.
      unfold phaseInv. join_simpl.
      split; [exact Hn|]. split; [exact Hq|].
      exists (EventManager.persister em), []. rewrite app_nil_r, Ho.
      split; [reflexivity|]. split; [exact Hbase|].
      split; [reflexivity|]. cbn in Hmono.
      split; [exact Hmono|]. split; [exact Hall|]. exact Hwit.
    + unfold toBlock. rewrite Hs. unfold stepsToBlock. join_simpl. lia.
  - (* registration *)
    destruct Hph as (Hn & Hq & L1 & L2 & HL & Hb & Ho & Hcur).
    eexists _, _. split; [reflexivity|]. split; [|split; [reflexivity|]].
    + apply (JoinInv_intro c _ _ s); try assumption.
      * unfold subscribersOpen, addSubscriber.
        cbn [EventManager.subs EventManager.setSubs EventManager.emit].
        rewrite forallb_app. unfold subscribersOpen in Hopen.
        apply andb_true_iff. split; [exact Hopen|]. cbn [forallb].
        rewrite andb_true_r. apply openAt_Some. exists s. now split.
      * unfold phaseInv. join_simpl. split.
        -- exists (EventManager.subs em). now split.
        -- exists L1, L2, []. rewrite app_nil_r. close_conj.
    + unfold toBlock, addSubscriber. cbn [EventManager.heap EventManager.emit
        EventManager.setSubs]. rewrite Hs. unfold stepsToBlock. join_simpl.
      rewrite Hq. lia.
  - (* the receive of first *)
    destruct Hph as (Hat & L1 & L2 & L3 & HL & Hb & Ho & Hcur & Hq).
    unfold Chan.recv. destruct (Chan.buf (Subscriber.outgoing s)) as [|x rest] eqn:Hbuf.
    + rewrite Hc. exists j, em. split; [reflexivity|]. split; [exact Hinv|].
      split; [reflexivity|]. unfold toBlock. rewrite Hs. unfold stepsToBlock.
      rewrite Hpc, Hbuf. lia.
    + symmetry in Hq. apply filter_head in Hq as (pre & post & -> & Hpre & Hx & Hrest).
      eexists _, _. split; [reflexivity|]. split; [|split; [reflexivity|]].
      * apply (JoinInv_intro c _ _ (popped s rest)); try assumption.
        -- now apply subscribersOpen_popped.
        -- apply lookup_insert_eq.
        -- cbn in Hlen |- *. lia.
        -- unfold phaseInv. join_simpl. split; [exact Hat|].
           exists L1, (L2 ++ pre), x, post. rewrite <- app_assoc. close_conj.
      * unfold toBlock. cbn [EventManager.heap store EventManager.setHeap].
        rewrite lookup_insert_eq, Hs. unfold stepsToBlock. join_simpl.
        rewrite Hpc, Hbuf. cbn. lia.
  - (* hot replay *)
    destruct Hph as (Hat & L1 & M & x & post & HL & Hb & Hfirst & Ho & Hcur & Hq).
    pose proof (hot_step_run j em s L1 M x post) as Hrun.
    unfold joinStep, deref in Hrun. rewrite Hsub, Hs, Hpc in Hrun.
    cbn [bind] in Hrun. rewrite Hrun by first [assumption | reflexivity].
    eexists _, _. split; [reflexivity|]. split; [|split; [reflexivity|]].
    + apply (JoinInv_intro c _ _ s); try assumption.
      unfold phaseInv. join_simpl. split; [exact Hat|].
      exists (L1 ++ M), x, post. rewrite HL, Ho, <- Hq.
      rewrite <- !app_assoc. split; [reflexivity|].
      split; [rewrite length_app; lia|]. split; [exact Hfirst|].
      rewrite !app_assoc. f_equal. rewrite <- !app_assoc.
      apply replays_cover; [|exact Hcur].
      rewrite HL in Hinc.
      replace (L1 ++ M ++ x :: post) with ((L1 ++ M ++ [x]) ++ post) in Hinc
        by now rewrite <- !app_assoc.
      now apply increasing_app in Hinc as (H & _).
    + unfold toBlock. rewrite Hs. unfold stepsToBlock. join_simpl. rewrite Hpc. lia.
  - (* live loop *)
    destruct Hph as (Hat & Lp & x & Ls & HL & Hb & Hfirst & Ho).
    unfold Chan.recv. destruct (Chan.buf (Subscriber.outgoing s)) as [|y rest] eqn:Hbuf.
    + rewrite Hc. exists j, em. split; [reflexivity|]. split; [exact Hinv|].
      split; [reflexivity|]. unfold toBlock. rewrite Hs. unfold stepsToBlock.
      rewrite Hpc, Hbuf. cbn. lia.
    + rewrite Hd. cbn [andb].
      eexists _, _. split; [reflexivity|]. split; [|split; [reflexivity|]].
      * apply (JoinInv_intro c _ _ (popped s rest)); try assumption.
        -- now apply subscribersOpen_popped.
        -- apply lookup_insert_eq.
        -- cbn in Hlen |- *. lia.
        -- unfold phaseInv. join_simpl. rewrite Hpc. split; [exact Hat|].
           exists Lp, x, Ls. rewrite <- app_assoc. close_conj.
      * unfold toBlock. cbn [EventManager.heap store EventManager.setHeap].
        rewrite lookup_insert_eq, Hs. unfold stepsToBlock. join_simpl.
        rewrite Hpc, Hbuf. cbn. lia.
  - destruct Hph.
Qed.

(** Steps of the goroutine in a row. *)
Lemma joinSteps_inv (n : nat) :
  forall (c : nat) (j : Join.t Ctx) (em : EventManager.t (list Event)),
  JoinInv since f a base cap c j em ->
  increasing 0 (EventManager.persister em) = true ->
  exists j' em', joinSteps pickDone n (j, em) = Ok (j', em') /\
    JoinInv since f a base cap c j' em' /\
    EventManager.persister em' = EventManager.persister em /\
    (toBlock a j' em' <= toBlock a j em - n)%nat.
Proof.
  induction n as [|n IH]; intros c j em Hinv Hinc.
  - exists j, em. cbn. split; [reflexivity|]. split; [exact Hinv|].
    split; [reflexivity | lia].
  - cbn [joinSteps fst snd].
    destruct (tick_step c j em Hinv Hinc) as (j1 & em1 & -> & Hinv1 & Hper1 & Hm1).
    cbn [bind]. rewrite <- Hper1 in Hinc.
    destruct (IH c j1 em1 Hinv1 Hinc) as (j' & em' & Hrun & Hinv' & Hper' & Hm').
    exists j', em'. split; [exact Hrun|]. split; [exact Hinv'|].
    split; [congruence | lia].
Qed.

(** When no step is left to take the queue is empty. *)
Lemma toBlock_zero (c : nat) (j : Join.t Ctx) (em : EventManager.t (list Event)) :
  JoinInv since f a base cap c j em ->
  toBlock a j em = O -> queueLength a em = O.
Proof.
  intros (_ & _ & _ & s & Hs & _ & _ & _ & _ & _ & _ & Hph).
  unfold toBlock, queueLength, stepsToBlock, Chan.len. rewrite Hs.
  unfold phaseInv in Hph. destruct (Join.pc j).
  - destruct Hph as (_ & _ & ->). reflexivity.
  - destruct Hph as (_ & -> & _). reflexivity.
  - now destruct (Chan.buf (Subscriber.outgoing s)).
  - discriminate.
  - intros H. exact H.
  - destruct Hph.
Qed.

Lemma toBlock_bound (j : Join.t Ctx) (em : EventManager.t (list Event)) :
  (toBlock a j em <= queueLength a em + 2)%nat.
Proof.
  unfold toBlock, queueLength, stepsToBlock, Chan.len.
  destruct (EventManager.heap em !! a) as [s|]; [|lia].
  destruct (Join.pc j); try lia.
  destruct (Chan.buf (Subscriber.outgoing s)); cbn; lia.
Qed.

(** The goroutine running until it blocks: the invariant is kept and the
    queue is left empty. *)
Lemma drain_step (c : nat) (j : Join.t Ctx) (em : EventManager.t (list Event)) :
  JoinInv since f a base cap c j em ->
  increasing 0 (EventManager.persister em) = true ->
  exists j' em', joinDrain pickDone (j, em) = Ok (j', em') /\
    JoinInv since f a base cap O j' em' /\
    EventManager.persister em' = EventManager.persister em.
Proof.
  intros Hinv Hinc. unfold joinDrain. cbn [fst snd].
  assert (Hsub : Join.sub j = a) by apply Hinv. rewrite Hsub.
  destruct (joinSteps_inv (queueLength a em + 2) c j em Hinv Hinc)
    as (j' & em' & Hrun & Hinv' & Hper & Hm).
  exists j', em'. split; [exact Hrun|]. split; [|exact Hper].
  apply (JoinInv_bound c O j' em' Hinv').
  pose proof (toBlock_bound j em).
  rewrite (toBlock_zero c j' em' Hinv'); lia.
Qed.

(** Any interleaving of producers and the goroutine keeps the invariant,
    as long as the producers never run more than the capacity of the queue
    ahead of the goroutine and the log stays increasing. *)
Lemma exec_inv (steps : list Step) :
  forall (c : nat) (j : Join.t Ctx) (em : EventManager.t (list Event)),
  JoinInv since f a base cap c j em ->
  increasing 0 (EventManager.persister em ++ submitted steps) = true ->
  burstsFit cap c steps = true ->
  exists c' j' em', exec pickDone tracerStart ctx steps (j, em) = Ok (j', em') /\
    JoinInv since f a base cap c' j' em' /\
    EventManager.persister em' = EventManager.persister em ++ submitted steps.
Proof.
  induction steps as [|st steps IH]; intros c j em Hinv Hinc Hfit.
  - exists c, j, em. cbn. rewrite app_nil_r. split; [reflexivity|]. now split.
  - unfold exec. cbn [forEach]. destruct st as [e| |].
    + rewrite submitted_submit in Hinc |- *.
      cbn [burstsFit] in Hfit. apply andb_true_iff in Hfit as [Hroom Hfit].
      apply Nat.ltb_lt in Hroom.
      destruct (submit_step e c j em Hinv Hroom) as (em1 & Hrun & Hinv1 & Hper1).
      unfold step at 1. cbn [fst snd]. rewrite Hrun. cbn [bind snd].
      destruct (IH (S c) j em1 Hinv1) as (c' & j' & em' & Hexec & Hinv' & Hper').
      * rewrite Hper1, <- app_assoc. exact Hinc.
      * exact Hfit.
      * exists c', j', em'. split; [exact Hexec|]. split; [exact Hinv'|].
        rewrite Hper', Hper1. now rewrite <- app_assoc.
    + rewrite submitted_tick in Hinc |- *. cbn [burstsFit] in Hfit.
      destruct (tick_step c j em Hinv) as (j1 & em1 & Hrun & Hinv1 & Hper1 & _).
      { now apply increasing_app in Hinc as (H & _). }
      unfold step at 1. cbn [fst snd]. rewrite Hrun. cbn [bind].
      destruct (IH c j1 em1 Hinv1) as (c' & j' & em' & Hexec & Hinv' & Hper').
      * rewrite Hper1. exact Hinc.
      * exact Hfit.
      * exists c', j', em'. split; [exact Hexec|]. split; [exact Hinv'|].
        now rewrite Hper', Hper1.
    + rewrite submitted_drain in Hinc |- *. cbn [burstsFit] in Hfit.
      destruct (drain_step c j em Hinv) as (j1 & em1 & Hrun & Hinv1 & Hper1).
      { now apply increasing_app in Hinc as (H & _). }
      unfold step at 1. rewrite Hrun. cbn [bind].
      destruct (IH O j1 em1 Hinv1) as (c' & j' & em' & Hexec & Hinv' & Hper').
      * rewrite Hper1. exact Hinc.
      * exact Hfit.
      * exists c', j', em'. split; [exact Hexec|]. split; [exact Hinv'|].
        now rewrite Hper', Hper1.
Qed.



(** An increasing log splits at any sequence. *)
Lemma increasing_split (z lo : Z) (L : list Event) :
  increasing lo L = true ->
  exists X Y, L = X ++ Y /\
    (forall x, x ∈ X -> seqOf x <= z) /\ (forall y, y ∈ Y -> z < seqOf y).
Proof.
  revert lo. induction L as [|e L IH]; intros lo H.
  - exists [], []. split; [reflexivity|].
    split; intros ? Hin; now apply elem_of_nil in Hin.
  - cbn [increasing] in H. apply andb_true_iff in H as [_ H3].
    destruct (decide (seqOf e <= z)) as [Hle|Hgt].
    + destruct (IH _ H3) as (X & Y & -> & HX & HY).
      exists (e :: X), Y. split; [reflexivity|]. split; [|exact HY].
      intros x Hx. apply elem_of_cons in Hx as [->|Hx]; [exact Hle | now apply HX].
    + exists [], (e :: L). split; [reflexivity|].
      split; [intros ? Hin; now apply elem_of_nil in Hin|].
      intros y Hy. apply elem_of_cons in Hy as [->|Hy]; [lia|].
      destruct (increasing_elem _ _ _ H3 Hy) as [_ Hlt]. lia.
Qed.

(** The hot replay over an increasing log, with nobody cancelling:
    whatever the cursor and [first] are, it forwards the events above the
    cursor and not above the sequence of [first]. *)
Lemma hot_playback_upto (lo : Z) (L : list Event) (j : Join.t Ctx) :
  increasing 0 L = true ->
  exists err,
    playbackLog lo (hotVisit pickDone false) L j =
      (Join.sendAll (replayedUpTo lo (sequenceForEvent (Join.first j)) L) j, err) /\
    (err = None \/ err = Some ErrCaughtUp).
Proof.
  intros Hinc.
  destruct (increasing_split (sequenceForEvent (Join.first j)) 0 L Hinc)
    as (X & Y & HL & HX & HY).
  destruct (hot_playback pickDone lo X Y j) as (err & Hrun & Herr).
  { intros e He. split; [|now apply HX].
    apply (increasing_elem 0 L); [exact Hinc|]. rewrite HL, elem_of_app. now left. }
  { intros e He. split; [|now apply HY].
    apply (increasing_elem 0 L); [exact Hinc|]. rewrite HL, elem_of_app. now right. }
  exists err. split; [|exact Herr]. rewrite HL, Hrun. f_equal. f_equal.
  unfold replayedUpTo. rewrite filter_app.
  rewrite (filter_none (λ e, lo < seqOf e <= sequenceForEvent (Join.first j)) Y).
  - rewrite app_nil_r. apply filter_ext_elem. intros e He.
    specialize (HX e He). lia.
  - intros e He. specialize (HY e He). lia.
Qed.
End JoinFacts.

(** ** The join coordinator, end to end *)

Lemma increasing_NoDup (lo : Z) (L : list Event) :
  increasing lo L = true -> NoDup (seqOf <$> L).
Proof.
  revert lo. induction L as [|x L IH]; intros lo H; [constructor|].
  cbn [increasing] in H. apply andb_true_iff in H as [_ H3].
  rewrite fmap_cons. apply NoDup_cons. split; [|now apply (IH (seqOf x))].
  intros Hin. apply list_elem_of_fmap in Hin as (y & Heq & Hy).
  destruct (increasing_elem _ _ _ H3 Hy) as [_ Hlt]. lia.
Qed.

Section JoinTheorems.
Context {Ctx : Type}.
Variable pickDone : nat -> Event -> bool.
Variable tracerStart : string -> Ctx -> Ctx.

(** What the goroutine has sent is a sublist of the log: log order, and
    nothing twice. *)
Lemma inv_out_sublist (since : Z) (f : Event -> bool) (a base cap c : nat)
    (j : Join.t Ctx) (em : EventManager.t (list Event)) :
  JoinInv since f a base cap c j em ->
  Join.out j `sublist_of` EventManager.persister em.
Proof.
  intros (_ & _ & _ & s & _ & _ & _ & _ & _ & _ & _ & Hph).
  unfold phaseInv in Hph. destruct (Join.pc j).
  - destruct Hph as (-> & _). apply sublist_nil_l.
  - destruct Hph as (_ & _ & L1 & L2 & -> & _ & -> & _).
    apply sublist_inserts_r, sublist_filter.
  - destruct Hph as (_ & L1 & L2 & L3 & -> & _ & -> & _).
    apply sublist_inserts_r, sublist_filter.
  - destruct Hph as (_ & L1 & M & x & post & -> & _ & _ & -> & _).
    apply sublist_inserts_r, sublist_filter.
  - destruct Hph as (_ & Lp & x & Ls & -> & _ & _ & Ho).
    transitivity (Join.out j ++ Chan.buf (Subscriber.outgoing s)).
    + now apply sublist_inserts_r.
    + rewrite Ho. replace (Lp ++ x :: Ls) with ((Lp ++ [x]) ++ Ls)
        by now rewrite <- app_assoc.
      apply sublist_app; apply sublist_filter.
  - destruct Hph.
Qed.

(** The invariant holds when [Subscribe] returns. *)
Lemma Subscribe_inv (ctx : Ctx) (ident : string) (flt : option (Event -> bool))
    (since : Z) (em0 : EventManager.t (list Event)) :
  wellFormed em0 = true ->
  exists j0,
    task (Subscribe ctx ident flt (Some since) em0).1 = Some j0 /\
    JoinInv since (filterOrAll flt) (EventManager.nextAddr em0)
      (length (EventManager.persister em0)) (EventManager.bufferSize em0) O
      j0 (Subscribe ctx ident flt (Some since) em0).2.
Proof.
  intros Hwf. unfold wellFormed in Hwf. apply andb_true_iff in Hwf as [Hopen Hbelow].
  rewrite forallb_forall in Hbelow.
  assert (Hfresh : EventManager.nextAddr em0 ∉ EventManager.subs em0).
  { intros Hin. apply list_elem_of_In, Hbelow, Nat.ltb_lt in Hin. lia. }
  unfold Subscribe. cbn [fst snd task]. eexists. split; [reflexivity|].
  apply (JoinInv_intro _ _ _ _ _ _ _ _
           (Subscriber.Build (Chan.make (EventManager.bufferSize em0))
              (filterOrAll flt) false false false ident ident ident));
    try reflexivity.
  - unfold subscribersOpen in *. cbn [EventManager.subs EventManager.setNextAddr
      store EventManager.setHeap].
    rewrite forallb_forall in Hopen |- *. intros b Hb.
    rewrite <- (Hopen b Hb). unfold openAt.
    cbn [EventManager.heap EventManager.setNextAddr store EventManager.setHeap].
    rewrite lookup_insert_ne; [reflexivity|].
    apply Hbelow, Nat.ltb_lt in Hb. lia.
  - cbn. apply lookup_insert_eq.
  - unfold phaseInv. cbn. now repeat split.
Qed.

(** Any interleaving of [AddEvent] calls with the steps of the goroutine
    runs to the end without a panic and keeps the invariant, when the log
    is increasing and the producers never run more than the capacity of the
    queue ahead of the goroutine. *)
Lemma join_run (ctx : Ctx) (ident : string) (flt : option (Event -> bool))
    (since : Z) (em0 : EventManager.t (list Event)) (steps : list Step) :
  wellFormed em0 = true ->
  increasing 0 (EventManager.persister em0 ++ submitted steps) = true ->
  burstsFit (EventManager.bufferSize em0) 0 steps = true ->
  exists j0 j em c,
    task (Subscribe ctx ident flt (Some since) em0).1 = Some j0 /\
    exec pickDone tracerStart ctx steps
      (j0, (Subscribe ctx ident flt (Some since) em0).2) = Ok (j, em) /\
    JoinInv since (filterOrAll flt) (EventManager.nextAddr em0)
      (length (EventManager.persister em0)) (EventManager.bufferSize em0) c j em /\
    EventManager.persister em = EventManager.persister em0 ++ submitted steps.
Proof.
  intros Hwf Hinc Hfit.
  destruct (Subscribe_inv ctx ident flt since em0 Hwf) as (j0 & Htask & Hinv).
  destruct (exec_inv pickDone tracerStart ctx since (filterOrAll flt)
              (EventManager.nextAddr em0) (length (EventManager.persister em0))
              (EventManager.bufferSize em0) steps O j0 _ Hinv)
    as (c & j & em & Hexec & Hinv' & Hper).
  - exact Hinc.
  - exact Hfit.
  - exists j0, j, em, c. split; [exact Htask|]. split; [exact Hexec|]. now split.
Qed.

(** What does hold of the handoff. Over the synchronous persister, which
    broadcasts an event in the step that appends it, and a log of
    repository events with increasing positive sequences, no sequence
    number is sent twice on the returned channel, however the producers'
    [AddEvent] calls interleave with the cold replay, the registration, the
    receive of [first], the hot replay and the final loop, as long as the
    producers never run more than the capacity of the queue ahead of the
    goroutine (nobody is evicted). *)
Theorem join_no_sequence_twice (ctx : Ctx) (ident : string)
    (flt : option (Event -> bool)) (since : Z)
    (em0 : EventManager.t (list Event)) (steps : list Step) :
  wellFormed em0 = true ->
  increasing 0 (EventManager.persister em0 ++ submitted steps) = true ->
  burstsFit (EventManager.bufferSize em0) 0 steps = true ->
  exists j0 j em,
    task (Subscribe ctx ident flt (Some since) em0).1 = Some j0 /\
    exec pickDone tracerStart ctx steps
      (j0, (Subscribe ctx ident flt (Some since) em0).2) = Ok (j, em) /\
    NoDup (seqOf <$> Join.out j).
Proof.
  intros Hwf Hinc Hfit.
  destruct (join_run ctx ident flt since em0 steps Hwf Hinc Hfit)
    as (j0 & j & em & c & Htask & Hexec & Hinv & Hper).
  exists j0, j, em. split; [exact Htask|]. split; [exact Hexec|].
  apply (sublist_NoDup _ (seqOf <$> EventManager.persister em)).
  - rewrite Hper. now apply (increasing_NoDup 0).
  - apply fmap_sublist. now apply (inv_out_sublist _ _ _ _ _ _ _ _ Hinv).
Qed.

(** Once the goroutine is in its final loop with [first] in hand, what it
    has sent and what is still queued make up: every event above the
    cursor up to and including the one that carries the sequence of
    [first], whatever the filter says of them, and after that the events
    the filter accepts. *)
Lemma join_live_delivered (since : Z) (f : Event -> bool) (a base cap c : nat)
    (j : Join.t Ctx) (em : EventManager.t (list Event)) :
  JoinInv since f a base cap c j em ->
  Join.pc j = Live ->
  exists s Lp x Ls,
    EventManager.heap em !! a = Some s /\
    EventManager.persister em = Lp ++ x :: Ls /\ (base <= length Lp)%nat /\
    Join.first j = Some x /\
    Join.out j ++ Chan.buf (Subscriber.outgoing s) =
      filter (λ e, since < seqOf e) (Lp ++ [x]) ++ filter (λ e, f e = true) Ls.
Proof.
  intros (_ & _ & _ & s & Hs & _ & _ & _ & _ & _ & _ & Hph) Hpc.
  unfold phaseInv in Hph. rewrite Hpc in Hph.
  destruct Hph as (_ & Lp & x & Ls & HL & Hb & Hfirst & Ho).
  exists s, Lp, x, Ls. now repeat split.
Qed.

End JoinTheorems.

Lemma join_no_sequence_twice_witness :
  exists j0 j em,
    task (Subscribe tt "c1" None (Some 0) seededBroker).1 = Some j0 /\
    exec neverDone sameCtx tt handoff
      (j0, (Subscribe tt "c1" None (Some 0) seededBroker).2) = Ok (j, em) /\
    NoDup (seqOf <$> Join.out j).
Proof.
  apply (join_no_sequence_twice neverDone sameCtx tt "c1" None 0 seededBroker handoff).
  - reflexivity.
  - reflexivity.
  - reflexivity.
Defined.


(** The run [handoff] does reach the final loop with an empty queue, and
    delivers sequences 1 to 15. *)
Lemma handoff_delivers :
  runSummary None 0 handoff =
    Some ([1; 2; 3; 4; 5; 6; 7; 8; 9; 10; 11; 12; 13; 14; 15], true,
          [1; 2; 3; 4; 5; 6; 7; 8; 9; 10; 11; 12; 13; 14; 15]).
Proof. vm_compute. reflexivity. Qed.


(** A cursor ahead of the log: with cursor 10 on a log that ends at 2, the
    first live event (commit 3) is dropped and commit 4, which lies below
    the cursor, is delivered from the live queue. *)
Lemma cursor_ahead_of_log :
  runSummary None 10 aheadTraffic = Some ([4], true, []).
Proof. vm_compute. reflexivity. Qed.

(** An event appended between the cold replay and the registration waits
    for the first live event: with the log at 1, 2, commit 3 appended after
    the cold replay and no event after the registration, the goroutine has
    run until it blocks on the receive of [first], the channel has carried
    1, 2 and the log holds 1, 2, 3. *)
Lemma join_waits_for_first_live_event :
  runSummary None 0 [Tick; Submit (commitEvent 3); Tick; Drain] =
    Some ([1; 2], false, [1; 2; 3]) /\
  seamRun 0 [Tick; Submit (commitEvent 3); Tick; Drain] [] =
    Some (None, AwaitFirst, [commitEvent 1; commitEvent 2],
          [commitEvent 1; commitEvent 2]).
Proof. split; vm_compute; reflexivity. Qed.

(** ** The seam around the first live event *)

(** With a [first] that has no sequence the comparator of the hot replay
    fires on every sequenced event. *)
Lemma hotVisit_unsequenced_first {Ctx : Type} (pickDone : nat -> Event -> bool)
    (d : bool) (e : Event) (j : Join.t Ctx) :
  sequenceForEvent (Join.first j) = -1 -> 0 <= seqOf e ->
  hotVisit pickDone d e j = (j, Some ErrCaughtUp).
Proof.
  intros Hfirst Hseq. unfold hotVisit. fold (seqOf e). rewrite Hfirst.
  assert (H : (-1 <? seqOf e) = true) by (apply Z.ltb_lt; lia).
  now rewrite H.
Qed.

(** C3, at inputs where the code departs from the claim. On a stream of
    label batches, for which [sequenceForEvent] reads -1 (the missing case
    of C8), the cursor of the cold replay never moves and the comparator of
    the hot replay never fires: with batches 1 and 2 in the log and batch 3
    broadcast once the subscriber is registered, the hot replay forwards
    the whole log again and the channel carries the sequences 1, 2, 1, 2,
    3. On a stream of commits the same happens at the seam when the
    persister broadcasts after the append rather than with it: commits 1
    and 2 are in the log when the cold replay runs and are broadcast only
    after the registration, so [first] is commit 1, which lies below the
    cursor 2 the cold replay ended on; the hot replay forwards nothing and
    the final loop sends commit 2 again. The channel carries 1, 2, 2, 3
    while the log holds 1, 2, 3. *)
Theorem join_sends_sequence_twice :
  labelRun = Some [Some 1; Some 2; Some 1; Some 2; Some 3] /\
  ~ NoDup [Some 1; Some 2; Some 1; Some 2; Some 3] /\
  match batchedRun 4 with
  | Ok (j, em) =>
    Join.first j = Some (commitEvent 1) /\ Join.pc j = Live /\
    seqOf <$> Join.out j = [1; 2; 2; 3] /\
    seqOf <$> Batched.log (EventManager.persister em) = [1; 2; 3] /\
    Batched.pending (EventManager.persister em) = []
  | Panic _ => False
  end /\
  ~ NoDup [1; 2; 2; 3].
Proof.
  split; [vm_compute; reflexivity|]. split.
  { intros H. apply NoDup_cons in H as [H _]. apply H. constructor. constructor. }
  split; [vm_compute; now repeat split|].
  intros H. apply NoDup_cons in H as [_ H]. apply NoDup_cons in H as [H _].
  apply H. constructor.
Qed.

(** C2, at an input where the code departs from the claim: the first live
    event is an info frame, whose sequence reads -1. The hot replay from
    cursor 2 over a log that holds commits 3 and 4 above the cursor stops at
    commit 3 with the caught-up sentinel and forwards nothing, where the
    claim has it forward 3 and 4 and end with the log. In the whole run
    commit 3, appended between the cold replay and the registration, is
    never delivered: the channel carries 1, 2, 4. *)
Theorem hot_replay_stops_on_unsequenced_first :
  sequenceForEvent (Join.first hotAfterInfo) = -1 /\
  playbackLog 2 (hotVisit neverDone false)
    [commitEvent 1; commitEvent 2; commitEvent 3; commitEvent 4] hotAfterInfo =
    (hotAfterInfo, Some ErrCaughtUp) /\
  runSummary None 0 infoFirst = Some ([1; 2; 4], true, [1; 2; 3; 4]).
Proof. split; [reflexivity|]. split; [reflexivity|]. vm_compute. reflexivity. Qed.

(** C4, where the claim fails: there is no step that sends [first], so a
    [first] that the hot replay does not find in the log above its cursor
    never reaches the merged channel. The first live event is an info
    frame, which the log does not replay: the hot replay ends with the
    caught-up sentinel, the goroutine is in its final loop having sent
    commits 1 and 2, drains commit 4, and the info frame is not sent at all.
    With a cursor of 4, ahead of a log that ends at 2, [first] is commit 3:
    the hot replay stops at commit 5 with the caught-up sentinel having
    forwarded nothing, and the channel carries commits 4 and 5 only. Over
    the persister that broadcasts in batches [first] is commit 1, which the
    cold replay had sent: after the hot replay the channel still carries 1,
    2, and the next values sent are 2 and 3, the rest of the queue. *)
Lemma first_is_not_sent_after_hot_replay :
  playbackLog 2 (hotVisit neverDone false)
    [commitEvent 1; commitEvent 2; commitEvent 3; infoEvent "OutdatedCursor";
     commitEvent 4] hotAfterInfo = (hotAfterInfo, Some ErrCaughtUp) /\
  seamRun 0
    [Tick; Submit (commitEvent 3); Tick; Submit (infoEvent "OutdatedCursor");
     Submit (commitEvent 4); Tick; Tick] [Drain] =
    Some (Some (infoEvent "OutdatedCursor"), Live,
          [commitEvent 1; commitEvent 2],
          [commitEvent 1; commitEvent 2; commitEvent 4]) /\
  (infoEvent "OutdatedCursor" ∉ [commitEvent 1; commitEvent 2; commitEvent 4]) /\
  playbackLog 4 (hotVisit neverDone false)
    [commitEvent 1; commitEvent 2; commitEvent 3; commitEvent 4; commitEvent 5]
    hotAhead = (hotAhead, Some ErrCaughtUp) /\
  seamRun 4
    [Tick; Tick; Submit (commitEvent 3); Submit (commitEvent 4);
     Submit (commitEvent 5); Tick; Tick] [Drain] =
    Some (Some (commitEvent 3), Live, [], [commitEvent 4; commitEvent 5]) /\
  (commitEvent 3 ∉ [commitEvent 4; commitEvent 5]) /\
  match batchedRun 2, batchedRun 4 with
  | Ok (j2, _), Ok (j4, _) =>
    Join.first j2 = Some (commitEvent 1) /\ Join.pc j2 = Live /\
    Join.out j2 = [commitEvent 1; commitEvent 2] /\
    Join.out j4 = [commitEvent 1; commitEvent 2; commitEvent 2; commitEvent 3]
  | _, _ => False
  end.
Proof.
  split; [reflexivity|]. split; [vm_compute; reflexivity|]. split.
  { intros H. repeat (apply elem_of_cons in H as [H|H]; [discriminate|]).
    now apply elem_of_nil in H. }
  split; [reflexivity|]. split; [vm_compute; reflexivity|]. split.
  { intros H. repeat (apply elem_of_cons in H as [H|H]; [discriminate|]).
    now apply elem_of_nil in H. }
  vm_compute. now repeat split.
Qed.

(** The run [handoffToFirst] takes the goroutine to its hot replay with
    commit 4 as [first], cursor 2 and commits 1 and 2 sent: the state
    [hotAfterCommit]. *)
Lemma handoff_reaches_hot_replay :
  seamRun 0 handoffToFirst [] =
    Some (Join.first hotAfterCommit, Join.pc hotAfterCommit,
          Join.out hotAfterCommit, Join.out hotAfterCommit).
Proof. vm_compute. reflexivity. Qed.

Section HandoffFacts.
Context {Ctx : Type}.
Variable pickDone : nat -> Event -> bool.

(** C4, as the code has it. The goroutine stands before its hot replay
    with a repository event as [first], nobody has cancelled, and the log
    holds repository events with positive increasing sequences. Then the
    hot replay forwards exactly the events of the log with a sequence above
    its cursor [lastSeq] and not above that of [first], in log order, and
    the goroutine goes to its final loop, whether the replay ended with the
    caught-up sentinel or with the log. Each pass of the loop sends the
    next queued event, and with the queue empty nothing is sent. No step
    sends [first]: when [first] is in the log above the cursor its
    persisted copy is the last event the hot replay forwards, and when the
    sequence of [first] is not above the cursor the hot replay forwards
    nothing. *)
Theorem hot_replay_then_live_loop (j : Join.t Ctx) (em : EventManager.t (list Event))
    (s : Subscriber.t) (x : Event) :
  Join.pc j = Hot ->
  EventManager.heap em !! Join.sub j = Some s ->
  Subscriber.done s = false ->
  Join.first j = Some x ->
  isRepoEvent x = true ->
  increasing 0 (EventManager.persister em) = true ->
  exists fwd j',
    fwd = replayedUpTo (Join.lastSeq j) (seqOf x) (EventManager.persister em) /\
    j' = Join.goto Live (Join.sendAll fwd j) /\
    joinStep pickDone j em = Ok (j', em) /\
    (x ∈ EventManager.persister em -> Join.lastSeq j < seqOf x -> last fwd = Some x) /\
    (seqOf x <= Join.lastSeq j -> fwd = []) /\
    (forall y rest,
       Chan.buf (Subscriber.outgoing s) = y :: rest ->
       joinStep pickDone j' em =
         Ok (Join.send y j', store (Join.sub j) (popped s rest) em)) /\
    (Chan.buf (Subscriber.outgoing s) = [] ->
     Chan.closed (Subscriber.outgoing s) = false ->
     joinStep pickDone j' em = Ok (j', em)).
Proof.
  intros Hpc Hs Hd Hfirst Hrepo Hinc.
  eexists _, _. split; [reflexivity|]. split; [reflexivity|].
  split; [|split; [|split; [|split]]].
  - destruct (hot_playback_upto pickDone (Join.lastSeq j) (EventManager.persister em) j Hinc)
      as (err & Hrun & Herr).
    rewrite Hfirst in Hrun. fold (seqOf x) in Hrun.
    unfold joinStep, deref. rewrite Hs, Hpc. cbn [bind Playback logPersistence].
    rewrite Hd, Hrun. now destruct Herr as [->| ->].
  - intros Hin Hlt. apply list_elem_of_split in Hin as (pre & post & HL).
    rewrite HL in Hinc |- *.
    replace (pre ++ x :: post) with ((pre ++ [x]) ++ post) in Hinc |- *
      by now rewrite <- app_assoc.
    destruct (increasing_app _ _ _ Hinc) as (HincX & _ & Hcross).
    unfold replayedUpTo. rewrite !filter_app.
    rewrite (filter_none (λ e, Join.lastSeq j < seqOf e <= seqOf x) post).
    + rewrite app_nil_r. rewrite (filter_cons_True _ x []) by lia.
      rewrite filter_nil. apply last_snoc.
    + intros e He. specialize (Hcross x e). 
      assert (seqOf x < seqOf e); [|lia].
      apply Hcross; [|exact He]. rewrite elem_of_app. right. left.
  - intros Hle. apply filter_none. intros e He. lia.
  - intros y rest Hbuf.
    exact (live_step_run pickDone
             (Join.goto Live
                (Join.sendAll
                   (replayedUpTo (Join.lastSeq j) (seqOf x) (EventManager.persister em)) j))
             em s y rest Hs Hd eq_refl Hbuf).
  - intros Hbuf Hc. unfold joinStep, deref.
    cbn [Join.sub Join.goto Join.sendAll Join.pc]. rewrite Hs. cbn [bind].
    unfold Chan.recv. now rewrite Hbuf, Hc.
Qed.
End HandoffFacts.

Lemma hot_replay_then_live_loop_witness :
  exists fwd j',
    fwd = replayedUpTo (Join.lastSeq hotAfterCommit) (seqOf (commitEvent 4))
            (EventManager.persister hotBroker) /\
    j' = Join.goto Live (Join.sendAll fwd hotAfterCommit) /\
    joinStep neverDone hotAfterCommit hotBroker = Ok (j', hotBroker) /\
    (commitEvent 4 ∈ EventManager.persister hotBroker ->
     Join.lastSeq hotAfterCommit < seqOf (commitEvent 4) ->
     last fwd = Some (commitEvent 4)) /\
    (seqOf (commitEvent 4) <= Join.lastSeq hotAfterCommit -> fwd = []) /\
    (forall y rest,
       Chan.buf (Subscriber.outgoing (plainSubscriber "c1" 8 [handleEvent 5])) =
         y :: rest ->
       joinStep neverDone j' hotBroker =
         Ok (Join.send y j',
             store (Join.sub hotAfterCommit)
               (popped (plainSubscriber "c1" 8 [handleEvent 5]) rest) hotBroker)) /\
    (Chan.buf (Subscriber.outgoing (plainSubscriber "c1" 8 [handleEvent 5])) = [] ->
     Chan.closed (Subscriber.outgoing (plainSubscriber "c1" 8 [handleEvent 5])) = false ->
     joinStep neverDone j' hotBroker = Ok (j', hotBroker)).
Proof.
  apply (hot_replay_then_live_loop neverDone hotAfterCommit hotBroker
           (plainSubscriber "c1" 8 [handleEvent 5]) (commitEvent 4)).
  - reflexivity.
  - reflexivity.
  - reflexivity.
  - reflexivity.
  - reflexivity.
  - reflexivity.
Defined.

(** ** The subscriber list *)

Section SubscriberList.
Context {P : Type}.

Lemma rmSubscriber_subs (a : nat) (em : EventManager.t P) :
  EventManager.subs (rmSubscriber a em) =
    match list_find (λ s, s = a) (EventManager.subs em) with
    | Some (i, _) =>
      match EventManager.subs em !! (length (EventManager.subs em) - 1)%nat with
      | Some x => take (length (EventManager.subs em) - 1)
                    (<[i := x]> (EventManager.subs em))
      | None => EventManager.subs em
      end
    | None => EventManager.subs em
    end.
Proof.
  destruct em as [l ? ? ? ? ? ? ?]. unfold rmSubscriber. cbn.
  destruct (list_find _ l) as [[i x]|]; [|reflexivity].
  now destruct (l !! _).
Qed.

(** X1: [rmSubscriber] on a subscriber that is not registered leaves the
    list as it is; on a registered one it takes out exactly one occurrence
    and keeps every other entry (the order may change: the last entry moves
    into the freed slot). *)
Theorem rmSubscriber_permutation (a : nat) (em : EventManager.t P) :
  if decide (a ∈ EventManager.subs em)
  then a :: EventManager.subs (rmSubscriber a em) ≡ₚ EventManager.subs em
  else EventManager.subs (rmSubscriber a em) = EventManager.subs em.
Proof.
  rewrite rmSubscriber_subs. generalize (EventManager.subs em). intros l.
  destruct (list_find (λ s, s = a) l) as [[i x]|] eqn:Hf.
  - apply list_find_Some in Hf as (Hi & -> & _).
    rewrite decide_True by (eapply list_elem_of_lookup_2; exact Hi).
    pose proof (lookup_lt_Some _ _ _ Hi) as Hlt.
    assert (Hsplit : exists pre post, l = pre ++ a :: post /\ length pre = i).
    { exists (take i l), (drop (S i) l). split.
      - symmetry. now apply take_drop_middle.
      - rewrite length_take. lia. }
    destruct Hsplit as (pre & post & -> & Hti). clear Hlt.
    destruct post as [|y rest _] using rev_ind.
    + (* the subscriber is the last entry *)
      rewrite length_app. cbn [length].
      replace (length pre + 1 - 1)%nat with (length pre) by lia.
      rewrite lookup_app_r by lia. rewrite Nat.sub_diag. cbn [lookup list_lookup].
      rewrite list_insert_id by exact Hi.
      rewrite take_app_length. apply Permutation_cons_append.
    + (* the last entry moves into its slot *)
      assert (Hlen : (length (pre ++ a :: rest ++ [y]) - 1 =
                      length (pre ++ a :: rest))%nat).
      { rewrite !length_app. cbn. rewrite length_app. cbn. lia. }
      rewrite Hlen.
      replace (pre ++ a :: rest ++ [y]) with ((pre ++ a :: rest) ++ [y])
        by now rewrite <- app_assoc.
      rewrite lookup_app_r by lia. rewrite Nat.sub_diag. cbn [lookup list_lookup].
      rewrite insert_app_l by (rewrite length_app; cbn; lia).
      rewrite insert_app_r_alt by lia. rewrite Hti, Nat.sub_diag. cbn [insert list_insert].
      rewrite take_app_length' by (rewrite !length_app; cbn; lia).
      rewrite (Permutation_app_comm (pre ++ a :: rest) [y]). cbn.
      rewrite <- !Permutation_middle. apply perm_swap.
  - apply list_find_None in Hf.
    rewrite decide_False; [reflexivity|].
    intros Hin. rewrite Forall_forall in Hf. now apply (Hf a).
Qed.

(** X2: registering a subscriber and unregistering it again gives back the
    list as it was, whether or not the subscriber was already in it. *)
Theorem addSubscriber_rmSubscriber (a : nat) (em : EventManager.t P) :
  EventManager.subs (rmSubscriber a (addSubscriber a em)) = EventManager.subs em.
Proof.
  rewrite rmSubscriber_subs.
  change (EventManager.subs (addSubscriber a em)) with (EventManager.subs em ++ [a]).
  set (l := EventManager.subs em).
  assert (Hlast : (l ++ [a]) !! (length (l ++ [a]) - 1)%nat = Some a).
  { rewrite length_app. cbn. replace (length l + 1 - 1)%nat with (length l) by lia.
    rewrite lookup_app_r by lia. now rewrite Nat.sub_diag. }
  destruct (list_find (λ s, s = a) (l ++ [a])) as [[i x]|] eqn:Hf.
  - apply list_find_Some in Hf as (Hi & -> & _).
    rewrite Hlast. rewrite list_insert_id by exact Hi.
    rewrite length_app. cbn. replace (length l + 1 - 1)%nat with (length l) by lia.
    apply take_app_length.
  - apply list_find_None in Hf. rewrite Forall_forall in Hf.
    exfalso. apply (Hf a); [|reflexivity]. rewrite elem_of_app. right. left.
Qed.
End SubscriberList.

(** ** What a broadcast does to each subscriber *)

Section BroadcastDelivery.
Context {P : Type}.
Variable pickDone : nat -> Event -> bool.

(** The loop body, read backwards from a normal return. *)
Lemma broadcastOne_Ok_inv (evt : Event) (b : nat) (em em1 : EventManager.t P) :
  broadcastOne pickDone evt b em = Ok em1 ->
  exists sb, EventManager.heap em !! b = Some sb /\
    EventManager.heap em1 = <[b := afterBroadcast pickDone b evt sb]> (EventManager.heap em) /\
    sameShape em em1 /\
    EventManager.eventsEnqueued em1 =
      (if Subscriber.filter sb evt
       then Inc (Subscriber.enqueuedCounter sb) (EventManager.eventsEnqueued em)
       else EventManager.eventsEnqueued em) /\
    EventManager.eventsBroadcast em1 =
      (if Subscriber.filter sb evt
       then Inc (Subscriber.broadcastCounter sb) (EventManager.eventsBroadcast em)
       else EventManager.eventsBroadcast em).
Proof.
  unfold broadcastOne, deref, afterBroadcast.
  destruct (EventManager.heap em !! b) as [sb|] eqn:Hs; [|discriminate]. cbn [bind].
  intros H. exists sb. split; [reflexivity|].
  destruct (Subscriber.filter sb evt).
  - destruct (broadcastSelect pickDone b sb evt); cbn in H; try discriminate;
      injection H as <-; cbn; rewrite ?insert_id by exact Hs;
      (split; [reflexivity|]); (split; [now repeat split|]); now split.
  - injection H as <-. rewrite insert_id by exact Hs.
    split; [reflexivity|]. split; [apply sameShape_refl|]. now split.
Qed.

(** What the loop body can do to a subscriber's record: nothing, or queue
    the event, which takes a matching filter, an open queue and room. *)
Lemma afterBroadcast_cases (a : nat) (evt : Event) (s : Subscriber.t) :
  afterBroadcast pickDone a evt s = s \/
  (Subscriber.filter s evt = true /\
   Chan.closed (Subscriber.outgoing s) = false /\
   Chan.hasRoom (Subscriber.outgoing s) = true /\
   afterBroadcast pickDone a evt s =
     Subscriber.setOutgoing (Chan.push evt (Subscriber.outgoing s)) s).
Proof.
  unfold afterBroadcast, broadcastSelect, Chan.sendReady.
  destruct (Subscriber.filter s evt); [|now left].
  destruct (Chan.closed (Subscriber.outgoing s)), (Chan.hasRoom (Subscriber.outgoing s)),
    (Subscriber.done s), (pickDone a evt); cbn [orb andb negb];
    first [now left | right; now repeat split].
Qed.

(** The loop over a list without repetition: every listed subscriber went
    through the loop body once, the others are untouched. *)
Lemma broadcastLoop_NoDup (evt : Event) (l : list nat) :
  forall em em' : EventManager.t P,
  NoDup l ->
  forEach (broadcastOne pickDone evt) l em = Ok em' ->
  forall a s, EventManager.heap em !! a = Some s ->
    EventManager.heap em' !! a =
      Some (if decide (a ∈ l) then afterBroadcast pickDone a evt s else s).
Proof.
  induction l as [|b l IH]; intros em em' Hnd Hrun a s Hs.
  - cbn in Hrun. injection Hrun as <-. rewrite decide_False; [exact Hs|].
    apply not_elem_of_nil.
  - apply NoDup_cons in Hnd as [Hb Hnd]. cbn [forEach] in Hrun.
    destruct (broadcastOne pickDone evt b em) as [em1|] eqn:H1; [|discriminate].
    cbn [bind] in Hrun.
    apply broadcastOne_Ok_inv in H1 as (sb & Hsb & Hh1 & _).
    destruct (decide (a = b)) as [->|Hne].
    + rewrite Hsb in Hs. injection Hs as ->.
      rewrite (IH em1 em' Hnd Hrun b (afterBroadcast pickDone b evt s)).
      * rewrite decide_False by exact Hb. rewrite decide_True by left. reflexivity.
      * rewrite Hh1. apply lookup_insert_eq.
    + rewrite (IH em1 em' Hnd Hrun a s).
      * destruct (decide (a ∈ l)) as [Hin|Hnin].
        -- rewrite decide_True by (now right). reflexivity.
        -- rewrite decide_False; [reflexivity|].
           intros Hin. apply elem_of_cons in Hin as [?|?]; contradiction.
      * rewrite Hh1. rewrite lookup_insert_ne by congruence. exact Hs.
Qed.

Lemma broadcastEvent_Ok_inv (evt : Event) (em em' : EventManager.t P) :
  broadcastEvent pickDone evt em = Ok em' ->
  exists em1,
    forEach (broadcastOne pickDone evt) (EventManager.subs em)
      (EventManager.emit [Lock subsLk] em) = Ok em1 /\
    em' = EventManager.emit [Unlock subsLk] em1.
Proof.
  unfold broadcastEvent. cbn [EventManager.subs EventManager.emit].
  destruct (forEach _ _ _) as [em1|]; [|discriminate].
  cbn [bind]. intros [= <-]. now exists em1.
Qed.

(** X3: what one broadcast does to a subscriber, when each subscriber is
    registered once and the broadcast returns: its record is left as it
    was, or the event is appended at the back of its queue. The event is
    appended only for a registered subscriber whose filter accepts it and
    whose queue is open and has room; nothing else in the record changes. *)
Theorem broadcastEvent_delivery (evt : Event) (em em' : EventManager.t P)
    (a : nat) (s : Subscriber.t) :
  broadcastEvent pickDone evt em = Ok em' ->
  NoDup (EventManager.subs em) ->
  EventManager.heap em !! a = Some s ->
  EventManager.heap em' !! a = Some s \/
  (a ∈ EventManager.subs em /\ Subscriber.filter s evt = true /\
   Chan.closed (Subscriber.outgoing s) = false /\
   Chan.hasRoom (Subscriber.outgoing s) = true /\
   EventManager.heap em' !! a =
     Some (Subscriber.setOutgoing (Chan.push evt (Subscriber.outgoing s)) s)).
Proof.
  intros Hrun Hnd Hs.
  apply broadcastEvent_Ok_inv in Hrun as (em1 & Hloop & ->).
  cbn [EventManager.heap EventManager.emit].
  rewrite (broadcastLoop_NoDup evt _ _ em1 Hnd Hloop a s Hs).
  destruct (decide (a ∈ EventManager.subs em)) as [Hin|Hnin]; [|now left].
  destruct (afterBroadcast_cases a evt s) as [->|(Hf & Hc & Hr & ->)]; [now left|].
  right. now repeat split.
Qed.

(** X4: a subscriber that is registered once, has not been cancelled, has
    room in its queue and a filter that accepts the event is handed the
    event by a broadcast whatever state the other subscribers are in (full,
    cancelled, not matching), as long as their queues are open. *)
Theorem broadcastEvent_isolation (evt : Event) (em : EventManager.t P)
    (a : nat) (s : Subscriber.t) :
  subscribersOpen em = true ->
  NoDup (EventManager.subs em) ->
  a ∈ EventManager.subs em ->
  EventManager.heap em !! a = Some s ->
  Subscriber.done s = false ->
  Chan.hasRoom (Subscriber.outgoing s) = true ->
  Subscriber.filter s evt = true ->
  exists em', broadcastEvent pickDone evt em = Ok em' /\
    EventManager.heap em' !! a =
      Some (Subscriber.setOutgoing (Chan.push evt (Subscriber.outgoing s)) s).
Proof.
  intros Hopen Hnd Hin Hs Hd Hr Hf.
  destruct (broadcastEvent_ok pickDone evt em Hopen) as (em' & Hrun & _).
  exists em'. split; [exact Hrun|].
  assert (Hc : Chan.closed (Subscriber.outgoing s) = false).
  { unfold subscribersOpen in Hopen. rewrite forallb_forall in Hopen.
    apply list_elem_of_In, Hopen, openAt_Some in Hin as (s' & Hs' & Hc).
    rewrite Hs in Hs'. now injection Hs' as <-. }
  apply broadcastEvent_Ok_inv in Hrun as (em1 & Hloop & ->).
  cbn [EventManager.heap EventManager.emit].
  rewrite (broadcastLoop_NoDup evt _ _ em1 Hnd Hloop a s Hs).
  rewrite decide_True by exact Hin.
  rewrite (afterBroadcast_room pickDone a s evt Hd Hc Hr). now rewrite Hf.
Qed.

Lemma afterBroadcast_bounded (a : nat) (evt : Event) (s : Subscriber.t) :
  (Chan.len (Subscriber.outgoing s) <= Chan.cap (Subscriber.outgoing s))%nat ->
  (Chan.len (Subscriber.outgoing (afterBroadcast pickDone a evt s)) <=
   Chan.cap (Subscriber.outgoing (afterBroadcast pickDone a evt s)))%nat.
Proof.
  intros Hb. destruct (afterBroadcast_cases a evt s) as [->|(_ & _ & Hr & ->)];
    [exact Hb|].
  unfold Chan.hasRoom in Hr. apply Nat.ltb_lt in Hr.
  unfold Chan.len in *. cbn. rewrite length_app. cbn. lia.
Qed.

Lemma afterBroadcast_labels (a : nat) (evt : Event) (s : Subscriber.t) :
  Subscriber.enqueuedCounter (afterBroadcast pickDone a evt s) =
    Subscriber.enqueuedCounter s /\
  Subscriber.broadcastCounter (afterBroadcast pickDone a evt s) =
    Subscriber.broadcastCounter s.
Proof.
  destruct (afterBroadcast_cases a evt s) as [->|(_ & _ & _ & ->)]; now split.
Qed.

(** X5: a broadcast that returns never leaves a queue longer than its
    capacity. *)
Theorem broadcastEvent_bounded (evt : Event) (em em' : EventManager.t P) :
  broadcastEvent pickDone evt em = Ok em' ->
  queuesBounded em -> queuesBounded em'.
Proof.
  intros Hrun. apply broadcastEvent_Ok_inv in Hrun as (em1 & Hloop & ->).
  unfold queuesBounded. cbn [EventManager.heap EventManager.emit].
  change (EventManager.heap em)
    with (EventManager.heap (EventManager.emit [Lock subsLk] em)).
  revert Hloop. generalize (EventManager.emit [Lock subsLk] em).
  generalize (EventManager.subs em). intros l. revert em1.
  induction l as [|b l IH]; intros em1 em0 Hloop Hb.
  - cbn in Hloop. now injection Hloop as <-.
  - cbn [forEach] in Hloop.
    destruct (broadcastOne pickDone evt b em0) as [em2|] eqn:H1; [|discriminate].
    cbn [bind] in Hloop. apply (IH em1 em2 Hloop).
    apply broadcastOne_Ok_inv in H1 as (sb & Hsb & -> & _).
    apply map_Forall_insert_2; [|exact Hb].
    apply afterBroadcast_bounded. exact (Hb b sb Hsb).
Qed.

(** X6: the two counter vectors move in step. When every subscriber has
    its two counters under the same label, as [Subscribe] makes them, and
    the vectors agree before a broadcast, they agree after it: the
    broadcast counter counts the events offered to matching subscribers,
    not the events queued. *)
Theorem broadcastEvent_counters_agree (evt : Event) (em em' : EventManager.t P) :
  broadcastEvent pickDone evt em = Ok em' ->
  labelsAgree em ->
  EventManager.eventsEnqueued em = EventManager.eventsBroadcast em ->
  EventManager.eventsEnqueued em' = EventManager.eventsBroadcast em' /\ labelsAgree em'.
Proof.
  intros Hrun. apply broadcastEvent_Ok_inv in Hrun as (em1 & Hloop & ->).
  unfold labelsAgree.
  cbn [EventManager.heap EventManager.emit EventManager.eventsEnqueued
       EventManager.eventsBroadcast].
  change (EventManager.heap em)
    with (EventManager.heap (EventManager.emit [Lock subsLk] em)).
  change (EventManager.eventsEnqueued em)
    with (EventManager.eventsEnqueued (EventManager.emit [Lock subsLk] em)).
  change (EventManager.eventsBroadcast em)
    with (EventManager.eventsBroadcast (EventManager.emit [Lock subsLk] em)).
  revert Hloop. generalize (EventManager.emit [Lock subsLk] em).
  generalize (EventManager.subs em). intros l. revert em1.
  induction l as [|b l IH]; intros em1 em0 Hloop Hl Heq.
  - cbn in Hloop. injection Hloop as <-. now split.
  - cbn [forEach] in Hloop.
    destruct (broadcastOne pickDone evt b em0) as [em2|] eqn:H1; [|discriminate].
    cbn [bind] in Hloop.
    apply broadcastOne_Ok_inv in H1 as (sb & Hsb & Hh & _ & He & Hbc).
    apply (IH em1 em2 Hloop).
    + rewrite Hh. apply map_Forall_insert_2; [|exact Hl].
      destruct (afterBroadcast_labels b evt sb) as [-> ->]. exact (Hl b sb Hsb).
    + rewrite He, Hbc. destruct (Subscriber.filter sb evt); [|exact Heq].
      now rewrite (Hl b sb Hsb), Heq.
Qed.
End BroadcastDelivery.

Lemma mixedBroker_NoDup : NoDup (EventManager.subs mixedBroker).
Proof. apply (bool_decide_unpack _). vm_compute. exact I. Defined.

Lemma mixedBroker_bounded : queuesBounded mixedBroker.
Proof.
  apply map_Forall_insert_2; [cbn; lia|].
  apply map_Forall_singleton. cbn. lia.
Defined.

Lemma mixedBroker_labels : labelsAgree mixedBroker.
Proof.
  apply map_Forall_insert_2; [reflexivity|].
  now apply map_Forall_singleton.
Defined.

Lemma broadcastEvent_delivery_witness :
  EventManager.heap mixedAfter !! 0%nat = Some (plainSubscriber "slow" 1 [commitEvent 1]) \/
  (0%nat ∈ EventManager.subs mixedBroker /\
   Subscriber.filter (plainSubscriber "slow" 1 [commitEvent 1]) (commitEvent 2) = true /\
   Chan.closed (Subscriber.outgoing (plainSubscriber "slow" 1 [commitEvent 1])) = false /\
   Chan.hasRoom (Subscriber.outgoing (plainSubscriber "slow" 1 [commitEvent 1])) = true /\
   EventManager.heap mixedAfter !! 0%nat =
     Some (Subscriber.setOutgoing
             (Chan.push (commitEvent 2)
                (Subscriber.outgoing (plainSubscriber "slow" 1 [commitEvent 1])))
             (plainSubscriber "slow" 1 [commitEvent 1]))).
Proof.
  apply (broadcastEvent_delivery neverDone (commitEvent 2) mixedBroker mixedAfter 0
           (plainSubscriber "slow" 1 [commitEvent 1])).
  - reflexivity.
  - exact mixedBroker_NoDup.
  - reflexivity.
Defined.

Lemma broadcastEvent_isolation_witness :
  exists em', broadcastEvent neverDone (commitEvent 2) mixedBroker = Ok em' /\
    EventManager.heap em' !! 1%nat =
      Some (Subscriber.setOutgoing
              (Chan.push (commitEvent 2) (Subscriber.outgoing (plainSubscriber "fast" 4 [])))
              (plainSubscriber "fast" 4 [])).
Proof.
  apply (broadcastEvent_isolation neverDone (commitEvent 2) mixedBroker 1
           (plainSubscriber "fast" 4 [])).
  - reflexivity.
  - exact mixedBroker_NoDup.
  - apply (bool_decide_unpack _). vm_compute. exact I.
  - reflexivity.
  - reflexivity.
  - reflexivity.
  - reflexivity.
Defined.

Lemma broadcastEvent_bounded_witness : queuesBounded mixedAfter.
Proof.
  apply (broadcastEvent_bounded neverDone (commitEvent 2) mixedBroker mixedAfter).
  - reflexivity.
  - exact mixedBroker_bounded.
Defined.

Lemma broadcastEvent_counters_agree_witness :
  EventManager.eventsEnqueued mixedAfter = EventManager.eventsBroadcast mixedAfter /\
  labelsAgree mixedAfter.
Proof.
  apply (broadcastEvent_counters_agree neverDone (commitEvent 2) mixedBroker mixedAfter).
  - reflexivity.
  - exact mixedBroker_labels.
  - reflexivity.
Defined.

(** ** Cancelling a subscription *)

Section CancelFacts.
Context {P : Type}.
Variable pickDone : nat -> Event -> bool.

(** [rmSubscriber] adds nobody to the list. *)
Lemma rmSubscriber_incl (a c : nat) (em : EventManager.t P) :
  c ∈ EventManager.subs (rmSubscriber a em) -> c ∈ EventManager.subs em.
Proof.
  rewrite rmSubscriber_subs.
  destruct (list_find _ _) as [[i y]|] eqn:Hf; [|auto].
  destruct (EventManager.subs em !! _) as [x|] eqn:Hx; [|auto].
  intros Hin. apply list_elem_of_lookup in Hin as [k Hk].
  apply lookup_take_Some in Hk as [Hk _].
  destruct (decide (i = k)) as [<-|Hne].
  - apply list_find_Some in Hf as (Hi & _).
    rewrite list_lookup_insert_eq in Hk by (eapply lookup_lt_Some; eauto).
    injection Hk as <-. eapply list_elem_of_lookup_2; eauto.
  - rewrite list_lookup_insert_ne in Hk by assumption.
    eapply list_elem_of_lookup_2; eauto.
Qed.

(** Broadcasts leave a subscriber that is not in the list alone. *)
Lemma broadcastAll_frame (evs : list Event) (em : EventManager.t P) (c : nat) :
  subscribersOpen em = true -> c ∉ EventManager.subs em ->
  exists em', forEach (broadcastEvent pickDone) evs em = Ok em' /\ sameShape em em' /\
    subscribersOpen em' = true /\
    EventManager.heap em' !! c = EventManager.heap em !! c.
Proof.
  revert em. induction evs as [|e evs IH]; intros em Hopen Hc; cbn [forEach].
  - exists em. split; [reflexivity|]. split; [apply sameShape_refl|]. now split.
  - destruct (broadcastEvent_ok pickDone e em Hopen) as (em1 & -> & Hsh1 & Ho1 & Hf1).
    cbn [bind].
    destruct (IH em1) as (em' & -> & Hsh & Ho & Hf).
    { eapply subscribersOpen_shape; eauto. }
    { destruct Hsh1 as [-> _]. exact Hc. }
    exists em'. split; [reflexivity|]. split; [eapply sameShape_trans; eauto|].
    split; [exact Ho|]. rewrite Hf. now apply Hf1.
Qed.

(** The list after the first cleanup of a subscriber that was registered
    at most once: the queues of those who remain are open. *)
Lemma cleanup_keeps_open (a : nat) (s : Subscriber.t) (em em1 : EventManager.t P) :
  subscribersOpen em = true ->
  NoDup (EventManager.subs em) ->
  EventManager.heap em1 = <[a := cleanedSubscriber s]> (EventManager.heap em) ->
  EventManager.subs em1 = EventManager.subs (rmSubscriber a em) ->
  (a ∉ EventManager.subs em1) /\ subscribersOpen em1 = true.
Proof.
  intros Hopen Hnd Hheap Hsubs.
  assert (Hn : a ∉ EventManager.subs em1).
  { rewrite Hsubs. now apply rmSubscriber_removes. }
  split; [exact Hn|].
  unfold subscribersOpen. apply forallb_forall. intros c Hin.
  apply list_elem_of_In in Hin.
  assert (c <> a) by (intros ->; contradiction).
  rewrite Hsubs in Hin. apply rmSubscriber_incl in Hin.
  unfold subscribersOpen in Hopen. rewrite forallb_forall in Hopen.
  apply list_elem_of_In, Hopen in Hin. unfold openAt in *.
  rewrite Hheap, lookup_insert_ne by congruence. exact Hin.
Qed.

(** X7: cancelling stops delivery, and no broadcast trips over the closed
    queue. After the first call of a registered subscriber's cleanup, every
    sequence of broadcasts returns without a panic and leaves that
    subscriber's record as the cleanup left it: closed, with what was
    queued before the cancel and nothing more. *)
Theorem cleanup_stops_delivery (a : nat) (s : Subscriber.t) (em : EventManager.t P) :
  subscribersOpen em = true ->
  NoDup (EventManager.subs em) ->
  EventManager.heap em !! a = Some s ->
  Subscriber.cleanupFired s = false ->
  Subscriber.done s = false ->
  Chan.closed (Subscriber.outgoing s) = false ->
  exists em1, cleanup a em = Ok em1 /\
    forall evs, exists em2,
      forEach (broadcastEvent pickDone) evs em1 = Ok em2 /\
      EventManager.heap em2 !! a = Some (cleanedSubscriber s) /\
      (a ∉ EventManager.subs em2).
Proof.
  intros Hopen Hnd Hs Hfired Hdone Hclosed.
  destruct (cleanup_first a s em Hs Hfired Hdone Hclosed)
    as (em1 & Hc & Hheap & Hsubs & _).
  exists em1. split; [exact Hc|]. intros evs.
  destruct (cleanup_keeps_open a s em em1 Hopen Hnd Hheap Hsubs) as [Hn Hopen1].
  destruct (broadcastAll_frame evs em1 a Hopen1 Hn) as (em2 & H2 & Hsh & _ & Hf).
  exists em2. split; [exact H2|]. split.
  - rewrite Hf, Hheap. apply lookup_insert_eq.
  - destruct Hsh as [-> _]. exact Hn.
Qed.

(** X8: the eviction task always ends the subscription and never panics,
    for a subscriber that is either untouched by its cleanup or fully
    cleaned up. Afterwards [done] and the queue are closed and [cleanedUp]
    is set. If the cleanup had not run, the subscriber is out of the
    broker's list and its queue holds what the consumer left in it,
    followed by the [ConsumerTooSlow] frame when there was room for it;
    if it had run, the record is left as it was and nothing is sent. *)
Theorem evict_ends_subscription (drained a : nat) (s : Subscriber.t)
    (em : EventManager.t P) :
  EventManager.heap em !! a = Some s ->
  NoDup (EventManager.subs em) ->
  Subscriber.cleanedUp s = Subscriber.cleanupFired s ->
  Subscriber.done s = Subscriber.cleanupFired s ->
  Chan.closed (Subscriber.outgoing s) = Subscriber.cleanupFired s ->
  exists em' s', evict drained a em = Ok em' /\
    EventManager.heap em' !! a = Some s' /\
    Subscriber.cleanedUp s' = true /\ Subscriber.done s' = true /\
    Chan.closed (Subscriber.outgoing s') = true /\
    if Subscriber.cleanupFired s then
      s' = s /\ EventManager.subs em' = EventManager.subs em
    else
      (a ∉ EventManager.subs em') /\
      Chan.buf (Subscriber.outgoing s') =
        let c := Chan.consume drained (Subscriber.outgoing s) in
        if Chan.hasRoom c then Chan.buf c ++ [consumerTooSlow] else Chan.buf c.
Proof.
  intros Hs Hnd Hcu Hd Hcl.
  unfold evict, deref. cbn [EventManager.heap EventManager.emit]. rewrite Hs.
  cbn [bind]. rewrite Hcu.
  destruct (Subscriber.cleanupFired s) eqn:Hfired; cbn [negb bind].
  - unfold cleanup, deref. cbn [EventManager.heap EventManager.emit]. rewrite Hs.
    cbn [bind]. rewrite Hfired.
    eexists _, s. split; [reflexivity|]. cbn [EventManager.heap EventManager.emit].
    now repeat split.
  - change (Chan.closed (Chan.consume drained (Subscriber.outgoing s)))
      with (Chan.closed (Subscriber.outgoing s)). rewrite Hcl.
    destruct (Chan.hasRoom (Chan.consume drained (Subscriber.outgoing s))) eqn:Hroom;
      cbn [bind].
    + match goal with |- context [cleanup a ?e] => set (em0 := e) end.
      destruct (cleanup_first a
                  (Subscriber.setOutgoing
                     (Chan.push consumerTooSlow
                        (Chan.consume drained (Subscriber.outgoing s))) s) em0)
        as (em1 & Hc & Hheap & Hsubs & _);
        [apply lookup_insert_eq | exact Hfired | exact Hd | exact Hcl |].
      exists em1. eexists. split; [exact Hc|]. rewrite Hheap, lookup_insert_eq.
      split; [reflexivity|]. repeat (split; [reflexivity|]).
      split; [|reflexivity]. rewrite Hsubs. now apply rmSubscriber_removes.
    + match goal with |- context [cleanup a ?e] => set (em0 := e) end.
      destruct (cleanup_first a
                  (Subscriber.setOutgoing
                     (Chan.consume drained (Subscriber.outgoing s)) s) em0)
        as (em1 & Hc & Hheap & Hsubs & _);
        [apply lookup_insert_eq | exact Hfired | exact Hd | exact Hcl |].
      exists em1. eexists. split; [exact Hc|]. rewrite Hheap, lookup_insert_eq.
      split; [reflexivity|]. repeat (split; [reflexivity|]).
      split; [|reflexivity]. rewrite Hsubs. now apply rmSubscriber_removes.
Qed.
End CancelFacts.

Lemma cleanup_stops_delivery_witness :
  exists em1 : EventManager.t (list Event), cleanup 1 mixedBroker = Ok em1 /\
    forall evs, exists em2,
      forEach (broadcastEvent neverDone) evs em1 = Ok em2 /\
      EventManager.heap em2 !! 1%nat =
        Some (cleanedSubscriber (plainSubscriber "fast" 4 [])) /\
      (1%nat ∉ EventManager.subs em2).
Proof.
  apply (cleanup_stops_delivery neverDone 1 (plainSubscriber "fast" 4 []) mixedBroker).
  - reflexivity.
  - exact mixedBroker_NoDup.
  - reflexivity.
  - reflexivity.
  - reflexivity.
  - reflexivity.
Defined.

Lemma evict_ends_subscription_witness :
  exists (em' : EventManager.t (list Event)) s', evict 1 0 mixedBroker = Ok em' /\
    EventManager.heap em' !! 0%nat = Some s' /\
    Subscriber.cleanedUp s' = true /\ Subscriber.done s' = true /\
    Chan.closed (Subscriber.outgoing s') = true /\
    (0%nat ∉ EventManager.subs em') /\
    Chan.buf (Subscriber.outgoing s') = [consumerTooSlow].
Proof.
  apply (evict_ends_subscription 1 0 (plainSubscriber "slow" 1 [commitEvent 1])
           mixedBroker).
  - reflexivity.
  - exact mixedBroker_NoDup.
  - reflexivity.
  - reflexivity.
  - reflexivity.
Defined.

(** ** A live subscription *)

Section LiveSubscription.
Context {Ctx P : Type}.
Variable pickDone : nat -> Event -> bool.

(** One broadcast, seen from the subscriber registered last. *)
Lemma broadcastEvent_last (e : Event) (em : EventManager.t P) (a : nat)
    (others : list nat) (s : Subscriber.t) :
  subscribersOpen em = true ->
  EventManager.subs em = others ++ [a] -> a ∉ others ->
  EventManager.heap em !! a = Some s ->
  exists em', broadcastEvent pickDone e em = Ok em' /\ sameShape em em' /\
    subscribersOpen em' = true /\
    EventManager.heap em' !! a = Some (afterBroadcast pickDone a e s).
Proof.
  intros Hopen Hsubs Hn Hs.
  destruct (broadcastEvent_ok pickDone e em Hopen) as (em' & Hrun & Hsh & Ho & _).
  exists em'. split; [exact Hrun|]. split; [exact Hsh|].
  split; [now apply (subscribersOpen_shape em)|].
  assert (Hall : forallb (openAt em) others = true /\ openAt em a = true).
  { unfold subscribersOpen in Hopen. rewrite Hsubs, forallb_app in Hopen.
    apply andb_true_iff in Hopen as [Ho1 Ho2]. split; [exact Ho1|].
    cbn in Ho2. now rewrite andb_true_r in Ho2. }
  destruct Hall as [Hothers Ha].
  apply openAt_Some in Ha as (s' & Hs' & Hc). rewrite Hs in Hs'. injection Hs' as <-.
  unfold broadcastEvent in Hrun. cbn [EventManager.subs EventManager.emit] in Hrun.
  rewrite Hsubs, forEach_app in Hrun.
  destruct (broadcastLoop_ok pickDone e others (EventManager.emit [Lock subsLk] em))
    as (em1 & H1 & _ & _ & Hf1); [exact Hothers|].
  rewrite H1 in Hrun. cbn [bind forEach] in Hrun.
  assert (Hs1 : EventManager.heap em1 !! a = Some s).
  { rewrite Hf1 by exact Hn. exact Hs. }
  destruct (broadcastOne_ok pickDone e a s em1 Hs1
              (broadcastSelect_open pickDone a s e Hc)) as (em2 & H2 & _ & Hh2).
  rewrite H2 in Hrun. cbn [bind] in Hrun. injection Hrun as <-.
  cbn [EventManager.heap EventManager.emit]. rewrite Hh2. apply lookup_insert_eq.
Qed.

(** Broadcasts that fit into the queue of the subscriber registered last
    append the events its filter accepts, in order. *)
Lemma live_queue_run (f : Event -> bool) (a : nat) (others : list nat)
    (evs : list Event) :
  forall (em : EventManager.t P) (s : Subscriber.t),
  subscribersOpen em = true ->
  EventManager.subs em = others ++ [a] -> a ∉ others ->
  EventManager.heap em !! a = Some s ->
  Subscriber.filter s = f ->
  Subscriber.done s = false ->
  (length (Chan.buf (Subscriber.outgoing s)) +
   length (filter (λ e, f e = true) evs) <= Chan.cap (Subscriber.outgoing s))%nat ->
  exists em', forEach (broadcastEvent pickDone) evs em = Ok em' /\
    EventManager.subs em' = others ++ [a] /\
    EventManager.heap em' !! a =
      Some (Subscriber.setOutgoing
              (Chan.Build (Chan.buf (Subscriber.outgoing s) ++ filter (λ e, f e = true) evs)
                 (Chan.cap (Subscriber.outgoing s)) false) s).
Proof.
  induction evs as [|e evs IH]; intros em s Hopen Hsubs Hn Hs Hf Hd Hlen.
  - exists em. split; [reflexivity|]. split; [exact Hsubs|].
    assert (Hc : Chan.closed (Subscriber.outgoing s) = false).
    { unfold subscribersOpen in Hopen. rewrite Hsubs, forallb_app in Hopen.
      apply andb_true_iff in Hopen as [_ Ho2]. cbn in Ho2.
      unfold openAt in Ho2. rewrite Hs in Ho2.
      now destruct (Chan.closed (Subscriber.outgoing s)). }
    rewrite Hs. f_equal. destruct s as [[b c cl] ? ? ? ? ? ? ?]. cbn in *.
    rewrite Hc, app_nil_r. reflexivity.
  - cbn [forEach].
    destruct (broadcastEvent_last e em a others s Hopen Hsubs Hn Hs)
      as (em1 & -> & Hsh & Hopen1 & Hs1). cbn [bind].
    assert (Hc : Chan.closed (Subscriber.outgoing s) = false).
    { unfold subscribersOpen in Hopen. rewrite Hsubs, forallb_app in Hopen.
      apply andb_true_iff in Hopen as [_ Ho2]. cbn in Ho2.
      unfold openAt in Ho2. rewrite Hs in Ho2.
      now destruct (Chan.closed (Subscriber.outgoing s)). }
    assert (Hsubs1 : EventManager.subs em1 = others ++ [a]).
    { destruct Hsh as [-> _]. exact Hsubs. }
    rewrite filter_cons in Hlen |- *.
    destruct (decide (f e = true)) as [Hfe|Hfe].
    + cbn [length] in Hlen.
      assert (Hr : Chan.hasRoom (Subscriber.outgoing s) = true).
      { unfold Chan.hasRoom, Chan.len. apply Nat.ltb_lt. lia. }
      rewrite (afterBroadcast_room pickDone a s e Hd Hc Hr), Hf, Hfe in Hs1.
      destruct (IH em1 _ Hopen1 Hsubs1 Hn Hs1) as (em' & -> & Hsubs' & Hs').
      * exact Hf.
      * exact Hd.
      * cbn. rewrite length_app. cbn. lia.
      * exists em'. split; [reflexivity|]. split; [exact Hsubs'|].
        rewrite Hs'. cbn. now rewrite <- app_assoc.
    + assert (Hs1' : EventManager.heap em1 !! a = Some s).
      { rewrite Hs1. f_equal. unfold afterBroadcast. rewrite Hf.
        now destruct (f e). }
      destruct (IH em1 s Hopen1 Hsubs1 Hn Hs1' Hf Hd Hlen) as (em' & -> & Hsubs' & Hs').
      exists em'. now split.
Qed.

(** X9: a subscription without cursor is live at once. [Subscribe] with a
    nil [since] returns the subscriber's own queue and registers it; the
    broadcasts that follow queue exactly the events its filter accepts, in
    broadcast order, as long as they fit into the queue. The subscriber
    stays registered with its queue open. *)
Theorem Subscribe_live_queue (ctx : Ctx) (ident : string)
    (flt : option (Event -> bool)) (em0 : EventManager.t P) (evs : list Event) :
  wellFormed em0 = true ->
  (length (filter (λ e, filterOrAll flt e = true) evs) <= EventManager.bufferSize em0)%nat ->
  let r := Subscribe ctx ident flt None em0 in
  let a := EventManager.nextAddr em0 in
  channel r.1 = Some (OutgoingOf a) /\ cancel r.1 = Some (CleanupOf a) /\
  exists em' s, forEach (broadcastEvent pickDone) evs r.2 = Ok em' /\
    (a ∈ EventManager.subs em') /\
    EventManager.heap em' !! a = Some s /\
    Chan.buf (Subscriber.outgoing s) = filter (λ e, filterOrAll flt e = true) evs /\
    Chan.closed (Subscriber.outgoing s) = false.
Proof.
  intros Hwf Hlen r a. split; [reflexivity|]. split; [reflexivity|].
  unfold wellFormed in Hwf. apply andb_true_iff in Hwf as [Hopen Hbelow].
  rewrite forallb_forall in Hbelow.
  assert (Hfresh : a ∉ EventManager.subs em0).
  { intros Hin. apply list_elem_of_In, Hbelow, Nat.ltb_lt in Hin. unfold a in Hin. lia. }
  set (sub := Subscriber.Build (Chan.make (EventManager.bufferSize em0))
                (filterOrAll flt) false false false ident ident ident).
  assert (Hr2 : EventManager.subs r.2 = EventManager.subs em0 ++ [a] /\
                EventManager.heap r.2 = <[a := sub]> (EventManager.heap em0)).
  { unfold r, Subscribe, sub, filterOrAll. cbn. now destruct flt. }
  destruct Hr2 as [Hsubs Hheap].
  assert (Hopen2 : subscribersOpen r.2 = true).
  { unfold subscribersOpen. rewrite Hsubs, forallb_app. apply andb_true_iff. split.
    - apply forallb_forall. intros c Hc.
      unfold subscribersOpen in Hopen. rewrite forallb_forall in Hopen.
      specialize (Hopen c Hc). apply list_elem_of_In in Hc.
      assert (c <> a) by (intros ->; contradiction).
      unfold openAt in *. rewrite Hheap, lookup_insert_ne by congruence. exact Hopen.
    - cbn [forallb]. unfold openAt. rewrite Hheap, lookup_insert_eq. reflexivity. }
  destruct (live_queue_run (filterOrAll flt) a (EventManager.subs em0) evs r.2 sub)
    as (em' & Hrun & Hsubs' & Hs'); try assumption; try reflexivity.
  - rewrite Hheap. apply lookup_insert_eq.
  - exists em'. eexists. split; [exact Hrun|]. split.
    + rewrite Hsubs'. apply elem_of_app. right. apply list_elem_of_singleton. reflexivity.
    + split; [exact Hs'|]. split; reflexivity.
Qed.
End LiveSubscription.

Lemma Subscribe_live_queue_witness :
  channel (@Subscribe unit _ tt "c2" (Some onlyCommits) None mixedBroker).1 =
    Some (OutgoingOf 2) /\
  cancel (@Subscribe unit _ tt "c2" (Some onlyCommits) None mixedBroker).1 =
    Some (CleanupOf 2) /\
  exists em' s,
    forEach (broadcastEvent neverDone) [commitEvent 2; handleEvent 3; commitEvent 4]
      (@Subscribe unit _ tt "c2" (Some onlyCommits) None mixedBroker).2 = Ok em' /\
    (2%nat ∈ EventManager.subs em') /\
    EventManager.heap em' !! 2%nat = Some s /\
    Chan.buf (Subscriber.outgoing s) = [commitEvent 2; commitEvent 4] /\
    Chan.closed (Subscriber.outgoing s) = false.
Proof.
  apply (@Subscribe_live_queue unit _ neverDone tt "c2" (Some onlyCommits) mixedBroker
           [commitEvent 2; handleEvent 3; commitEvent 4]).
  - reflexivity.
  - vm_compute. lia.
Defined.

(** ** The goroutine and cancellation *)

Section JoinCancel.
Context {Ctx P : Type} `{!EventPersistence Ctx P}.
Variable pickDone : nat -> Event -> bool.

(** One step from the final loop, or after the exit. *)
Lemma joinStep_live (j j' : Join.t Ctx) (em em' : EventManager.t P) :
  Join.pc j = Live \/ Join.pc j = Exited ->
  joinStep pickDone j em = Ok (j', em') ->
  Join.outClosed j' = Join.outClosed j /\
  (Join.pc j' = Live \/ Join.pc j' = Exited) /\
  exists more, Join.out j' = Join.out j ++ more.
Proof.
  intros Hpc. unfold joinStep, deref.
  destruct (EventManager.heap em !! Join.sub j) as [s|]; [|discriminate]. cbn [bind].
  destruct Hpc as [Hpc|Hpc]; rewrite Hpc.
  - destruct (Chan.recv (Subscriber.outgoing s)) as [evt c| |].
    + destruct (Subscriber.done s && pickDone (Join.sub j) evt); intros [= <- <-].
      * split; [reflexivity|]. split; [now right|]. exists []. cbn.
        now rewrite app_nil_r.
      * split; [reflexivity|]. split; [now left|]. now exists [evt].
    + intros [= <- <-]. split; [reflexivity|]. split; [now right|].
      exists []. cbn. now rewrite app_nil_r.
    + intros [= <- <-]. split; [reflexivity|]. split; [now left|].
      exists []. now rewrite app_nil_r.
  - intros [= <- <-]. split; [reflexivity|]. split; [now right|].
    exists []. now rewrite app_nil_r.
Qed.

(** X10: once the goroutine of [Subscribe] has reached its final loop it
    never closes the merged channel, whatever the rest of the program does
    to the broker between its steps, cancellation and eviction included:
    the loop ends by returning, at which point the channel is still open.
    What was sent stays sent and the goroutine is in the loop or has
    returned. *)
Theorem live_loop_never_closes_out (ems : list (EventManager.t P)) (j j' : Join.t Ctx) :
  Join.pc j = Live ->
  joinAgainst pickDone ems j = Ok j' ->
  Join.outClosed j' = Join.outClosed j /\
  (Join.pc j' = Live \/ Join.pc j' = Exited) /\
  exists more, Join.out j' = Join.out j ++ more.
Proof.
  intros Hpc. assert (Hpc' : Join.pc j = Live \/ Join.pc j = Exited) by now left.
  clear Hpc. revert j Hpc'.
  induction ems as [|em ems IH]; intros j Hpc Hrun; cbn [joinAgainst] in Hrun.
  - injection Hrun as <-. split; [reflexivity|]. split; [exact Hpc|].
    exists []. now rewrite app_nil_r.
  - destruct (joinStep pickDone j em) as [[j1 em1]|] eqn:H1; [|discriminate].
    cbn [bind fst] in Hrun.
    destruct (joinStep_live j j1 em em1 Hpc H1) as (Hc1 & Hpc1 & more1 & Ho1).
    destruct (IH j1 Hpc1 Hrun) as (Hc & Hpc2 & more & Ho).
    split; [congruence|]. split; [exact Hpc2|].
    exists (more1 ++ more). now rewrite Ho, Ho1, <- app_assoc.
Qed.
End JoinCancel.

Lemma live_loop_never_closes_out_witness :
  Join.outClosed (resultOr liveJoin
                    (joinAgainst neverDone [mixedQueued; mixedCancelled; mixedCancelled]
                       liveJoin)) = Join.outClosed liveJoin /\
  (Join.pc (resultOr liveJoin
              (joinAgainst neverDone [mixedQueued; mixedCancelled; mixedCancelled]
                 liveJoin)) = Live \/
   Join.pc (resultOr liveJoin
              (joinAgainst neverDone [mixedQueued; mixedCancelled; mixedCancelled]
                 liveJoin)) = Exited) /\
  exists more,
    Join.out (resultOr liveJoin
                (joinAgainst neverDone [mixedQueued; mixedCancelled; mixedCancelled]
                   liveJoin)) = Join.out liveJoin ++ more.
Proof.
  apply (live_loop_never_closes_out neverDone
           [mixedQueued; mixedCancelled; mixedCancelled] liveJoin).
  - reflexivity.
  - reflexivity.
Defined.

Section JoinCancelLog.
Context {Ctx : Type}.
Variable pickDone : nat -> Event -> bool.

Lemma playbackLog_nothing {S : Type} (since : Z) (visit : Event -> S -> S * option error)
    (log : list Event) (s : S) :
  nothingAbove since log = true -> playbackLog since visit log s = (s, None).
Proof.
  induction log as [|e log IH]; cbn [nothingAbove forallb playbackLog];
    [reflexivity|].
  intros H. apply andb_true_iff in H as [He Hl].
  destruct (assignedSeq e) as [q|]; [|now apply IH].
  apply Z.leb_le in He.
  assert (Hq : (since <? q) = false) by (apply Z.ltb_ge; lia).
  rewrite Hq. now apply IH.
Qed.

(** A playback whose callback refuses every event stops at the first
    event above the cursor. *)
Lemma playbackLog_refused {S : Type} (since : Z) (visit : Event -> S -> S * option error)
    (err : error) (log : list Event) (s : S) :
  (forall e, visit e s = (s, Some err)) ->
  nothingAbove since log = false ->
  playbackLog since visit log s = (s, Some err).
Proof.
  intros Hv. induction log as [|e log IH]; cbn [nothingAbove forallb playbackLog];
    [discriminate|].
  destruct (assignedSeq e) as [q|]; [|exact IH].
  destruct (since <? q) eqn:Hq.
  - intros _. now rewrite Hv.
  - intros H. apply IH. apply Z.ltb_ge in Hq.
    assert (Hle : (q <=? since) = true) by (apply Z.leb_le; lia).
    now rewrite Hle in H.
Qed.

(** X11: a subscription cancelled before its cold replay forwards
    anything. With [done] closed and the runtime picking the [done] case,
    the replay of a log that has an event above the cursor stops at that
    event with [ErrPlaybackShutdown]: the goroutine logs it as a warning,
    closes the merged channel without having sent anything on it, returns,
    and never registers the subscriber. *)
Theorem cold_replay_cancelled (j : Join.t Ctx) (em : EventManager.t (list Event))
    (s : Subscriber.t) :
  Join.pc j = Cold ->
  EventManager.heap em !! Join.sub j = Some s ->
  Subscriber.done s = true ->
  (forall e, pickDone (Join.sub j) e = true) ->
  nothingAbove (Join.since j) (EventManager.persister em) = false ->
  exists j', joinStep pickDone j em =
      Ok (j', EventManager.emit [Warnf "events playback: playback shutting down"] em) /\
    Join.pc j' = Exited /\ Join.outClosed j' = true /\ Join.out j' = Join.out j.
Proof.
  intros Hpc Hs Hd Hpick Hlog.
  unfold joinStep, deref. rewrite Hs, Hpc. cbn [bind Playback logPersistence].
  change (Join.since (Join.setLastSeq (Join.since j) j)) with (Join.since j).
  rewrite (playbackLog_refused (Join.since j) _ ErrPlaybackShutdown _ _).
  - eexists. split; [reflexivity|]. now repeat split.
  - intros e. unfold coldVisit. rewrite Hd.
    change (Join.sub (Join.setLastSeq (Join.since j) j)) with (Join.sub j).
    now rewrite Hpick.
  - exact Hlog.
Qed.

Local Arguments rmSubscriber : simpl never.

Lemma rmSubscriber_persister {P : Type} (a : nat) (em : EventManager.t P) :
  EventManager.persister (rmSubscriber a em) = EventManager.persister em.
Proof.
  unfold rmSubscriber. cbn.
  destruct (list_find _ _) as [[i x]|]; [|reflexivity].
  now destruct (_ !! _).
Qed.

Lemma cleanup_first_persister {P : Type} (a : nat) (s : Subscriber.t)
    (em em1 : EventManager.t P) :
  EventManager.heap em !! a = Some s ->
  Subscriber.cleanupFired s = false ->
  Subscriber.done s = false ->
  Chan.closed (Subscriber.outgoing s) = false ->
  cleanup a em = Ok em1 ->
  EventManager.persister em1 = EventManager.persister em.
Proof.
  intros Hs Hfired Hdone Hclosed.
  unfold cleanup, deref. rewrite Hs. cbn. rewrite Hfired. cbn.
  rewrite lookup_insert_eq. cbn. rewrite Hdone. cbn.
  rewrite rmSubscriber_heap. cbn. rewrite lookup_insert_eq. cbn.
  unfold Chan.close. cbn. rewrite Hclosed. cbn.
  rewrite ?rmSubscriber_heap. cbn. rewrite lookup_insert_eq. cbn.
  intros [= <-]. cbn. now rewrite rmSubscriber_persister.
Qed.

(** The steps of the goroutine for a subscriber that was cancelled before
    it started, over a log with nothing above the cursor. *)
Lemma joinStep_cold_quiet (j : Join.t Ctx) (em : EventManager.t (list Event))
    (s : Subscriber.t) :
  EventManager.heap em !! Join.sub j = Some s ->
  Join.pc j = Cold ->
  nothingAbove (Join.since j) (EventManager.persister em) = true ->
  joinStep pickDone j em =
    Ok (Join.goto Attach (Join.setLastSeq (Join.since j) j), em).
Proof.
  intros Hs Hpc Hlog. unfold joinStep, deref. rewrite Hs, Hpc.
  cbn [bind Playback logPersistence].
  change (Join.since (Join.setLastSeq (Join.since j) j)) with (Join.since j).
  now rewrite (playbackLog_nothing _ _ _ _ Hlog).
Qed.

Lemma joinStep_attach (j : Join.t Ctx) (em : EventManager.t (list Event))
    (s : Subscriber.t) :
  EventManager.heap em !! Join.sub j = Some s ->
  Join.pc j = Attach ->
  joinStep pickDone j em =
    Ok (Join.goto AwaitFirst j, addSubscriber (Join.sub j) em).
Proof. intros Hs Hpc. unfold joinStep, deref. now rewrite Hs, Hpc. Qed.

Lemma joinStep_await_closed (j : Join.t Ctx) (em : EventManager.t (list Event))
    (s : Subscriber.t) :
  EventManager.heap em !! Join.sub j = Some s ->
  Join.pc j = AwaitFirst ->
  Chan.buf (Subscriber.outgoing s) = [] ->
  Chan.closed (Subscriber.outgoing s) = true ->
  joinStep pickDone j em = Ok (Join.goto Hot (Join.setFirst None j), em).
Proof.
  intros Hs Hpc Hb Hc. unfold joinStep, deref, Chan.recv.
  rewrite Hs, Hpc. cbn [bind]. now rewrite Hb, Hc.
Qed.

Lemma joinStep_hot_quiet (j : Join.t Ctx) (em : EventManager.t (list Event))
    (s : Subscriber.t) :
  EventManager.heap em !! Join.sub j = Some s ->
  Join.pc j = Hot ->
  nothingAbove (Join.lastSeq j) (EventManager.persister em) = true ->
  joinStep pickDone j em = Ok (Join.goto Live j, em).
Proof.
  intros Hs Hpc Hlog. unfold joinStep, deref. rewrite Hs, Hpc.
  cbn [bind Playback logPersistence].
  now rewrite (playbackLog_nothing _ _ _ _ Hlog).
Qed.

Lemma joinStep_live_closed (j : Join.t Ctx) (em : EventManager.t (list Event))
    (s : Subscriber.t) :
  EventManager.heap em !! Join.sub j = Some s ->
  Join.pc j = Live ->
  Chan.buf (Subscriber.outgoing s) = [] ->
  Chan.closed (Subscriber.outgoing s) = true ->
  joinStep pickDone j em = Ok (Join.goto Exited j, em).
Proof.
  intros Hs Hpc Hb Hc. unfold joinStep, deref, Chan.recv.
  rewrite Hs, Hpc. cbn [bind]. now rewrite Hb, Hc.
Qed.

(** X12: cancelling between [Subscribe] with a cursor and the goroutine's
    registration does not keep the subscriber out of the broker. When the
    log has nothing above the cursor the cancelled goroutine still
    registers the subscriber, finds its queue closed and returns after five
    steps, leaving the subscriber in the broker's list with a closed queue
    and the merged channel open and empty. From then on a broadcast of an
    event the filter accepts panics with a send on a closed channel
    whenever the runtime picks the send case of the [select]. *)
Theorem cancel_before_registration_leaks (ctx : Ctx) (ident : string)
    (flt : option (Event -> bool)) (since : Z) (em0 : EventManager.t (list Event)) :
  wellFormed em0 = true ->
  nothingAbove since (EventManager.persister em0) = true ->
  let r := Subscribe ctx ident flt (Some since) em0 in
  let a := EventManager.nextAddr em0 in
  exists j0 em1 j,
    task r.1 = Some j0 /\ cleanup a r.2 = Ok em1 /\
    joinSteps pickDone 5 (j0, em1) = Ok (j, addSubscriber a em1) /\
    Join.pc j = Exited /\ Join.outClosed j = false /\ Join.out j = [] /\
    (a ∈ EventManager.subs (addSubscriber a em1)) /\
    forall evt, filterOrAll flt evt = true -> pickDone a evt = false ->
      broadcastEvent pickDone evt (addSubscriber a em1) =
        Panic "send on closed channel".
Proof.
  intros Hwf Hlog r a.
  unfold wellFormed in Hwf. apply andb_true_iff in Hwf as [Hopen Hbelow].
  rewrite forallb_forall in Hbelow.
  assert (Hfresh : a ∉ EventManager.subs em0).
  { intros Hin. apply list_elem_of_In, Hbelow, Nat.ltb_lt in Hin. unfold a in Hin. lia. }
  set (sub := Subscriber.Build (Chan.make (EventManager.bufferSize em0))
                (filterOrAll flt) false false false ident ident ident).
  set (j0 := Join.Build ctx a since since None [] false Cold).
  assert (Hr : task r.1 = Some j0 /\
               EventManager.subs r.2 = EventManager.subs em0 /\
               EventManager.persister r.2 = EventManager.persister em0 /\
               EventManager.heap r.2 = <[a := sub]> (EventManager.heap em0)).
  { unfold r, Subscribe, sub, filterOrAll. cbn. now destruct flt. }
  destruct Hr as (Htask & Hsubs & Hper & Hheap).
  assert (Hsub : EventManager.heap r.2 !! a = Some sub).
  { rewrite Hheap. apply lookup_insert_eq. }
  destruct (cleanup_first a sub r.2 Hsub eq_refl eq_refl eq_refl)
    as (em1 & Hc & Hheap1 & Hsubs1 & _).
  pose proof (cleanup_first_persister a sub r.2 em1 Hsub eq_refl eq_refl eq_refl Hc)
    as Hper1.
  rewrite Hper in Hper1.
  assert (Hsubs1' : EventManager.subs em1 = EventManager.subs em0).
  { rewrite Hsubs1, rmSubscriber_subs, Hsubs.
    destruct (list_find (λ s, s = a) (EventManager.subs em0)) as [[i x]|] eqn:Hf;
      [|reflexivity].
    apply list_find_Some in Hf as (Hi & -> & _).
    exfalso. apply Hfresh. eapply list_elem_of_lookup_2; eauto. }
  assert (Hs1 : EventManager.heap em1 !! a = Some (cleanedSubscriber sub)).
  { rewrite Hheap1. apply lookup_insert_eq. }
  exists j0, em1. eexists. split; [exact Htask|]. split; [exact Hc|].
  split; [|split; [|split; [|split; [|split]]]].
  - cbn [joinSteps fst snd].
    erewrite joinStep_cold_quiet;
      [| exact Hs1 | reflexivity | cbn; now rewrite Hper1].
    cbn [bind fst snd].
    erewrite joinStep_attach; [| exact Hs1 | reflexivity].
    cbn [bind fst snd].
    erewrite joinStep_await_closed;
      [| exact Hs1 | reflexivity | reflexivity | reflexivity].
    cbn [bind fst snd].
    erewrite joinStep_hot_quiet;
      [| exact Hs1 | reflexivity | cbn; now rewrite Hper1].
    cbn [bind fst snd].
    erewrite joinStep_live_closed;
      [| exact Hs1 | reflexivity | reflexivity | reflexivity].
    cbn [bind]. reflexivity.
  - reflexivity.
  - reflexivity.
  - reflexivity.
  - cbn. apply elem_of_app. right. apply list_elem_of_singleton. reflexivity.
  - intros evt Hacc Hpick. unfold broadcastEvent.
    cbn [EventManager.subs EventManager.emit addSubscriber EventManager.setSubs].
    rewrite Hsubs1', forEach_app.
    match goal with |- context [forEach _ (EventManager.subs em0) ?e] =>
      set (emL := e) end.
    assert (HheapL : EventManager.heap emL = EventManager.heap em1) by reflexivity.
    destruct (broadcastLoop_ok pickDone evt (EventManager.subs em0) emL)
      as (em2 & -> & _ & _ & Hf2).
    { apply forallb_forall. intros c Hin.
      unfold subscribersOpen in Hopen. rewrite forallb_forall in Hopen.
      specialize (Hopen c Hin). apply list_elem_of_In in Hin.
      assert (c <> a) by (intros ->; contradiction).
      unfold openAt in *. rewrite HheapL, Hheap1, Hheap.
      now rewrite !lookup_insert_ne by congruence. }
    cbn [bind forEach]. unfold broadcastOne, deref.
    rewrite (Hf2 a Hfresh), HheapL, Hs1. cbn [bind].
    change (Subscriber.filter (cleanedSubscriber sub) evt) with (filterOrAll flt evt).
    rewrite Hacc. unfold broadcastSelect, Chan.sendReady. cbn. rewrite Hpick.
    reflexivity.
Qed.
End JoinCancelLog.

Lemma cold_replay_cancelled_witness :
  exists j', joinStep alwaysDone coldJoin cancelledBroker =
      Ok (j', EventManager.emit [Warnf "events playback: playback shutting down"]
                cancelledBroker) /\
    Join.pc j' = Exited /\ Join.outClosed j' = true /\ Join.out j' = Join.out coldJoin.
Proof.
  apply (cold_replay_cancelled alwaysDone coldJoin cancelledBroker
           (cleanedSubscriber (plainSubscriber "gone" 4 []))).
  - reflexivity.
  - reflexivity.
  - reflexivity.
  - intros e. reflexivity.
  - reflexivity.
Defined.

Lemma cancel_before_registration_leaks_witness :
  exists j0 em1 j,
    task (Subscribe tt "c1" None (Some 2) seededBroker).1 = Some j0 /\
    cleanup 0 (Subscribe tt "c1" None (Some 2) seededBroker).2 = Ok em1 /\
    joinSteps neverDone 5 (j0, em1) = Ok (j, addSubscriber 0 em1) /\
    Join.pc j = Exited /\ Join.outClosed j = false /\ Join.out j = [] /\
    (0%nat ∈ EventManager.subs (addSubscriber 0 em1)) /\
    forall evt, filterOrAll None evt = true -> neverDone 0 evt = false ->
      broadcastEvent neverDone evt (addSubscriber 0 em1) =
        Panic "send on closed channel".
Proof.
  apply (cancel_before_registration_leaks neverDone tt "c1" None 2 seededBroker).
  - reflexivity.
  - reflexivity.
Defined.

Section HotCancel.
Context {Ctx : Type}.
Variable pickDone : nat -> Event -> bool.

(** A playback skips a stretch of the log with nothing above the cursor. *)
Lemma playbackLog_skip {S : Type} (since : Z) (visit : Event -> S -> S * option error)
    (pre rest : list Event) (s : S) :
  nothingAbove since pre = true ->
  playbackLog since visit (pre ++ rest) s = playbackLog since visit rest s.
Proof.
  induction pre as [|e pre IH]; cbn [nothingAbove forallb playbackLog app];
    [reflexivity|].
  intros H. apply andb_true_iff in H as [He Hl].
  destruct (assignedSeq e) as [q|]; [|now apply IH].
  apply Z.leb_le in He.
  assert (Hq : (since <? q) = false) by (apply Z.ltb_ge; lia).
  rewrite Hq. now apply IH.
Qed.

(** X13: a subscription cancelled when its hot replay starts. With [done]
    closed and the runtime picking the [done] case, a hot replay whose
    first event above the cursor is not beyond [first] stops there with
    [ErrPlaybackShutdown]. Unlike the cold replay, which logs this as a
    warning, the hot replay logs it at error level; it closes the merged
    channel without sending the event, calls [rmSubscriber] and returns. *)
Theorem hot_replay_cancelled (j : Join.t Ctx) (em : EventManager.t (list Event))
    (s : Subscriber.t) (pre post : list Event) (e : Event) (q : Z) :
  Join.pc j = Hot ->
  EventManager.heap em !! Join.sub j = Some s ->
  Subscriber.done s = true ->
  pickDone (Join.sub j) e = true ->
  EventManager.persister em = pre ++ e :: post ->
  nothingAbove (Join.lastSeq j) pre = true ->
  assignedSeq e = Some q -> Join.lastSeq j < q ->
  sequenceForEvent (Some e) <= sequenceForEvent (Join.first j) ->
  exists j', joinStep pickDone j em =
      Ok (j', rmSubscriber (Join.sub j)
                (EventManager.emit [Errorf "events playback: playback shutting down"] em)) /\
    Join.pc j' = Exited /\ Join.outClosed j' = true /\ Join.out j' = Join.out j.
Proof.
  intros Hpc Hs Hd Hpick Hlog Hpre Hq Hlt Hle.
  unfold joinStep, deref. rewrite Hs, Hpc. cbn [bind Playback logPersistence].
  rewrite Hlog, (playbackLog_skip _ _ _ _ _ Hpre). cbn [playbackLog].
  rewrite Hq. apply Z.ltb_lt in Hlt. rewrite Hlt.
  unfold hotVisit. rewrite Hd, Hpick.
  assert (Hn : (sequenceForEvent (Join.first j) <? sequenceForEvent (Some e)) = false)
    by (apply Z.ltb_ge; lia).
  rewrite Hn. cbn [andb negb errors_Is].
  eexists. split; [reflexivity|]. now repeat split.
Qed.
End HotCancel.

Lemma hot_replay_cancelled_witness :
  exists j', joinStep alwaysDone hotJoin cancelledHot =
      Ok (j', rmSubscriber 0
                (EventManager.emit [Errorf "events playback: playback shutting down"]
                   cancelledHot)) /\
    Join.pc j' = Exited /\ Join.outClosed j' = true /\ Join.out j' = Join.out hotJoin.
Proof.
  apply (hot_replay_cancelled alwaysDone hotJoin cancelledHot
           (cleanedSubscriber (plainSubscriber "gone" 4 []))
           [] [commitEvent 2] (commitEvent 1) 1).
  - reflexivity.
  - reflexivity.
  - reflexivity.
  - reflexivity.
  - reflexivity.
  - reflexivity.
  - reflexivity.
  - reflexivity.
  - vm_compute. discriminate.
Defined.

(** ** Direct DID resolution *)

Section ResolverFacts.
Import identity.
Context {Ctx Limiter Handle Body ExtErr : Type}.
Variable Method : DID -> string.
Variable Identifier : DID -> string.
Variable ParseHandle : string -> option Handle.
Variable AllowedTLD : Handle -> bool.
Variable DefaultPLCURL : string.
Variable httpGet : string -> HttpResult Body ExtErr.
Variable asDNSError : ExtErr -> option DNSError.
Variable decode : Body -> DIDDocument.t + ExtErr.
Variable Wait : Limiter -> Ctx -> option ExtErr.
Variable elapsedMs : Z.
Variable extIs : ExtErr -> Sentinel -> bool.

Local Abbreviation web := (ResolveDIDWeb Method Identifier ParseHandle AllowedTLD httpGet
                         asDNSError decode).
Local Abbreviation plc := (ResolveDIDPLC Method DefaultPLCURL httpGet decode Wait).
Local Abbreviation resolve := (ResolveDID Method Identifier ParseHandle AllowedTLD
                             DefaultPLCURL httpGet asDNSError decode Wait elapsedMs).

Local Abbreviation webURL := (identity.webURL Identifier).
Local Abbreviation plcURL := (identity.plcURL DefaultPLCURL).
Local Abbreviation webAllowed := (identity.webAllowed Method Identifier ParseHandle AllowedTLD).
Local Abbreviation plcAllowed := (identity.plcAllowed Method Wait).

Lemma requested_app (a b : list (Effect ExtErr)) :
  requested (a ++ b) = requested a ++ requested b.
Proof. unfold requested. apply omap_app. Qed.

(** [ResolveDIDWeb] when the request is allowed: one request, and the
    outcome read off its answer. *)
Lemma web_allowed (d : BaseDirectory Ctx Limiter ExtErr) (ctx : Ctx) (did : DID) :
  webAllowed d ctx did ->
  requested (effects (web d ctx did)) = [webURL did] /\
  match httpGet (webURL did) with
  | GetErr e =>
    doc (web d ctx did) = None /\
    err (web d ctx did) =
      Some (match asDNSError e with
            | Some dnsErr =>
              if IsNotFound dnsErr
              then Errorf "%w: DNS NXDOMAIN" [ArgW (Sentinel_ ErrDIDNotFound)]
              else Errorf "%w: did:web HTTP well-known fetch: %w"
                     [ArgW (Sentinel_ ErrDIDResolutionFailed); ArgW (External e)]
            | None => Errorf "%w: did:web HTTP well-known fetch: %w"
                        [ArgW (Sentinel_ ErrDIDResolutionFailed); ArgW (External e)]
            end)
  | GetResp st body =>
    if st =? 404 then
      doc (web d ctx did) = None /\
      err (web d ctx did) =
        Some (Errorf "%w: did:web HTTP status 404" [ArgW (Sentinel_ ErrDIDNotFound)])
    else if st =? 200 then
      match decode body with
      | inl dd => doc (web d ctx did) = Some dd /\ err (web d ctx did) = None
      | inr e =>
        doc (web d ctx did) = None /\
        err (web d ctx did) =
          Some (Errorf "%w: JSON DID document parse: %w"
                  [ArgW (Sentinel_ ErrDIDResolutionFailed); ArgW (External e)])
      end
    else
      doc (web d ctx did) = None /\
      err (web d ctx did) =
        Some (Errorf "%w: did:web HTTP status %d"
                [ArgW (Sentinel_ ErrDIDResolutionFailed); ArgD st])
  end.
Proof.
  intros (Hm & (h & Hh & Htld) & Hlim). unfold ResolveDIDWeb, identity.webURL.
  rewrite Hm, Hh, Htld. cbn [String.eqb Ascii.eqb Bool.eqb negb].
  change ("web" =? "web")%string with true. cbn [negb].
  destruct (DIDWebLimitFunc d) as [f|] eqn:Hf.
  - rewrite (Hlim f eq_refl).
    destruct (httpGet _) as [e|st body].
    + destruct (asDNSError e) as [[[]]|]; now repeat split.
    + unfold StatusNotFound, StatusOK.
      destruct (st =? 404); [now repeat split|].
      destruct (st =? 200); cbn [negb]; [|now repeat split].
      destruct (decode body); now repeat split.
  - destruct (httpGet _) as [e|st body].
    + destruct (asDNSError e) as [[[]]|]; now repeat split.
    + unfold StatusNotFound, StatusOK.
      destruct (st =? 404); [now repeat split|].
      destruct (st =? 200); cbn [negb]; [|now repeat split].
      destruct (decode body); now repeat split.
Qed.

(** [ResolveDIDWeb] when the request is not allowed: no request and no
    document. *)
Lemma web_refused (d : BaseDirectory Ctx Limiter ExtErr) (ctx : Ctx) (did : DID) :
  ~ webAllowed d ctx did ->
  requested (effects (web d ctx did)) = [] /\
  doc (web d ctx did) = None /\ is_Some (err (web d ctx did)).
Proof.
  intros Hn. unfold ResolveDIDWeb.
  destruct (String.eqb (Method did) "web") eqn:Hm; cbn [negb]; [|now repeat split].
  apply String.eqb_eq in Hm.
  destruct (ParseHandle (Identifier did)) as [h|] eqn:Hh; [|now repeat split].
  destruct (AllowedTLD h) eqn:Htld; cbn [negb]; [|now repeat split].
  destruct (DIDWebLimitFunc d) as [f|] eqn:Hf.
  - destruct (f ctx (Identifier did)) as [e|] eqn:He; [now repeat split|].
    exfalso. apply Hn. split; [exact Hm|]. split; [now exists h|].
    intros f' Hf'. rewrite Hf in Hf'. injection Hf' as <-. exact He.
  - exfalso. apply Hn. split; [exact Hm|]. split; [now exists h|].
    intros f' Hf'. rewrite Hf in Hf'. discriminate.
Qed.

Lemma plc_allowed (d : BaseDirectory Ctx Limiter ExtErr) (ctx : Ctx) (did : DID) :
  plcAllowed d ctx did ->
  requested (effects (plc d ctx did)) = [plcURL d did] /\
  match httpGet (plcURL d did) with
  | GetErr e =>
    doc (plc d ctx did) = None /\
    err (plc d ctx did) =
      Some (Errorf "%w: PLC directory lookup: %w"
              [ArgW (Sentinel_ ErrDIDResolutionFailed); ArgW (External e)])
  | GetResp st body =>
    if st =? 404 then
      doc (plc d ctx did) = None /\
      err (plc d ctx did) =
        Some (Errorf "%w: PLC directory 404" [ArgW (Sentinel_ ErrDIDNotFound)])
    else if st =? 200 then
      match decode body with
      | inl dd => doc (plc d ctx did) = Some dd /\ err (plc d ctx did) = None
      | inr e =>
        doc (plc d ctx did) = None /\
        err (plc d ctx did) =
          Some (Errorf "%w: JSON DID document parse: %w"
                  [ArgW (Sentinel_ ErrDIDResolutionFailed); ArgW (External e)])
      end
    else
      doc (plc d ctx did) = None /\
      err (plc d ctx did) =
        Some (Errorf "%w: PLC directory status %d"
                [ArgW (Sentinel_ ErrDIDResolutionFailed); ArgD st])
  end.
Proof.
  intros (Hm & Hlim). unfold ResolveDIDPLC, identity.plcURL.
  rewrite Hm. change ("plc" =? "plc")%string with true. cbn [negb].
  destruct (PLCLimiter d) as [l|] eqn:Hl.
  - rewrite (Hlim l eq_refl).
    destruct (httpGet _) as [e|st body]; [now repeat split|].
    unfold StatusNotFound, StatusOK.
    destruct (st =? 404); [now repeat split|].
    destruct (st =? 200); cbn [negb]; [|now repeat split].
    destruct (decode body); now repeat split.
  - destruct (httpGet _) as [e|st body]; [now repeat split|].
    unfold StatusNotFound, StatusOK.
    destruct (st =? 404); [now repeat split|].
    destruct (st =? 200); cbn [negb]; [|now repeat split].
    destruct (decode body); now repeat split.
Qed.

Lemma plc_refused (d : BaseDirectory Ctx Limiter ExtErr) (ctx : Ctx) (did : DID) :
  ~ plcAllowed d ctx did ->
  requested (effects (plc d ctx did)) = [] /\
  doc (plc d ctx did) = None /\ is_Some (err (plc d ctx did)).
Proof.
  intros Hn. unfold ResolveDIDPLC.
  destruct (String.eqb (Method did) "plc") eqn:Hm; cbn [negb]; [|now repeat split].
  apply String.eqb_eq in Hm.
  destruct (PLCLimiter d) as [l|] eqn:Hl.
  - destruct (Wait l ctx) as [e|] eqn:He; [now repeat split|].
    exfalso. apply Hn. split; [exact Hm|].
    intros l' Hl'. rewrite Hl in Hl'. injection Hl' as <-. exact He.
  - exfalso. apply Hn. split; [exact Hm|].
    intros l' Hl'. rewrite Hl in Hl'. discriminate.
Qed.

(** [ResolveDID] hands on what the resolver for the method returns and
    adds the debug line; for any other method it fails at once. *)
Lemma resolve_dispatch (d : BaseDirectory Ctx Limiter ExtErr) (ctx : Ctx) (did : DID) :
  (Method did = "web" /\
   doc (resolve d ctx did) = doc (web d ctx did) /\
   err (resolve d ctx did) = err (web d ctx did) /\
   requested (effects (resolve d ctx did)) = requested (effects (web d ctx did))) \/
  (Method did = "plc" /\
   doc (resolve d ctx did) = doc (plc d ctx did) /\
   err (resolve d ctx did) = err (plc d ctx did) /\
   requested (effects (resolve d ctx did)) = requested (effects (plc d ctx did))) \/
  (Method did <> "web" /\ Method did <> "plc" /\
   doc (resolve d ctx did) = None /\
   err (resolve d ctx did) =
     Some (Errorf "DID method not supported: %s" [ArgS (Method did)]) /\
   effects (resolve d ctx did) = []).
Proof.
  unfold ResolveDID.
  destruct (String.eqb (Method did) "web") eqn:Hw.
  - left. apply String.eqb_eq in Hw. cbn [doc err effects].
    rewrite requested_app. cbn. rewrite app_nil_r. now repeat split.
  - destruct (String.eqb (Method did) "plc") eqn:Hp.
    + right. left. apply String.eqb_eq in Hp. cbn [doc err effects].
      rewrite requested_app. cbn. rewrite app_nil_r. now repeat split.
    + right. right. apply String.eqb_neq in Hw, Hp. now repeat split.
Qed.

Lemma webAllowed_dec (d : BaseDirectory Ctx Limiter ExtErr) (ctx : Ctx) (did : DID) :
  webAllowed d ctx did \/ ~ webAllowed d ctx did.
Proof.
  unfold identity.webAllowed.
  destruct (String.eqb (Method did) "web") eqn:Hm;
    [apply String.eqb_eq in Hm | apply String.eqb_neq in Hm; right; tauto].
  destruct (ParseHandle (Identifier did)) as [h|] eqn:Hh;
    [|right; intros (_ & (h & [=] & _) & _)].
  destruct (AllowedTLD h) eqn:Htld;
    [|right; intros (_ & (h' & [= <-] & Ht) & _); congruence].
  destruct (DIDWebLimitFunc d) as [f|].
  - destruct (f ctx (Identifier did)) as [e|] eqn:He.
    + right. intros (_ & _ & Hl). specialize (Hl f eq_refl). congruence.
    + left. split; [exact Hm|]. split; [now exists h|]. now intros f' [= <-].
  - left. split; [exact Hm|]. split; [now exists h|]. intros f' [=].
Qed.

Lemma plcAllowed_dec (d : BaseDirectory Ctx Limiter ExtErr) (ctx : Ctx) (did : DID) :
  plcAllowed d ctx did \/ ~ plcAllowed d ctx did.
Proof.
  unfold identity.plcAllowed.
  destruct (String.eqb (Method did) "plc") eqn:Hm;
    [apply String.eqb_eq in Hm | apply String.eqb_neq in Hm; right; tauto].
  destruct (PLCLimiter d) as [l|].
  - destruct (Wait l ctx) as [e|] eqn:He.
    + right. intros (_ & Hl). specialize (Hl l eq_refl). congruence.
    + left. split; [exact Hm|]. now intros l' [= <-].
  - left. split; [exact Hm|]. intros l' [=].
Qed.

(** X14: [ResolveDID] returns a document or an error, never both and
    never neither, whatever the network and the limiters answer. *)
Theorem ResolveDID_document_or_error (d : BaseDirectory Ctx Limiter ExtErr)
    (ctx : Ctx) (did : DID) :
  (is_Some (doc (resolve d ctx did)) /\ err (resolve d ctx did) = None) \/
  (doc (resolve d ctx did) = None /\ is_Some (err (resolve d ctx did))).
Proof.
  destruct (resolve_dispatch d ctx did)
    as [(_ & -> & -> & _)|[(_ & -> & -> & _)|(_ & _ & -> & -> & _)]].
  - destruct (webAllowed_dec d ctx did) as [Ha|Hn].
    + destruct (web_allowed d ctx did Ha) as [_ H].
      destruct (httpGet (webURL did)) as [e|st body].
      * destruct H as [-> ->]. right. now split.
      * destruct (st =? 404); [destruct H as [-> ->]; right; now split|].
        destruct (st =? 200); [|destruct H as [-> ->]; right; now split].
        destruct (decode body); destruct H as [-> ->]; [left|right]; now split.
    + destruct (web_refused d ctx did Hn) as (_ & -> & H). right. now split.
  - destruct (plcAllowed_dec d ctx did) as [Ha|Hn].
    + destruct (plc_allowed d ctx did Ha) as [_ H].
      destruct (httpGet (plcURL d did)) as [e|st body].
      * destruct H as [-> ->]. right. now split.
      * destruct (st =? 404); [destruct H as [-> ->]; right; now split|].
        destruct (st =? 200); [|destruct H as [-> ->]; right; now split].
        destruct (decode body); destruct H as [-> ->]; [left|right]; now split.
    + destruct (plc_refused d ctx did Hn) as (_ & -> & H). right. now split.
  - right. now split.
Qed.

(** X15: when [ResolveDID] returns a document. It does exactly when the
    method is [web] or [plc], the guards and the limiter of that method let
    the request through, the one request is answered with status 200 and
    the body decodes to that document. The [web] request goes to
    [https://<identifier>/.well-known/did.json], the [plc] request to
    [<PLCURL>/<did>] with [DefaultPLCURL] standing in for an empty
    [PLCURL]. *)
Theorem ResolveDID_document_iff (d : BaseDirectory Ctx Limiter ExtErr)
    (ctx : Ctx) (did : DID) (dd : DIDDocument.t) :
  doc (resolve d ctx did) = Some dd <->
  (webAllowed d ctx did /\
   exists body, httpGet (webURL did) = GetResp 200 body /\ decode body = inl dd) \/
  (plcAllowed d ctx did /\
   exists body, httpGet (plcURL d did) = GetResp 200 body /\ decode body = inl dd).
Proof.
  split.
  - destruct (resolve_dispatch d ctx did)
      as [(Hm & -> & _)|[(Hm & -> & _)|(_ & _ & -> & _)]]; [| |discriminate].
    + intros Hd. left.
      destruct (webAllowed_dec d ctx did) as [Ha|Hn].
      * split; [exact Ha|].
        destruct (web_allowed d ctx did Ha) as [_ H].
        destruct (httpGet (webURL did)) as [e|st body].
        -- destruct H as [H _]. congruence.
        -- destruct (st =? 404) eqn:H4; [destruct H as [H _]; congruence|].
           destruct (st =? 200) eqn:H2; [|destruct H as [H _]; congruence].
           apply Z.eqb_eq in H2. subst st. exists body. split; [reflexivity|].
           destruct (decode body); destruct H as [H _]; congruence.
      * destruct (web_refused d ctx did Hn) as (_ & H & _). congruence.
    + intros Hd. right.
      destruct (plcAllowed_dec d ctx did) as [Ha|Hn].
      * split; [exact Ha|].
        destruct (plc_allowed d ctx did Ha) as [_ H].
        destruct (httpGet (plcURL d did)) as [e|st body].
        -- destruct H as [H _]. congruence.
        -- destruct (st =? 404) eqn:H4; [destruct H as [H _]; congruence|].
           destruct (st =? 200) eqn:H2; [|destruct H as [H _]; congruence].
           apply Z.eqb_eq in H2. subst st. exists body. split; [reflexivity|].
           destruct (decode body); destruct H as [H _]; congruence.
      * destruct (plc_refused d ctx did Hn) as (_ & H & _). congruence.
  - intros [(Ha & body & Hget & Hdec)|(Ha & body & Hget & Hdec)].
    + destruct (resolve_dispatch d ctx did)
        as [(_ & -> & _)|[(Hm & _)|(Hm & _)]];
        [| destruct Ha as (Hw & _); rewrite Hw in Hm; discriminate
         | destruct Ha as (Hw & _); contradiction].
      destruct (web_allowed d ctx did Ha) as [_ H].
      rewrite Hget in H. cbn in H. rewrite Hdec in H. now destruct H.
    + destruct (resolve_dispatch d ctx did)
        as [(Hm & _)|[(_ & -> & _)|(_ & Hm & _)]];
        [destruct Ha as (Hp & _); rewrite Hp in Hm; discriminate
         | | destruct Ha as (Hp & _); contradiction].
      destruct (plc_allowed d ctx did Ha) as [_ H].
      rewrite Hget in H. cbn in H. rewrite Hdec in H. now destruct H.
Qed.

(** X16: [ResolveDID] makes at most one HTTP request, and makes it only
    when the guards of the method pass and the limit function or the rate
    limiter has let it through: a DID of another method, a [did:web] whose
    identifier is not a hostname with an allowed TLD, or a limiter that
    returns an error leads to no request at all. *)
Theorem ResolveDID_requests (d : BaseDirectory Ctx Limiter ExtErr)
    (ctx : Ctx) (did : DID) :
  (webAllowed d ctx did /\ requested (effects (resolve d ctx did)) = [webURL did]) \/
  (plcAllowed d ctx did /\ requested (effects (resolve d ctx did)) = [plcURL d did]) \/
  (~ webAllowed d ctx did /\ ~ plcAllowed d ctx did /\
   requested (effects (resolve d ctx did)) = [] /\ doc (resolve d ctx did) = None).
Proof.
  destruct (resolve_dispatch d ctx did)
    as [(Hm & Hd & _ & ->)|[(Hm & Hd & _ & ->)|(Hw & Hp & Hd & _ & ->)]].
  - destruct (webAllowed_dec d ctx did) as [Ha|Hn].
    + left. split; [exact Ha|]. now destruct (web_allowed d ctx did Ha).
    + right. right. split; [exact Hn|]. split.
      * intros (Hp & _). rewrite Hp in Hm. discriminate.
      * destruct (web_refused d ctx did Hn) as (-> & Hdoc & _).
        split; [reflexivity|]. now rewrite Hd.
  - destruct (plcAllowed_dec d ctx did) as [Ha|Hn].
    + right. left. split; [exact Ha|]. now destruct (plc_allowed d ctx did Ha).
    + right. right. split.
      * intros (Hw & _). rewrite Hw in Hm. discriminate.
      * split; [exact Hn|].
        destruct (plc_refused d ctx did Hn) as (-> & Hdoc & _).
        split; [reflexivity|]. now rewrite Hd.
  - right. right. split; [now intros (H & _)|]. split; [now intros (H & _)|].
    now split.
Qed.

(** X17: how [ResolveDID] classifies a response that is not a 200, once
    the request was allowed. Status 404 gives an error that
    [errors.Is] recognises as [ErrDIDNotFound] and not as
    [ErrDIDResolutionFailed]; every other status gives an error that is
    [ErrDIDResolutionFailed] and not [ErrDIDNotFound]. *)
Theorem ResolveDID_status_classes (d : BaseDirectory Ctx Limiter ExtErr)
    (ctx : Ctx) (did : DID) (url : string) (st : Z) (body : Body) :
  requested (effects (resolve d ctx did)) = [url] ->
  httpGet url = GetResp st body ->
  st <> 200 ->
  exists e, err (resolve d ctx did) = Some e /\ doc (resolve d ctx did) = None /\
    Is extIs e ErrDIDNotFound = (st =? 404) /\
    Is extIs e ErrDIDResolutionFailed = negb (st =? 404).
Proof.
  intros Hreq Hget Hst.
  assert (H2 : (st =? 200) = false) by now apply Z.eqb_neq.
  destruct (resolve_dispatch d ctx did)
    as [(Hm & Hd & He & Hr)|[(Hm & Hd & He & Hr)|(_ & _ & _ & _ & Hfx)]].
  - rewrite Hd, He. rewrite Hr in Hreq.
    destruct (webAllowed_dec d ctx did) as [Ha|Hn].
    + destruct (web_allowed d ctx did Ha) as [Hu H].
      rewrite Hu in Hreq. injection Hreq as Hu'. rewrite Hu' in H.
      rewrite Hget in H. cbn beta iota in H.
      destruct (st =? 404); [|rewrite H2 in H];
        destruct H as [-> ->]; eexists; split; [reflexivity| |reflexivity|];
        now repeat split.
    + destruct (web_refused d ctx did Hn) as (Hu & _). rewrite Hu in Hreq.
      discriminate.
  - rewrite Hd, He. rewrite Hr in Hreq.
    destruct (plcAllowed_dec d ctx did) as [Ha|Hn].
    + destruct (plc_allowed d ctx did Ha) as [Hu H].
      rewrite Hu in Hreq. injection Hreq as Hu'. rewrite Hu' in H.
      rewrite Hget in H. cbn beta iota in H.
      destruct (st =? 404); [|rewrite H2 in H];
        destruct H as [-> ->]; eexists; split; [reflexivity| |reflexivity|];
        now repeat split.
    + destruct (plc_refused d ctx did Hn) as (Hu & _). rewrite Hu in Hreq.
      discriminate.
  - rewrite Hfx in Hreq. discriminate.
Qed.

(** X18: a name that does not resolve. When the request fails with a DNS
    error that says the host was not found, [ResolveDID] reports
    [ErrDIDNotFound] for a [did:web], where it looks for that error, but
    [ErrDIDResolutionFailed] for a [did:plc], where every failed request
    is reported alike. *)
Theorem ResolveDID_host_not_found (d : BaseDirectory Ctx Limiter ExtErr)
    (ctx : Ctx) (did : DID) (url : string) (x : ExtErr) :
  requested (effects (resolve d ctx did)) = [url] ->
  httpGet url = GetErr x ->
  asDNSError x = Some (Build_DNSError true) ->
  exists e, err (resolve d ctx did) = Some e /\
    if String.eqb (Method did) "web"
    then Is extIs e ErrDIDNotFound = true /\ Is extIs e ErrDIDResolutionFailed = false
    else Is extIs e ErrDIDResolutionFailed = true.
Proof.
  intros Hreq Hget Hdns.
  destruct (resolve_dispatch d ctx did)
    as [(Hm & Hd & He & Hr)|[(Hm & Hd & He & Hr)|(_ & _ & _ & _ & Hfx)]].
  - rewrite He, Hm. rewrite Hr in Hreq. change ("web" =? "web")%string with true.
    destruct (webAllowed_dec d ctx did) as [Ha|Hn].
    + destruct (web_allowed d ctx did Ha) as [Hu H].
      rewrite Hu in Hreq. injection Hreq as Hu'. rewrite Hu' in H.
      rewrite Hget, Hdns in H. cbn in H. destruct H as [_ ->].
      eexists. split; [reflexivity|]. now split.
    + destruct (web_refused d ctx did Hn) as (Hu & _). rewrite Hu in Hreq.
      discriminate.
  - rewrite He, Hm. rewrite Hr in Hreq. change ("plc" =? "web")%string with false.
    destruct (plcAllowed_dec d ctx did) as [Ha|Hn].
    + destruct (plc_allowed d ctx did Ha) as [Hu H].
      rewrite Hu in Hreq. injection Hreq as Hu'. rewrite Hu' in H.
      rewrite Hget in H. destruct H as [_ ->].
      eexists. split; [reflexivity|]. reflexivity.
    + destruct (plc_refused d ctx did Hn) as (Hu & _). rewrite Hu in Hreq.
      discriminate.
  - rewrite Hfx in Hreq. discriminate.
Qed.
End ResolverFacts.

Lemma ResolveDID_status_classes_witness :
  exists e, identity.err (exampleResolve "did:web:missing.example") = Some e /\
    identity.doc (exampleResolve "did:web:missing.example") = None /\
    identity.Is (fun _ _ => false) e identity.ErrDIDNotFound = (404 =? 404) /\
    identity.Is (fun _ _ => false) e identity.ErrDIDResolutionFailed = negb (404 =? 404).
Proof.
  unfold exampleResolve.
  apply (ResolveDID_status_classes exampleMethod exampleIdentifier (fun h => Some h)
           (fun _ => true) "https://plc.directory" exampleGet exampleDNS exampleDecode
           (fun _ _ => None) 3 (fun _ _ => false) exampleDirectory tt
           "did:web:missing.example" "https://missing.example/.well-known/did.json"
           404 "").
  - reflexivity.
  - reflexivity.
  - lia.
Defined.

Lemma ResolveDID_host_not_found_witness :
  exists e, identity.err (exampleResolve "did:web:gone.example") = Some e /\
    if String.eqb (exampleMethod "did:web:gone.example") "web"
    then identity.Is (fun _ _ => false) e identity.ErrDIDNotFound = true /\
         identity.Is (fun _ _ => false) e identity.ErrDIDResolutionFailed = false
    else identity.Is (fun _ _ => false) e identity.ErrDIDResolutionFailed = true.
Proof.
  unfold exampleResolve.
  apply (ResolveDID_host_not_found exampleMethod exampleIdentifier (fun h => Some h)
           (fun _ => true) "https://plc.directory" exampleGet exampleDNS exampleDecode
           (fun _ _ => None) 3 (fun _ _ => false) exampleDirectory tt
           "did:web:gone.example" "https://gone.example/.well-known/did.json"
           "no such host").
  - reflexivity.
  - reflexivity.
  - reflexivity.
Defined.
